(** * aetherion: the WhatsApp command parser, the WhatsApp Web service, the
      chat route and the WhatsApp routes, embedded and verified.

    Source files embedded here:
    - [src/lib/command-parser.ts]                      (module [CommandParser])
    - [src/lib/whatsapp-service.ts], the class
      [WhatsAppService]                                (modules [WhatsAppService]
                                                        and [WhatsAppLifecycle])
    - [src/app/api/chat/route.ts]                      (modules [ChatRoute]
                                                        and [ChatReplies])
    - [src/app/api/whatsapp/send/route.ts]             (module [SendRoute])
    - [src/app/api/whatsapp/status/route.ts]           (module [StatusRoute])
    - [src/app/api/whatsapp/messages/route.ts]         (module [MessagesRoute])
    - [src/app/api/whatsapp/qr/route.ts]               (module [QrRoute])
    - [src/app/api/whatsapp/connect/route.ts]          (module [ConnectRoute])

    How the program is modelled.
    - Strings are Rocq [string]s, sequences of 8-bit characters.  Case
      mapping acts on the ASCII letters; every other character is carried
      unchanged.
    - A regular expression of the parser is a term of [Regex.re] that
      mirrors the literal, run by a backtracking matcher with the
      priorities of ECMAScript.
    - The service is a record of its four fields.  A method is a function
      from the service to an outcome (a value or a thrown error), the
      service afterwards, and the trace of the calls it made on the
      underlying client.  The client is a record of the answers it gives.
    - Timestamps are integers: seconds in the client's messages,
      milliseconds in a [Date].  A [Date] is kept as the number it is
      built from, and is an Invalid Date when that number is out of the
      range of [Date].  A limit is an integer.
    - A route is a function from what it reads of its request and of its
      surroundings (the external service, the chat completion providers,
      each a record of the answers they give) to its JSON answer.
    - Console output ([console.log], [qrcode.generate]) is left out. *)

From Stdlib Require Import String Ascii List ZArith Lia Bool Arith.
From Stdlib Require Import Permutation Sorted DecimalString.
Import ListNotations.
Local Open Scope string_scope.

(* ================================================================== *)
(** * The JavaScript string primitives the sources use                  *)
(* ================================================================== *)

Module Js.

Definition code (c : ascii) : nat := nat_of_ascii c.

(** [\s] of the regular expressions and the white space of [trim]:
    TAB, LF, VT, FF, CR, SPACE and NBSP. *)
Definition is_space (c : ascii) : bool :=
  let n := code c in
  (Nat.leb 9 n && Nat.leb n 13) || Nat.eqb n 32 || Nat.eqb n 160.

(** Line terminators, which [.] does not match. *)
Definition is_line_terminator (c : ascii) : bool :=
  let n := code c in Nat.eqb n 10 || Nat.eqb n 13.

Definition is_upper (c : ascii) : bool :=
  let n := code c in Nat.leb 65 n && Nat.leb n 90.

Definition is_lower (c : ascii) : bool :=
  let n := code c in Nat.leb 97 n && Nat.leb n 122.

Definition lower (c : ascii) : ascii :=
  if is_upper c then ascii_of_nat (code c + 32) else c.

(** [String.prototype.toLowerCase] *)
Fixpoint toLowerCase (s : string) : string :=
  match s with
  | EmptyString => EmptyString
  | String c s' => String (lower c) (toLowerCase s')
  end.

Fixpoint trimStart (s : string) : string :=
  match s with
  | EmptyString => EmptyString
  | String c s' => if is_space c then trimStart s' else s
  end.

Fixpoint rev_string (acc s : string) : string :=
  match s with
  | EmptyString => acc
  | String c s' => rev_string (String c acc) s'
  end.

Definition trimEnd (s : string) : string :=
  rev_string EmptyString (trimStart (rev_string EmptyString s)).

(** [String.prototype.trim] *)
Definition trim (s : string) : string := trimEnd (trimStart s).

(** [s.startsWith(p)] *)
Fixpoint startsWith (p s : string) : bool :=
  match p, s with
  | EmptyString, _ => true
  | String a p', String b s' => Ascii.eqb a b && startsWith p' s'
  | String _ _, EmptyString => false
  end.

(** [s.indexOf(p)]: the first index at which [p] occurs in [s], or [-1]. *)
Fixpoint indexOf_from (i : Z) (s p : string) : Z :=
  if startsWith p s then i
  else match s with
       | EmptyString => (-1)%Z
       | String _ s' => indexOf_from (i + 1)%Z s' p
       end.

Definition indexOf (s p : string) : Z := indexOf_from 0%Z s p.

(** [s.includes(p)] *)
Definition includes (s p : string) : bool :=
  negb (Z.eqb (indexOf s p) (-1)).

Fixpoint drop (n : nat) (s : string) : string :=
  match n, s with
  | O, _ => s
  | S n', String _ s' => drop n' s'
  | S _, EmptyString => EmptyString
  end.

Fixpoint take (n : nat) (s : string) : string :=
  match n, s with
  | S n', String c s' => String c (take n' s')
  | _, _ => EmptyString
  end.

(** [s.substring(i)]: a negative index counts as 0, one past the end
    as the length. *)
Definition substring_from (s : string) (i : Z) : string :=
  drop (Z.to_nat i) s.

(** [s.substring(i, j)] for [i <= j]. *)
Definition slice (s : string) (i j : nat) : string :=
  take (j - i) (drop i s).

(** [s.split(sep)] for a string separator.  An empty separator cuts
    between every two characters. *)
Fixpoint split_chars (s : string) : list string :=
  match s with
  | EmptyString => []
  | String c s' => String c EmptyString :: split_chars s'
  end.

Fixpoint split_go (sep : string) (cur_rev : string) (s : string)
                  (fuel : nat) : list string :=
  match fuel with
  | O => [rev_string EmptyString cur_rev]
  | S fuel' =>
      match s with
      | EmptyString => [rev_string EmptyString cur_rev]
      | String c s' =>
          if startsWith sep s
          then rev_string EmptyString cur_rev
               :: split_go sep EmptyString (drop (String.length sep) s) fuel'
          else split_go sep (String c cur_rev) s' fuel'
      end
  end.

Definition split (s sep : string) : list string :=
  match sep with
  | EmptyString => split_chars s
  | _ => split_go sep EmptyString s (S (String.length s))
  end.

(** [words.join(' ')] *)
Fixpoint join (sep : string) (l : list string) : string :=
  match l with
  | [] => EmptyString
  | [x] => x
  | x :: l' => x ++ sep ++ join sep l'
  end.

(** [arr.includes(x)] on an array of strings *)
Definition arr_includes (l : list string) (x : string) : bool :=
  existsb (String.eqb x) l.

(** [arr.slice(i, j)] for [0 <= i] *)
Definition arr_slice {A} (l : list A) (i j : nat) : list A :=
  firstn (j - i) (skipn i l).

(** Truthiness of a string: the empty string is falsy. *)
Definition truthy (s : string) : bool :=
  match s with EmptyString => false | _ => true end.

(** Truthiness of [string | undefined]. *)
Definition truthy_opt (o : option string) : bool :=
  match o with Some s => truthy s | None => false end.

End Js.

(* ================================================================== *)
(** * A backtracking matcher for the regular expressions of the parser  *)
(* ================================================================== *)

Module Regex.

(** The fragment of the ECMAScript pattern language the sources use.
    Alternatives are tried left to right, a greedy quantifier tries one
    more iteration before it tries to stop, a lazy one the other way
    round, and an iteration that consumes nothing is refused. *)
Inductive re : Type :=
| Empty                          (* the empty pattern *)
| Char (p : ascii -> bool)       (* one character satisfying [p] *)
| Cat (r1 r2 : re)               (* r1 r2 *)
| Or (r1 r2 : re)                (* r1|r2 *)
| Star (r : re)                  (* r* *)
| LazyStar (r : re)              (* r*? *)
| Group (i : nat) (r : re)       (* the i-th capturing group (r) *)
| Bol                            (* ^ *)
| Eol.                           (* $ *)

(** Capture [i] holds the start and end index of group [i]. *)
Definition captures := list (nat * (nat * nat)).

Fixpoint get (i : nat) (c : captures) : option (nat * nat) :=
  match c with
  | [] => None
  | (j, v) :: c' => if Nat.eqb i j then Some v else get i c'
  end.

Definition set (i : nat) (v : nat * nat) (c : captures) : captures :=
  (i, v) :: c.

Definition outcome : Type := option (nat * captures).

(** [run r pos s caps k]: match [r] against [s], the input from index
    [pos] on, and hand what is left to the continuation [k]. *)
Fixpoint run (r : re) (pos : nat) (s : string) (caps : captures)
             (k : nat -> string -> captures -> outcome) {struct r}
  : outcome :=
  match r with
  | Empty => k pos s caps
  | Char p =>
      match s with
      | String c s' => if p c then k (S pos) s' caps else None
      | EmptyString => None
      end
  | Cat r1 r2 =>
      run r1 pos s caps (fun pos' s' caps' => run r2 pos' s' caps' k)
  | Or r1 r2 =>
      match run r1 pos s caps k with
      | Some x => Some x
      | None => run r2 pos s caps k
      end
  | Star r' =>
      (fix loop (n : nat) (pos : nat) (s : string) (caps : captures)
         : outcome :=
         match n with
         | O => k pos s caps
         | S n' =>
             match run r' pos s caps
                     (fun pos' s' caps' =>
                        if Nat.ltb pos pos' then loop n' pos' s' caps'
                        else None) with
             | Some x => Some x
             | None => k pos s caps
             end
         end) (String.length s) pos s caps
  | LazyStar r' =>
      (fix loop (n : nat) (pos : nat) (s : string) (caps : captures)
         : outcome :=
         match n with
         | O => k pos s caps
         | S n' =>
             match k pos s caps with
             | Some x => Some x
             | None =>
                 run r' pos s caps
                   (fun pos' s' caps' =>
                      if Nat.ltb pos pos' then loop n' pos' s' caps'
                      else None)
             end
         end) (String.length s) pos s caps
  | Group i r' =>
      run r' pos s caps
        (fun pos' s' caps' => k pos' s' (set i (pos, pos') caps'))
  | Bol => if Nat.eqb pos 0 then k pos s caps else None
  | Eol => match s with EmptyString => k pos s caps | _ => None end
  end.

(** A match: where it starts, where it ends, and its captures. *)
Record rmatch : Type := mkMatch
  { m_start : nat; m_end : nat; m_caps : captures }.

(** The match of [r] that starts at index [pos] exactly. *)
Definition match_at (r : re) (pos : nat) (rest : string) : option rmatch :=
  match run r pos rest [] (fun e _ c => Some (e, c)) with
  | Some (e, c) => Some (mkMatch pos e c)
  | None => None
  end.

(** The leftmost match at or after [pos]. *)
Fixpoint search (r : re) (pos : nat) (rest : string) : option rmatch :=
  match match_at r pos rest with
  | Some m => Some m
  | None =>
      match rest with
      | EmptyString => None
      | String _ rest' => search r (S pos) rest'
      end
  end.

(** [s.match(r)] and [r.exec(s)] for a pattern without the [g] flag. *)
Definition exec (r : re) (s : string) : option rmatch := search r 0 s.

(** [r.test(s)] *)
Definition test (r : re) (s : string) : bool :=
  match exec r s with Some _ => true | None => false end.

(** [match[i]]: [None] is [undefined], a group that took no part. *)
Definition group (s : string) (m : rmatch) (i : nat) : option string :=
  match get i (m_caps m) with
  | Some (a, b) => Some (Js.slice s a b)
  | None => None
  end.

(** [s.replace(r, '')] for a pattern without the [g] flag: the
    leftmost match is cut out. *)
Definition remove_first (r : re) (s : string) : string :=
  match exec r s with
  | Some m => Js.take (m_start m) s ++ Js.drop (m_end m) s
  | None => s
  end.

(** [s.replace(r, '')] for a pattern with the [g] flag: every match is
    cut out, scanning left to right; after an empty match the scan
    moves on by one character. *)
Fixpoint remove_all_go (r : re) (pos : nat) (rest : string) (fuel : nat)
  : string :=
  match fuel with
  | O => rest
  | S fuel' =>
      match match_at r pos rest with
      | Some m =>
          let len := m_end m - pos in
          match len, rest with
          | O, String c rest' =>
              String c (remove_all_go r (S pos) rest' fuel')
          | O, EmptyString => EmptyString
          | _, _ => remove_all_go r (m_end m) (Js.drop len rest) fuel'
          end
      | None =>
          match rest with
          | String c rest' =>
              String c (remove_all_go r (S pos) rest' fuel')
          | EmptyString => EmptyString
          end
      end
  end.

Definition remove_all (r : re) (s : string) : string :=
  remove_all_go r 0 s (S (String.length s)).

(** [s.split(r)] for a pattern without capturing groups. *)
Fixpoint split_go (r : re) (p q : nat) (from_p from_q : string)
                  (fuel : nat) : list string :=
  match fuel with
  | O => [from_p]
  | S fuel' =>
      match from_q with
      | EmptyString => [from_p]
      | String _ from_q' =>
          match match_at r q from_q with
          | Some m =>
              let e := m_end m in
              if Nat.eqb e p then split_go r p (S q) from_p from_q' fuel'
              else Js.take (q - p) from_p
                   :: split_go r e e (Js.drop (e - q) from_q)
                               (Js.drop (e - q) from_q) fuel'
          | None => split_go r p (S q) from_p from_q' fuel'
          end
      end
  end.

Definition split (r : re) (s : string) : list string :=
  match s with
  | EmptyString =>
      match match_at r 0 EmptyString with
      | Some _ => []
      | None => [EmptyString]
      end
  | _ => split_go r 0 0 s s (S (2 * String.length s))
  end.

(** ** Pattern combinators *)

Definition plus (r : re) : re := Cat r (Star r).          (* r+ *)
Definition lazy_plus (r : re) : re := Cat r (LazyStar r). (* r+? *)
Definition opt (r : re) : re := Or r Empty.               (* r? *)

Fixpoint seq (l : list re) : re :=
  match l with
  | [] => Empty
  | [r] => r
  | r :: l' => Cat r (seq l')
  end.

Fixpoint alt (l : list re) : re :=
  match l with
  | [] => Char (fun _ => false)
  | [r] => r
  | r :: l' => Or r (alt l')
  end.

(** A literal under the [i] flag. *)
Fixpoint lit_i (s : string) : re :=
  match s with
  | EmptyString => Empty
  | String c EmptyString =>
      Char (fun x => Ascii.eqb (Js.lower x) (Js.lower c))
  | String c s' =>
      Cat (Char (fun x => Ascii.eqb (Js.lower x) (Js.lower c))) (lit_i s')
  end.

Definition ws : re := Char Js.is_space.                    (* \s *)
Definition az_i : re :=                                    (* [a-z] under i *)
  Char (fun c => Js.is_lower (Js.lower c)).
Definition dot : re :=                                     (* . *)
  Char (fun c => negb (Js.is_line_terminator c)).
Definition quote : re :=             (* a double or a single quote *)
  Char (fun c => Nat.eqb (Js.code c) 34 || Nat.eqb (Js.code c) 39).

End Regex.

(* ================================================================== *)
(** * src/lib/command-parser.ts                                         *)
(* ================================================================== *)

Module CommandParser.
Import Regex.

Inductive CommandType : Type := whatsapp | email | calendar | general.
Inductive CommandAction : Type := check | send | reply | read | unknown.

Record Filters : Type := mkFilters
  { unread : option bool;
    contact : option string;
    limit : option Z }.

(** [interface ParsedCommand]; an absent optional field is [None]. *)
Record ParsedCommand : Type := mkCommand
  { type : CommandType;
    action : CommandAction;
    target : option string;
    message : option string;
    replyTo : option string;
    filters : option Filters }.

Definition set_action (a : CommandAction) (c : ParsedCommand) :=
  mkCommand (type c) a (target c) (message c) (replyTo c) (filters c).
Definition set_target (t : string) (c : ParsedCommand) :=
  mkCommand (type c) (action c) (Some t) (message c) (replyTo c) (filters c).
Definition set_message (m : string) (c : ParsedCommand) :=
  mkCommand (type c) (action c) (target c) (Some m) (replyTo c) (filters c).
Definition set_filters (f : Filters) (c : ParsedCommand) :=
  mkCommand (type c) (action c) (target c) (message c) (replyTo c) (Some f).

(** The first element of [l] on which [f] returns: a [for] loop whose
    body may [return]. *)
Fixpoint first_return {A B : Type} (f : A -> option B) (l : list A)
  : option B :=
  match l with
  | [] => None
  | x :: l' =>
      match f x with
      | Some y => Some y
      | None => first_return f l'
      end
  end.

(** [[a-z]+(?:\s+[a-z]+)?], the shape of a captured name. *)
Definition name_shape : re :=
  Cat (plus az_i) (opt (Cat (plus ws) (plus az_i))).

(** The three [patterns] of [extractContactName]. *)
Definition contact_patterns : list re :=
  [ seq [alt [lit_i "from"; lit_i "to"; lit_i "with"];
         plus ws; Group 1 name_shape];
    seq [alt [lit_i "contact"; lit_i "person"];
         plus ws; Group 1 name_shape];
    seq [alt [lit_i "friend"; lit_i "buddy"];
         plus ws; Group 1 name_shape] ].

Definition commonWords : list string :=
  ["the"; "a"; "an"; "your"; "my"; "his"; "her"; "their"; "this"; "that";
   "message"; "text"; "chat"].

Definition afterPhrases : list string :=
  ["message from"; "text from"; "chat with"; "send to"; "reply to";
   "message to"].

(** [/^[a-z]+$/i] *)
Definition only_letters : re := seq [Bol; plus az_i; Eol].

(** [/\s+/] *)
Definition spaces : re := plus ws.

Definition extractContactName (message : string) : option string :=
  let lowerMessage := Js.toLowerCase message in
  match
    first_return
      (fun pattern =>
         match exec pattern message with
         | Some m =>
             match group message m 1 with
             | Some g =>
                 if Js.truthy g then
                   let name := Js.trim g in
                   if negb (Js.arr_includes commonWords
                              (Js.toLowerCase name))
                   then Some name else None
                 else None
             | None => None
             end
         | None => None
         end)
      contact_patterns
  with
  | Some name => Some name
  | None =>
      first_return
        (fun phrase =>
           let index := Js.indexOf lowerMessage phrase in
           if negb (Z.eqb index (-1)) then
             let after :=
               Js.trim (Js.substring_from message
                          (index + Z.of_nat (String.length phrase))) in
             let words := split spaces after in
             match words with
             | potentialName :: _ =>
                 if Nat.ltb 2 (String.length potentialName)
                    && test only_letters potentialName
                 then Some potentialName else None
             | [] => None
             end
           else None)
        afterPhrases
  end.

(** The [fillerPatterns] of [isFillerPhrase]. *)
Definition fillerPatterns : list re :=
  [ seq [Bol; Group 1 (alt [lit_i "a"; lit_i "an"; lit_i "the"]);
         plus ws; lit_i "message"; Eol];
    seq [Bol; Group 1 (alt [lit_i "a"; lit_i "an"; lit_i "the"]);
         plus ws; lit_i "text"; Eol];
    seq [Bol; Group 1 (alt [lit_i "a"; lit_i "an"; lit_i "the"]);
         plus ws; lit_i "chat"; Eol];
    seq [Bol; lit_i "message"; Eol];
    seq [Bol; lit_i "text"; Eol];
    seq [Bol; lit_i "chat"; Eol] ].

Definition isFillerPhrase (text : string) : bool :=
  let lowerText := Js.trim (Js.toLowerCase text) in
  existsb (fun pattern => test pattern lowerText) fillerPatterns.

(** The [fillerPhrases] of [extractMessageToSend]. *)
Definition article : re := alt [lit_i "a"; lit_i "the"; lit_i "an"].

Definition fillerPhrases : list re :=
  [ seq [Bol; lit_i "send"; plus ws; article; plus ws; lit_i "message";
         plus ws; lit_i "to"];
    seq [Bol; lit_i "text"; plus ws; article; plus ws; lit_i "message";
         plus ws; lit_i "to"];
    seq [Bol; lit_i "send"; plus ws; article; plus ws; lit_i "text";
         plus ws; lit_i "to"];
    seq [Bol; lit_i "message"; plus ws; article; plus ws; lit_i "message";
         plus ws; lit_i "to"] ].

(** [/^["']|["']$/g]: a quote at the start or at the end. *)
Definition edge_quotes : re := Or (Cat Bol quote) (Cat quote Eol).

(** [/\s+to\s+[a-z]+$/i] *)
Definition trailing_to_name : re :=
  seq [plus ws; lit_i "to"; plus ws; plus az_i; Eol].

Definition explicitPatterns : list re :=
  [ seq [alt [lit_i "saying"; lit_i "with"; lit_i "that says";
              lit_i "which says"; lit_i "message is"; lit_i "text is"];
         plus ws; Group 1 (lazy_plus dot);
         alt [seq [plus ws; lit_i "to"; plus ws];
              seq [plus ws; lit_i "from"; plus ws];
              Eol]];
    seq [alt [lit_i "send"; lit_i "text"]; plus ws;
         Group 1 (lazy_plus dot); plus ws;
         alt [lit_i "saying"; lit_i "with"; lit_i "that says"]] ].

(** [/(?:send|text)\s+(.+?)\s+to\s+([a-z]+(?:\s+[a-z]+)?)/i] *)
Definition sendToPattern : re :=
  seq [alt [lit_i "send"; lit_i "text"]; plus ws;
       Group 1 (lazy_plus dot); plus ws; lit_i "to"; plus ws;
       Group 2 name_shape].

(** [/(?:send|text)\s+to\s+([a-z]+(?:\s+[a-z]+)?)\s+(.+?)$/i] *)
Definition sendToContactPattern : re :=
  seq [alt [lit_i "send"; lit_i "text"]; plus ws; lit_i "to"; plus ws;
       Group 1 name_shape; plus ws; Group 2 (lazy_plus dot); Eol].

Definition skipWords : list string :=
  ["send"; "text"; "message"; "to"; "with"; "saying"; "that"; "a"; "an";
   "the"].

Definition endWords : list string :=
  ["to"; "from"; "contact"; "in"; "whatsapp"].

(** The index of the first element from index [i] on that satisfies [p]. *)
Fixpoint find_index {A : Type} (p : A -> bool) (i : nat) (l : list A)
  : option nat :=
  match l with
  | [] => None
  | x :: l' => if p x then Some i else find_index p (S i) l'
  end.

(** The loop over [fillerPhrases]: [Some r] when the loop returns [r]
    (always [undefined], here [None]), [None] when it runs to its end. *)
Definition filler_check (message lowerMessage : string)
  : option (option string) :=
  first_return
    (fun fillerPattern =>
       if test fillerPattern message then
         let contactMatch := extractContactName message in
         match contactMatch with
         | Some c =>
             if Js.truthy c then
               let afterContact :=
                 option_map Js.trim
                   (nth_error (Js.split lowerMessage (Js.toLowerCase c)) 1)
               in
               if negb (Js.truthy_opt afterContact)
                  || match afterContact with
                     | Some a => Nat.ltb (String.length a) 3
                     | None => false
                     end
               then Some None
               else None
             else Some None
         | None => Some None
         end
       else None)
    fillerPhrases.

Definition extractMessageToSend (message : string) : option string :=
  let lowerMessage := Js.toLowerCase message in
  match filler_check message lowerMessage with
  | Some r => r
  | None =>
  match
    first_return
      (fun pattern =>
         match exec pattern message with
         | Some m =>
             match group message m 1 with
             | Some g =>
                 if Js.truthy g then
                   let text := Js.trim g in
                   let text := remove_all edge_quotes text in
                   let text := remove_first trailing_to_name text in
                   if Nat.ltb 0 (String.length text)
                      && negb (isFillerPhrase text)
                   then Some text else None
                 else None
             | None => None
             end
         | None => None
         end)
      explicitPatterns
  with
  | Some text => Some text
  | None =>
  match
    match exec sendToPattern message with
    | Some m =>
        match group message m 1 with
        | Some g =>
            if Js.truthy g then
              let text := Js.trim g in
              let text := remove_all edge_quotes text in
              if negb (isFillerPhrase text)
                 && Nat.ltb 0 (String.length text)
              then Some text else None
            else None
        | None => None
        end
    | None => None
    end
  with
  | Some text => Some text
  | None =>
  match
    match exec sendToContactPattern message with
    | Some m =>
        match group message m 2 with
        | Some g =>
            if Js.truthy g then
              let text := Js.trim g in
              let text := remove_all edge_quotes text in
              if negb (isFillerPhrase text)
                 && Nat.ltb 0 (String.length text)
              then Some text else None
            else None
        | None => None
        end
    | None => None
    end
  with
  | Some text => Some text
  | None =>
      let afterSend := Js.indexOf lowerMessage "send" in
      let afterText := Js.indexOf lowerMessage "text" in
      let indices :=
        filter (fun i => negb (Z.eqb i (-1))) [afterSend; afterText] in
      match indices with
      | [] => None
      | i0 :: rest =>
          let startIndex := fold_left Z.min rest i0 in
          let after := Js.trim (Js.substring_from message startIndex) in
          let words := split spaces after in
          match
            find_index
              (fun w =>
                 let word := Js.toLowerCase w in
                 negb (Js.arr_includes skipWords word)
                 && Nat.ltb 1 (String.length word))
              0 words
          with
          | None => None
          | Some messageStart =>
              let messageEnd :=
                match
                  find_index
                    (fun w => Js.arr_includes endWords (Js.toLowerCase w))
                    messageStart (skipn messageStart words)
                with
                | Some i => i
                | None => List.length words
                end in
              let messageWords :=
                Js.arr_slice words messageStart messageEnd in
              if Nat.ltb 0 (List.length messageWords) then
                let extracted := Js.join " " messageWords in
                if negb (isFillerPhrase extracted) then Some extracted
                else None
              else None
          end
      end
  end end end end.

Definition replyPatterns : list re :=
  [ seq [alt [lit_i "reply"; lit_i "respond"]; plus ws;
         alt [lit_i "with"; lit_i "saying"]; plus ws;
         Group 1 (lazy_plus dot); Eol];
    seq [alt [lit_i "reply"; lit_i "respond"]; plus ws;
         Group 1 (lazy_plus dot); Eol] ].

Definition extractReplyMessage (message : string) : option string :=
  first_return
    (fun pattern =>
       match exec pattern message with
       | Some m =>
           match group message m 1 with
           | Some g =>
               if Js.truthy g then
                 let text := Js.trim g in
                 let text := remove_first trailing_to_name text in
                 let text := remove_all edge_quotes text in
                 if Nat.ltb 0 (String.length text) then Some text
                 else None
               else None
           | None => None
           end
       | None => None
       end)
    replyPatterns.

(** The trigger tests of [parseWhatsAppCommand], in cascade order. *)
Definition check_trigger (lowerMessage : string) : bool :=
  Js.includes lowerMessage "new message"
  || Js.includes lowerMessage "any message"
  || Js.includes lowerMessage "check message"
  || Js.includes lowerMessage "unread"
  || Js.includes lowerMessage "new text"
  || Js.includes lowerMessage "read message"
  || (Js.includes lowerMessage "read" && Js.includes lowerMessage "whatsapp").

Definition send_trigger (lowerMessage : string) : bool :=
  Js.includes lowerMessage "send"
  || (Js.includes lowerMessage "text"
      && negb (Js.includes lowerMessage "read"))
  || Js.includes lowerMessage "message to"
  || (Js.includes lowerMessage "send" && Js.includes lowerMessage "to").

Definition reply_trigger (lowerMessage : string) : bool :=
  Js.includes lowerMessage "reply"
  || Js.includes lowerMessage "respond"
  || (Js.includes lowerMessage "reply" && Js.includes lowerMessage "with").

Definition read_trigger (lowerMessage : string) : bool :=
  (Js.includes lowerMessage "read" && negb (Js.includes lowerMessage "new"))
  || Js.includes lowerMessage "show message"
  || Js.includes lowerMessage "get message"
  || Js.includes lowerMessage "messages from".

Definition parseWhatsAppCommand (lowerMessage originalMessage : string)
  : ParsedCommand :=
  let command := mkCommand whatsapp unknown None None None None in
  if check_trigger lowerMessage then
    let command := set_action check command in
    let command := set_filters (mkFilters (Some true) None None) command in
    match extractContactName originalMessage with
    | Some contactMatch =>
        if Js.truthy contactMatch then
          set_target contactMatch
            (set_filters (mkFilters (Some true) (Some contactMatch) None)
               command)
        else command
    | None => command
    end
  else if send_trigger lowerMessage then
    let command := set_action send command in
    let command :=
      match extractContactName originalMessage with
      | Some contactMatch =>
          if Js.truthy contactMatch then set_target contactMatch command
          else command
      | None => command
      end in
    match extractMessageToSend originalMessage with
    | Some messageMatch =>
        if Js.truthy messageMatch then set_message messageMatch command
        else command
    | None => command
    end
  else if reply_trigger lowerMessage then
    let command := set_action reply command in
    let command :=
      match extractContactName originalMessage with
      | Some contactMatch =>
          if Js.truthy contactMatch then set_target contactMatch command
          else command
      | None => command
      end in
    match extractReplyMessage originalMessage with
    | Some replyMatch =>
        if Js.truthy replyMatch then set_message replyMatch command
        else command
    | None => command
    end
  else if read_trigger lowerMessage then
    match extractContactName originalMessage with
    | Some contactMatch =>
        if Js.truthy contactMatch then
          set_filters (mkFilters None (Some contactMatch) None)
            (set_target contactMatch (set_action read command))
        else command
    | None => command
    end
  else command.

Definition parseEmailCommand (lowerMessage originalMessage : string)
  : ParsedCommand :=
  mkCommand email unknown None None None None.

Definition parseCalendarCommand (lowerMessage originalMessage : string)
  : ParsedCommand :=
  mkCommand calendar unknown None None None None.

(** [parseCommand]; [None] is [null], not a command. *)
Definition parseCommand (userMessage : string) : option ParsedCommand :=
  let lowerMessage := Js.trim (Js.toLowerCase userMessage) in
  if Js.includes lowerMessage "whatsapp"
     || Js.includes lowerMessage "message"
     || Js.includes lowerMessage "text"
     || Js.includes lowerMessage "chat"
  then Some (parseWhatsAppCommand lowerMessage userMessage)
  else if Js.includes lowerMessage "email"
          || Js.includes lowerMessage "mail"
  then Some (parseEmailCommand lowerMessage userMessage)
  else if Js.includes lowerMessage "calendar"
          || Js.includes lowerMessage "event"
          || Js.includes lowerMessage "meeting"
  then Some (parseCalendarCommand lowerMessage userMessage)
  else None.

End CommandParser.

(* ================================================================== *)
(** * Exceptions, client calls and mutable state                        *)
(* ================================================================== *)

Module Eff.

(** A thrown value, seen through its [.message]; [None] when the thrown
    value has no message. *)
Definition JsError : Type := option string.

(** [error.message?.includes(p)] *)
Definition message_includes (e : JsError) (p : string) : bool :=
  match e with
  | Some m => Js.includes m p
  | None => false
  end.

Inductive Outcome (A : Type) : Type :=
| Ok (a : A)
| Throw (e : JsError).
Arguments Ok {A} a.
Arguments Throw {A} e.

(** What a method does to the world outside the service object: the
    calls on the underlying client and the timers it starts. *)
Inductive Effect : Type :=
| GetChats
| FetchMessages (chatId : string) (limit : Z)
| GetContacts
| GetChatById (id : string)
| SendMessage (chatId body : string)
| Reply (messageId text : string)
| Initialize
| Destroy
| NewClient
| Sleep (ms : Z)
| SetTimeout (ms : Z).

(** A computation over a mutable state [St] that may throw and that
    leaves a trace of effects.  A throw keeps the state and the trace
    reached so far. *)
Definition M (St A : Type) : Type := St -> Outcome A * St * list Effect.

Definition ret {St A} (a : A) : M St A := fun s => (Ok a, s, []).

Definition throw {St A} (e : JsError) : M St A := fun s => (Throw e, s, []).

Definition bind {St A B} (m : M St A) (k : A -> M St B) : M St B :=
  fun s =>
    match m s with
    | (Ok a, s1, t1) =>
        match k a s1 with
        | (r, s2, t2) => (r, s2, (t1 ++ t2)%list)
        end
    | (Throw e, s1, t1) => (Throw e, s1, t1)
    end.

(** [try { m } catch (e) { h e }] *)
Definition try_catch {St A} (m : M St A) (h : JsError -> M St A) : M St A :=
  fun s =>
    match m s with
    | (Ok a, s1, t1) => (Ok a, s1, t1)
    | (Throw e, s1, t1) =>
        match h e s1 with
        | (r, s2, t2) => (r, s2, (t1 ++ t2)%list)
        end
    end.

Definition get {St} : M St St := fun s => (Ok s, s, []).
Definition put {St} (s' : St) : M St unit := fun _ => (Ok tt, s', []).
Definition modify {St} (f : St -> St) : M St unit := fun s => (Ok tt, f s, []).

(** An awaited call on the client: the call is traced, and its answer
    is the outcome [r]. *)
Definition call {St A} (e : Effect) (r : Outcome A) : M St A :=
  fun s => (r, s, [e]).

(** Reading a property that may throw. *)
Definition access {St A} (r : Outcome A) : M St A := fun s => (r, s, []).

(** A block with a local mutable variable of type [L]: the body runs on
    the pair of the outer state and the local. *)
Definition with_local {St L A} (l0 : L) (m : M (St * L) A) : M St (A * L) :=
  fun s =>
    match m (s, l0) with
    | (Ok a, (s1, l1), t) => (Ok (a, l1), s1, t)
    | (Throw e, (s1, _), t) => (Throw e, s1, t)
    end.

Definition lift {St L A} (m : M St A) : M (St * L) A :=
  fun sl =>
    match m (fst sl) with
    | (r, s1, t) => (r, (s1, snd sl), t)
    end.

Definition get_local {St L} : M (St * L) L := fun sl => (Ok (snd sl), sl, []).
Definition set_local {St L} (l : L) : M (St * L) unit :=
  fun sl => (Ok tt, (fst sl, l), []).

(** [for (const x of l) { body x }]; a [continue] is the body's end. *)
Fixpoint for_each {St A} (l : list A) (body : A -> M St unit) : M St unit :=
  match l with
  | [] => ret tt
  | x :: l' => bind (body x) (fun _ => for_each l' body)
  end.

(** A [for] loop whose body may [return v]: the body yields [Some v]
    then, and [None] to go on. *)
Fixpoint for_each_return {St A B} (l : list A) (body : A -> M St (option B))
  : M St (option B) :=
  match l with
  | [] => ret None
  | x :: l' =>
      bind (body x)
        (fun r => match r with
                  | Some v => ret (Some v)
                  | None => for_each_return l' body
                  end)
  end.

End Eff.

Declare Scope eff_scope.
Delimit Scope eff_scope with eff.
Notation "x <- m ;; k" := (Eff.bind m (fun x => k))
  (at level 61, m at next level, right associativity) : eff_scope.
Notation "m ;;; k" := (Eff.bind m (fun _ => k))
  (at level 61, right associativity) : eff_scope.

(* ================================================================== *)
(** * src/lib/whatsapp-service.ts                                       *)
(* ================================================================== *)

Module WhatsAppService.
Import Eff.
Local Open Scope eff_scope.

(** ** The underlying client (whatsapp-web.js), as the service sees it *)

(** What a probed property of the client may hold. *)
Inductive JsVal : Type := VUndefined | VNull | VFalsy | VObject.

Definition js_truthy (v : JsVal) : bool :=
  match v with VObject => true | _ => false end.

(** [v !== null && v !== undefined] *)
Definition js_defined (v : JsVal) : bool :=
  match v with VUndefined | VNull => false | _ => true end.

(** A message of the client.  [msg_id] is [message.id.id]; it is [None]
    when [message.id] is undefined, and reading [message.id.id] then
    throws.  [msg_timestamp] is [message.timestamp], a number of seconds;
    a message that has none gives an Invalid Date, as a number beyond the
    range of [Date] does, and stands here as such a number. *)
Record Message : Type := mkMessage
  { msg_id : option string;
    msg_body : string;
    msg_timestamp : Z;                 (* seconds *)
    msg_from : option string;
    msg_notifyName : option string;
    msg_fromName : option string;
    msg_reply : string -> Outcome unit }.

Record Chat : Type := mkChat
  { chat_name : option string;
    chat_id_serialized : string;
    chat_id_user : option string;
    chat_unreadCount : Z;
    chat_isGroup : bool;
    chat_fetchMessages : Z -> Outcome (list Message) }.

Record Contact : Type := mkContact
  { contact_pushname : option string;
    contact_number : string;
    contact_id_serialized : string }.

Record Client : Type := mkClient
  { pupPage : Outcome JsVal;
    info : Outcome JsVal;
    client_initialize : Outcome unit;
    client_destroy : Outcome unit;
    getChats : Outcome (list Chat);
    getContacts : Outcome (list Contact);
    getChatById : string -> Outcome Chat;
    client_sendMessage : string -> string -> Outcome unit }.

(** ** The service object *)

(** [interface WhatsAppMessage]; [timestamp] is the [Date], kept as the
    number of milliseconds it is built from: the date [new Date(n)] is
    a valid one when [n] is in the range of [Date] ([valid_date] below),
    and an Invalid Date otherwise. *)
Record WhatsAppMessage : Type := mkWhatsAppMessage
  { id : string;
    from : string;
    body : string;
    timestamp : Z;
    isGroup : bool;
    contactName : option string }.

(** The fields of [class WhatsAppService]. *)
Record Service : Type := mkService
  { client : option Client;
    isReady : bool;
    isAuthenticated : bool;
    qrCode : option string }.

Definition set_client (c : option Client) (s : Service) : Service :=
  mkService c (isReady s) (isAuthenticated s) (qrCode s).
Definition set_isReady (b : bool) (s : Service) : Service :=
  mkService (client s) b (isAuthenticated s) (qrCode s).
Definition set_isAuthenticated (b : bool) (s : Service) : Service :=
  mkService (client s) (isReady s) b (qrCode s).
Definition set_qrCode (q : option string) (s : Service) : Service :=
  mkService (client s) (isReady s) (isAuthenticated s) q.

(** ** [setupEventHandlers] *)

Inductive Event : Type :=
| EvQr (qr : string)
| EvReady
| EvAuthenticated
| EvAuthFailure (msg : string)
| EvDisconnected (reason : string)
| EvMessage (body : string).

(** The handler registered for each event.  The reconnect of the
    [disconnected] handler is a timer; it is traced, not run. *)
Definition on_event (e : Event) : M Service unit :=
  match e with
  | EvQr qr => modify (set_qrCode (Some qr))
  | EvReady =>
      modify (set_isReady true) ;;;
      modify (set_isAuthenticated true) ;;;
      modify (set_qrCode None)
  | EvAuthenticated => modify (set_isAuthenticated true)
  | EvAuthFailure _ =>
      modify (set_isReady false) ;;;
      modify (set_isAuthenticated false)
  | EvDisconnected reason =>
      modify (set_isReady false) ;;;
      modify (set_isAuthenticated false) ;;;
      modify (set_qrCode None) ;;;
      if String.eqb reason "LOGOUT" then ret tt
      else call (SetTimeout 3000) (Ok tt)
  | EvMessage _ => ret tt
  end.

(** The events of a list, delivered in order. *)
Definition deliver (es : list Event) : M Service unit :=
  for_each es on_event.

(** ** [isClientInitialized], [isConnected], [getQRCode] *)

Definition isClientInitialized : M Service bool :=
  s <- get ;;
  match client s with
  | None => ret false
  | Some c =>
      try_catch
        (p <- access (pupPage c) ;;
         clientState <- (if js_truthy p then ret p else access (info c)) ;;
         ret (js_defined clientState))
        (fun _ => ret false)
  end.

Definition isConnected : M Service bool :=
  s <- get ;;
  match client s with
  | None => ret false
  | Some c =>
      if isReady s then ret true
      else if isAuthenticated s then
        try_catch
          (clientInfo <- access (info c) ;;
           if js_defined clientInfo then ret true
           else ret true)
          (fun _ => s' <- get ;; ret (isAuthenticated s'))
      else
        r <- try_catch
               (initialized <- isClientInitialized ;;
                if initialized then
                  clientInfo <- access (info c) ;;
                  if js_truthy clientInfo then
                    modify (set_isAuthenticated true) ;;;
                    ret (Some true)
                  else ret None
                else ret None)
               (fun _ => ret None) ;;
        match r with
        | Some b => ret b
        | None => ret false
        end
  end.

Definition getQRCode : M Service (option string) :=
  s <- get ;; ret (qrCode s).

(** ** [initialize] *)

(** The return type [{ qrCode?: string; ready: boolean }]. *)
Record InitResult : Type := mkInitResult
  { r_qrCode : option string;
    r_ready : bool }.

(** [q || undefined] *)
Definition or_undefined (q : option string) : option string :=
  if Js.truthy_opt q then q else None.

Section Initialize.

(** While [initialize] waits at an [await], event handlers and other
    requests run.  [during t] is what they do to the service during
    the [t]-th wait of this call; it is arbitrary. *)
Variable during : nat -> Service -> Service.

(** The client that [new Client(...)] builds when the service
    recreates its client. *)
Variable newClient : Client.

(** [await e], the [t]-th wait of the call, answered by [r]. *)
Definition awaited {A} (t : nat) (e : Effect) (r : Outcome A)
  : M Service A :=
  fun s => (r, during t s, [e]).

(** The polling loop: [n] iterations are left, the next wait is the
    [t]-th.  [Some r] when the loop returns [r], [None] when the
    iterations are used up. *)
Fixpoint poll (n : nat) (t : nat) : M Service (option InitResult) :=
  match n with
  | O => ret None
  | S n' =>
      awaited t (Sleep 1000) (Ok tt) ;;;
      s <- get ;;
      if isReady s then ret (Some (mkInitResult None true))
      else if Js.truthy_opt (qrCode s)
      then ret (Some (mkInitResult (qrCode s) false))
      else poll n' (S t)
  end.

Definition last_known : M Service InitResult :=
  s <- get ;;
  ret (mkInitResult (or_undefined (qrCode s)) (isReady s)).

Definition recreate : M Service InitResult :=
  try_catch
    (s <- get ;;
     match client s with
     | Some c =>
         try_catch (awaited 1 Destroy (client_destroy c))
                   (fun _ => ret tt)
     | None => ret tt
     end ;;;
     call NewClient (Ok tt) ;;;
     modify (set_client (Some newClient)) ;;;
     awaited 2 Initialize (client_initialize newClient) ;;;
     p <- poll 10 3 ;;
     match p with
     | Some r => ret r
     | None => last_known
     end)
    (fun recreateError => throw recreateError).

Definition initialize : M Service InitResult :=
  s <- get ;;
  match client s with
  | None => throw (Some "WhatsApp client not initialized")
  | Some c =>
      if isReady s then ret (mkInitResult None true)
      else
        try_catch
          (alreadyInitialized <- isClientInitialized ;;
           early <-
             (if negb alreadyInitialized then
                awaited 0 Initialize (client_initialize c) ;;;
                ret None
              else
                s1 <- get ;;
                if isReady s1 then ret (Some (mkInitResult None true))
                else if Js.truthy_opt (qrCode s1)
                then ret (Some (mkInitResult (qrCode s1) false))
                else ret None) ;;
           match early with
           | Some r => ret r
           | None =>
               (if negb alreadyInitialized
                then modify (set_qrCode None) else ret tt) ;;;
               p <- poll 20 1 ;;
               match p with
               | Some r => ret r
               | None => last_known
               end
           end)
          (fun error =>
             if message_includes error "destroyed"
                || message_includes error "Session"
                || message_includes error "Target closed"
             then recreate
             else throw error)
  end.

End Initialize.

(** ** The message operations *)

Definition not_connected_error : JsError :=
  Some "WhatsApp not connected. Please scan QR code first.".

Definition dq : string := String (ascii_of_nat 34) EmptyString.

(** [a || b] on strings, [a] possibly undefined. *)
Definition or_else (a : option string) (b : string) : string :=
  match a with
  | Some x => if Js.truthy x then x else b
  | None => b
  end.

(** [l.slice(0, e)]: a negative [e] counts from the end. *)
Definition slice0 {A : Type} (l : list A) (e : Z) : list A :=
  let len := Z.of_nat (List.length l) in
  let k := if (e <? 0)%Z then Z.max 0 (len + e) else Z.min e len in
  firstn (Z.to_nat k) l.

(** [Array.prototype.sort] with a comparator: a stable sort, [a]
    staying before [b] unless [cmp a b > 0].  On a comparator that
    orders the elements every stable sort returns this list.  On one
    that does not (see [newest_first] on an Invalid Date) the order is
    the engine's own; the insertion below is then one possible order,
    and the statements on order are made for valid dates only. *)
Fixpoint insert_by {A : Type} (cmp : A -> A -> Z) (x : A) (l : list A)
  : list A :=
  match l with
  | [] => [x]
  | y :: l' =>
      if (cmp x y <=? 0)%Z then x :: y :: l'
      else y :: insert_by cmp x l'
  end.

Definition sort_by {A : Type} (cmp : A -> A -> Z) (l : list A) : list A :=
  fold_right (insert_by cmp) [] l.

(** [new Date(n)] is a valid date when [n] lies within 8.64e15
    milliseconds of the epoch; otherwise it is an Invalid Date, and its
    [getTime()] is NaN. *)
Definition valid_date (n : Z) : bool :=
  (Z.abs n <=? 8640000000000000)%Z.

(** [(a, b) => b.timestamp.getTime() - a.timestamp.getTime()], as the
    sort reads it: with an Invalid Date on either side the difference is
    NaN, which the sort takes for [+0]. *)
Definition newest_first (a b : WhatsAppMessage) : Z :=
  if valid_date (timestamp a) && valid_date (timestamp b)
  then (timestamp b - timestamp a)%Z
  else 0%Z.

(** [message.id.id] *)
Definition read_id (m : Message) : Outcome string :=
  match msg_id m with
  | Some i => Ok i
  | None =>
      Throw (Some "Cannot read properties of undefined (reading 'id')")
  end.

(** [arr.push(x)] on the local array of a block. *)
Definition push {A : Type} (x : A) : M (Service * list A) unit :=
  l <- get_local ;; set_local (l ++ [x])%list.

(** The flags reset of the outer [catch] blocks. *)
Definition reset_on_connection_error (error : JsError) : M Service unit :=
  if message_includes error "not connected"
     || message_includes error "Session"
  then modify (set_isReady false) ;;; modify (set_isAuthenticated false)
  else ret tt.

Definition displayName_of (chat : Chat) : string :=
  or_else (chat_name chat) (or_else (chat_id_user chat) "Unknown").

(** The object [getRecentMessages] pushes for the last message of a
    chat; [i] is the value of [lastMessage.id.id]. *)
Definition recent_entry (chat : Chat) (lastMessage : Message) (i : string)
  : WhatsAppMessage :=
  let displayName := displayName_of chat in
  mkWhatsAppMessage
    i
    (or_else (Some displayName) "Unknown")
    (msg_body lastMessage)
    (msg_timestamp lastMessage * 1000)
    (chat_isGroup chat)
    (if negb (String.eqb displayName "Unknown")
     then Some displayName else None).

(** The test that makes the loop of [getRecentMessages] skip a chat. *)
Definition other_contact (contactName : option string) (chat : Chat)
  : bool :=
  let displayName := displayName_of chat in
  Js.truthy_opt contactName
  && Js.truthy (Js.toLowerCase displayName)
  && negb (Js.includes (Js.toLowerCase displayName)
             (Js.toLowerCase (or_else contactName EmptyString))).

(** The body of the loop of [getRecentMessages]. *)
Definition recent_chat_body (contactName : option string) (chat : Chat)
  : M (Service * list WhatsAppMessage) unit :=
  if other_contact contactName chat then ret tt
  else
    chatMessages <-
      lift (call (FetchMessages (chat_id_serialized chat) 1)
                 (chat_fetchMessages chat 1)) ;;
    match chatMessages with
    | lastMessage :: _ =>
        i <- access (read_id lastMessage) ;;
        push (recent_entry chat lastMessage i)
    | [] => ret tt
    end.

Definition getRecentMessages (contactName : option string) (limit : Z)
  : M Service (list WhatsAppMessage) :=
  s <- get ;;
  match client s with
  | None => throw not_connected_error
  | Some c =>
      if negb (isReady s) then throw not_connected_error
      else
        try_catch
          (chats <- call GetChats (getChats c) ;;
           r <- with_local []
                  (for_each (slice0 chats limit)
                     (recent_chat_body contactName)) ;;
           let messages := sort_by newest_first (snd r) in
           ret (slice0 messages limit))
          (fun error => reset_on_connection_error error ;;; throw error)
  end.

(** The object [getUnreadMessages] pushes for a message of a chat;
    [i] is the value of [message.id.id]. *)
Definition unread_entry (chat : Chat) (message : Message) (i : string)
  : WhatsAppMessage :=
  let chatName := chat_name chat in
  let messageFrom := or_else (msg_from message) EmptyString in
  let messageNotifyName := or_else (msg_notifyName message) EmptyString in
  let messageFromName := or_else (msg_fromName message) EmptyString in
  let senderName :=
    or_else (Some messageNotifyName)
      (or_else (Some messageFromName)
         (or_else chatName (or_else (Some messageFrom) "Unknown"))) in
  mkWhatsAppMessage
    i
    senderName
    (msg_body message)
    (msg_timestamp message * 1000)
    (chat_isGroup chat)
    (if negb (String.eqb senderName "Unknown")
        && negb (String.eqb senderName messageFrom)
     then Some senderName else None).

(** The body of the inner loop of [getUnreadMessages]. *)
Definition unread_message_body (chat : Chat) (message : Message)
  : M (Service * list WhatsAppMessage) unit :=
  i <- access (read_id message) ;;
  push (unread_entry chat message i).

(** The body of the outer loop of [getUnreadMessages]. *)
Definition unread_chat_body (chat : Chat)
  : M (Service * list WhatsAppMessage) unit :=
  if (0 <? chat_unreadCount chat)%Z then
    try_catch
      (fetched <-
         try_catch
           (ms <- lift (call (FetchMessages (chat_id_serialized chat)
                                (chat_unreadCount chat))
                          (chat_fetchMessages chat
                             (chat_unreadCount chat))) ;;
            ret (Some ms))
           (fun fetchError =>
              if message_includes fetchError "getIsMyContact"
                 || message_includes fetchError "ContactMethods"
              then ret None
              else throw fetchError) ;;
       match fetched with
       | None => ret tt
       | Some chatMessages =>
           for_each (slice0 chatMessages (chat_unreadCount chat))
             (unread_message_body chat)
       end)
      (fun chatError => ret tt)
  else ret tt.

Definition getUnreadMessages : M Service (list WhatsAppMessage) :=
  s <- get ;;
  match client s with
  | None => throw not_connected_error
  | Some c =>
      connected <- isConnected ;;
      if negb connected then throw not_connected_error
      else
        try_catch
          (chats <- call GetChats (getChats c) ;;
           r <- with_local [] (for_each chats unread_chat_body) ;;
           let unreadMessages := sort_by newest_first (snd r) in
           ret unreadMessages)
          (fun error => reset_on_connection_error error ;;; throw error)
  end.

(** The chat lookup that [sendMessage] and [getMessagesFromContact]
    both spell out: by chat name first, through the contacts next. *)
Definition find_target_chat (c : Client) (contactName : string)
  : M Service Chat :=
  chats <- call GetChats (getChats c) ;;
  let lowerContactName := Js.toLowerCase contactName in
  byName <-
    match
      find (fun chat =>
              match chat_name chat with
              | Some n => Js.includes (Js.toLowerCase n) lowerContactName
              | None => false
              end) chats
    with
    | Some chat => ret (Some chat)
    | None =>
        try_catch
          (contacts <- call GetContacts (getContacts c) ;;
           match
             find (fun k =>
                     match contact_pushname k with
                     | Some p =>
                         Js.includes (Js.toLowerCase p) lowerContactName
                     | None => false
                     end
                     || Js.includes (contact_number k) contactName)
                  contacts
           with
           | Some k =>
               chat <- call (GetChatById (contact_id_serialized k))
                            (getChatById c (contact_id_serialized k)) ;;
               ret (Some chat)
           | None => ret None
           end)
          (fun contactError => ret None)
    end ;;
  match byName with
  | Some chat => ret chat
  | None =>
      throw (Some ("Contact " ++ dq ++ contactName ++ dq ++ " not found"))
  end.

Definition sendMessage (contactName message : string) : M Service bool :=
  s <- get ;;
  match client s with
  | None => throw not_connected_error
  | Some c =>
      connected <- isConnected ;;
      if negb connected then throw not_connected_error
      else
        try_catch
          (targetChat <- find_target_chat c contactName ;;
           let chatId := chat_id_serialized targetChat in
           call (SendMessage chatId message)
                (client_sendMessage c chatId message) ;;;
           ret true)
          (fun error => throw error)
  end.

(** [messages.find((m) => m.id.id === messageId)] *)
Fixpoint find_by_id (messageId : string) (l : list Message)
  : Outcome (option Message) :=
  match l with
  | [] => Ok None
  | m :: l' =>
      match read_id m with
      | Ok i => if String.eqb i messageId then Ok (Some m)
                else find_by_id messageId l'
      | Throw e => Throw e
      end
  end.

Definition replyToMessage (messageId replyText : string) : M Service bool :=
  s <- get ;;
  match client s with
  | None => throw not_connected_error
  | Some c =>
      connected <- isConnected ;;
      if negb connected then throw not_connected_error
      else
        try_catch
          (chats <- call GetChats (getChats c) ;;
           r <- for_each_return chats
                  (fun chat =>
                     messages <-
                       call (FetchMessages (chat_id_serialized chat) 50)
                            (chat_fetchMessages chat 50) ;;
                     found <- access (find_by_id messageId messages) ;;
                     match found with
                     | Some message =>
                         call (Reply messageId replyText)
                              (msg_reply message replyText) ;;;
                         ret (Some true)
                     | None => ret None
                     end) ;;
           match r with
           | Some b => ret b
           | None =>
               throw (Some ("Message with ID " ++ dq ++ messageId ++ dq
                            ++ " not found"))
           end)
          (fun error => throw error)
  end.

(** The object [getMessagesFromContact] builds for a message; [i] is
    the value of [msg.id.id]. *)
Definition contact_entry (chatName : string) (group : bool) (msg : Message)
                         (i : string) : WhatsAppMessage :=
  mkWhatsAppMessage
    i chatName (msg_body msg) (msg_timestamp msg * 1000) group
    (if negb (String.eqb chatName "Unknown") then Some chatName else None).

(** [messages.map((msg) => ({ id: msg.id.id, ... }))] *)
Fixpoint map_messages (chatName : string) (group : bool) (l : list Message)
  : Outcome (list WhatsAppMessage) :=
  match l with
  | [] => Ok []
  | msg :: l' =>
      match read_id msg with
      | Throw e => Throw e
      | Ok i =>
          match map_messages chatName group l' with
          | Throw e => Throw e
          | Ok rest => Ok (contact_entry chatName group msg i :: rest)
          end
      end
  end.

Definition getMessagesFromContact (contactName : string) (limit : Z)
  : M Service (list WhatsAppMessage) :=
  s <- get ;;
  match client s with
  | None => throw not_connected_error
  | Some c =>
      connected <- isConnected ;;
      if negb connected then throw not_connected_error
      else
        try_catch
          (targetChat <- find_target_chat c contactName ;;
           messages <-
             call (FetchMessages (chat_id_serialized targetChat) limit)
                  (chat_fetchMessages targetChat limit) ;;
           let chatName := or_else (chat_name targetChat) contactName in
           access (map_messages chatName (chat_isGroup targetChat) messages))
          (fun error => throw error)
  end.

End WhatsAppService.

(* ================================================================== *)
(** * src/app/api/chat/route.ts: the command executor                   *)
(* ================================================================== *)

Module ChatRoute.
Import Eff CommandParser WhatsAppService.
Local Open Scope eff_scope.

Definition nl : string := String (ascii_of_nat 10) EmptyString.

(** An integer inside a template string. *)
Definition show (z : Z) : string := NilZero.string_of_int (Z.to_int z).

Definition plural (b : bool) : string := if b then "s" else EmptyString.

(** [getTimeAgo(date)], with [now] the value of [new Date()]. *)
Definition getTimeAgo (now date : Z) : string :=
  let diffMs := (now - date)%Z in
  let diffMins := (diffMs / 60000)%Z in
  let diffHours := (diffMs / 3600000)%Z in
  let diffDays := (diffMs / 86400000)%Z in
  if (diffMins <? 1)%Z then "just now"
  else if (diffMins <? 60)%Z
  then show diffMins ++ " minute" ++ plural (1 <? diffMins)%Z ++ " ago"
  else if (diffHours <? 24)%Z
  then show diffHours ++ " hour" ++ plural (1 <? diffHours)%Z ++ " ago"
  else show diffDays ++ " day" ++ plural (1 <? diffDays)%Z ++ " ago".

Definition is_action (a b : CommandAction) : bool :=
  match a, b with
  | check, check | send, send | reply, reply | read, read
  | unknown, unknown => true
  | _, _ => false
  end.

Definition service_unavailable : string :=
  "WhatsApp service is not available. Please connect WhatsApp first.".

Definition connect_first : string :=
  "WhatsApp is not connected. Please connect WhatsApp first by saying "
  ++ dq ++ "connect WhatsApp" ++ dq
  ++ " or scanning the QR code in settings.".

(** The prompt that asks for the content of a message to [target]. *)
Definition clarification (target : string) : string :=
  "What would you like to send to " ++ target
  ++ "? Please tell me the message content. For example: "
  ++ dq ++ "send hello to " ++ target ++ dq ++ " or "
  ++ dq ++ "send to " ++ target ++ " saying hello there" ++ dq ++ ".".

Definition not_sure : string :=
  "I'm not sure what you want me to do with WhatsApp. Try asking to check messages, send a message, or reply to someone.".

Definition trouble_reading : string :=
  "I'm having trouble reading some messages due to a WhatsApp Web update. Some chats may not be accessible, but I can still help with sending and replying to messages. Please try asking about specific contacts or use send/reply commands.".

(** [command.filters?.unread] *)
Definition filters_unread (command : ParsedCommand) : bool :=
  match filters command with
  | Some f => match unread f with Some b => b | None => false end
  | None => false
  end.

(** [command.filters?.contact] *)
Definition filters_contact (command : ParsedCommand) : option string :=
  match filters command with
  | Some f => contact f
  | None => None
  end.

(** [command.filters?.limit || 10] *)
Definition filters_limit (command : ParsedCommand) : Z :=
  match filters command with
  | Some f =>
      match limit f with
      | Some l => if (l =? 0)%Z then 10%Z else l
      | None => 10%Z
      end
  | None => 10%Z
  end.

Definition format_check (now : Z) (messages : list WhatsAppMessage)
  : string :=
  let n := Z.of_nat (List.length messages) in
  let response :=
    "You have " ++ show n ++ " new message" ++ plural (1 <? n)%Z
    ++ ":" ++ nl ++ nl in
  let response :=
    fold_left
      (fun response msg =>
         response ++ "From " ++ from msg ++ ": " ++ dq ++ body msg ++ dq
         ++ " (" ++ getTimeAgo now (timestamp msg) ++ ")" ++ nl)
      (slice0 messages 5) response in
  if (5 <? n)%Z
  then response ++ nl ++ "And " ++ show (n - 5) ++ " more message"
       ++ plural (1 <? n - 5)%Z ++ "."
  else response.

Definition format_read (now : Z) (target : string)
                       (messages : list WhatsAppMessage) : string :=
  fold_left
    (fun response msg =>
       response ++ dq ++ body msg ++ dq
       ++ " (" ++ getTimeAgo now (timestamp msg) ++ ")" ++ nl)
    messages ("Messages from " ++ target ++ ":" ++ nl ++ nl).

(** [handleWhatsAppCommand].  [getWhatsAppService] is the outcome of
    the call of that name, and the service it returns is the state. *)
Definition handleWhatsAppCommand
    (getWhatsAppService : Outcome unit) (now : Z)
    (command : ParsedCommand) (originalMessage : string)
  : M Service string :=
  match getWhatsAppService with
  | Throw _ => ret service_unavailable
  | Ok _ =>
      connected <- isConnected ;;
      if negb connected then ret connect_first
      else
        try_catch
          (if is_action (action command) check then
             try_catch
               (messages <-
                  (if filters_unread command then getUnreadMessages
                   else getRecentMessages (filters_contact command)
                          (filters_limit command)) ;;
                if Nat.eqb (List.length messages) 0
                then ret "You don't have any new messages right now."
                else ret (format_check now messages))
               (fun error =>
                  if message_includes error "getIsMyContact"
                     || message_includes error "ContactMethods"
                  then ret trouble_reading
                  else throw error)
           else if is_action (action command) send
                   && Js.truthy_opt (target command) then
             let target := or_else (target command) EmptyString in
             if negb (Js.truthy_opt (message command))
             then ret (clarification target)
             else
               let message := or_else (message command) EmptyString in
               sendMessage target message ;;;
               ret ("Message sent to " ++ target ++ ": "
                    ++ dq ++ message ++ dq)
           else if is_action (action command) reply
                   && Js.truthy_opt (message command) then
             let message := or_else (message command) EmptyString in
             if Js.truthy_opt (target command) then
               let target := or_else (target command) EmptyString in
               messages <- getMessagesFromContact target 1 ;;
               match messages with
               | first :: _ =>
                   replyToMessage (id first) message ;;;
                   ret ("Replied to " ++ target ++ ": "
                        ++ dq ++ message ++ dq)
               | [] =>
                   ret ("No recent messages from " ++ target
                        ++ " to reply to.")
               end
             else ret "Please specify who to reply to."
           else if is_action (action command) read
                   && Js.truthy_opt (target command) then
             let target := or_else (target command) EmptyString in
             messages <- getMessagesFromContact target 10 ;;
             if Nat.eqb (List.length messages) 0
             then ret ("No messages found from " ++ target ++ ".")
             else ret (format_read now target messages)
           else ret not_sure)
          (fun error =>
             match error with
             | Some m =>
                 if Js.includes m "not connected"
                 then ret ("WhatsApp is not connected. Please connect WhatsApp first by saying "
                           ++ dq ++ "connect WhatsApp" ++ dq
                           ++ " or scanning the QR code.")
                 else ret ("Sorry, I couldn't complete that WhatsApp action: "
                           ++ m)
             | None =>
                 throw (Some "Cannot read properties of undefined (reading 'includes')")
             end)
  end.

End ChatRoute.

(* ================================================================== *)
(** * src/lib/whatsapp-service.ts: reset, disconnect, auto-initialize   *)
(* ================================================================== *)

Module WhatsAppLifecycle.
Import Eff WhatsAppService.
Local Open Scope eff_scope.

(** [await this.client.destroy()] inside a [try] whose [catch] only
    logs, under [if (this.client)]. *)
Definition destroy_quietly : M Service unit :=
  s <- get ;;
  match client s with
  | Some c => try_catch (call Destroy (client_destroy c)) (fun _ => ret tt)
  | None => ret tt
  end.

(** [resetClient]; [newClient] is the client that [new Client(...)]
    builds. *)
Definition resetClient (newClient : Client) : M Service unit :=
  destroy_quietly ;;;
  modify (set_isReady false) ;;;
  modify (set_isAuthenticated false) ;;;
  modify (set_qrCode None) ;;;
  call NewClient (Ok tt) ;;;
  modify (set_client (Some newClient)).

(** [disconnect] *)
Definition disconnect : M Service unit :=
  s <- get ;;
  match client s with
  | Some c =>
      try_catch (call Destroy (client_destroy c)) (fun _ => ret tt) ;;;
      modify (set_client None) ;;;
      modify (set_isReady false) ;;;
      modify (set_isAuthenticated false) ;;;
      modify (set_qrCode None)
  | None => ret tt
  end.

(** [autoInitialize] starts a timer of two seconds. *)
Definition autoInitialize : M Service unit := call (SetTimeout 2000) (Ok tt).

(** What the timer of [autoInitialize] runs when it fires. *)
Definition autoInitialize_timer (during : nat -> Service -> Service)
           (newClient : Client) : M Service unit :=
  s <- get ;;
  match client s with
  | Some _ =>
      if negb (isReady s) then
        initialized <- isClientInitialized ;;
        if negb initialized then
          try_catch (initialize during newClient ;;; ret tt)
                    (fun _ => ret tt)
        else ret tt
      else ret tt
  | None => ret tt
  end.

End WhatsAppLifecycle.

(* ================================================================== *)
(** * src/app/api/chat/route.ts: emotions, fallback replies, POST       *)
(* ================================================================== *)

Module ChatReplies.
Import Eff CommandParser WhatsAppService ChatRoute.
Local Open Scope eff_scope.

(** The [emotions] table of [detectEmotion], in the order of its keys. *)
Definition emotions : list (string * list string) :=
  [ ("happy", ["happy"; "joy"; "excited"; "great"; "awesome"; "wonderful";
               "amazing"; "love"; "laugh"; "good"; "nice"]);
    ("sad", ["sad"; "sorrow"; "depressed"; "unhappy"; "cry"; "tears";
             "lonely"; "bad"; "sorry"]);
    ("angry", ["angry"; "mad"; "furious"; "annoyed"; "hate"; "rage";
               "frustrated"]);
    ("surprised", ["surprised"; "shocked"; "wow"; "unexpected"; "really";
                   "seriously"]);
    ("confused", ["confused"; "dont understand"; "what"; "huh"; "puzzled";
                  "dont know"]);
    ("excited", ["excited"; "thrilled"; "cant wait"; "awesome"; "yeah"]);
    ("love", ["love"; "like"; "adore"; "heart"; "beautiful"]) ].

Definition detectEmotion (text : string) : string :=
  let lowerText := Js.toLowerCase text in
  match
    first_return
      (fun entry : string * list string =>
         if existsb (fun keyword => Js.includes lowerText keyword)
                    (snd entry)
         then Some (fst entry) else None)
      emotions
  with
  | Some emotion => emotion
  | None => "neutral"
  end.

Definition getSimpleResponse (message : string) : string :=
  let lowerMessage := Js.toLowerCase message in
  if Js.includes lowerMessage "hello" || Js.includes lowerMessage "hi"
     || Js.includes lowerMessage "hey"
  then "Hello! I'm Vista AI, your AI companion robot created by Hamza Hafeez. How can I help you today?"
  else if Js.includes lowerMessage "how are you"
  then "I'm doing great! Thanks for asking. I'm Vista AI, always here to help. How about you?"
  else if Js.includes lowerMessage "what"
          && Js.includes lowerMessage "your name"
  then "I'm Vista AI! I'm an AI companion robot created by Hamza Hafeez. Nice to meet you!"
  else if Js.includes lowerMessage "who made you"
          || Js.includes lowerMessage "who created you"
  then "I'm Vista AI, and I was created by Hamza Hafeez. He's my developer!"
  else if Js.includes lowerMessage "vista"
  then "Yes, that's me! I'm Vista AI, your friendly AI companion. How can I help you?"
  else if Js.includes lowerMessage "goodbye" || Js.includes lowerMessage "bye"
  then "Goodbye! It was nice talking to you. I'm Vista AI, and I'll be here whenever you need me!"
  else if Js.includes lowerMessage "thank"
  then "You're welcome! I'm Vista AI, always here to help."
  else "I heard you say: " ++ dq ++ message ++ dq
       ++ ". That's interesting! I'm Vista AI, tell me more about it.".

(** The three chat completion providers of [getAIResponse]. *)
Inductive Provider : Type := Groq | Gemini | HuggingFace.

(** What [getAIResponse] sees of its surroundings: whether the two API
    keys are set in [process.env], and the outcome of each of
    [getAIResponseGroq], [getAIResponseGemini] and [getAIResponseHF] on a
    message. *)
Record AiEnv : Type := mkAiEnv
  { GROQ_API_KEY : bool;
    GEMINI_API_KEY : bool;
    getAIResponseGroq : string -> Outcome string;
    getAIResponseGemini : string -> Outcome string;
    getAIResponseHF : string -> Outcome string }.

(** [getAIResponse]: the providers it called, in order, and the reply. *)
Definition getAIResponse (env : AiEnv) (message : string)
  : list Provider * string :=
  let try_gemini_on (called : list Provider) : list Provider * string :=
    let try_hf (called : list Provider) : list Provider * string :=
      match getAIResponseHF env message with
      | Ok response => ((called ++ [HuggingFace])%list, response)
      | Throw _ =>
          ((called ++ [HuggingFace])%list, getSimpleResponse message)
      end in
    if GEMINI_API_KEY env then
      match getAIResponseGemini env message with
      | Ok response => ((called ++ [Gemini])%list, response)
      | Throw _ => try_hf (called ++ [Gemini])%list
      end
    else try_hf called in
  if GROQ_API_KEY env then
    match getAIResponseGroq env message with
    | Ok response => ([Groq], response)
    | Throw _ => try_gemini_on [Groq]
    end
  else try_gemini_on [].

(** The JSON answers of [POST]: status 400, 200 and 500. *)
Inductive ChatResponse : Type :=
| BadRequest (error : string)
| Answer (response emotion : string) (command : option ParsedCommand)
| InternalError (error response emotion : string).

Definition is_whatsapp (t : CommandType) : bool :=
  match t with whatsapp => true | _ => false end.

(** [POST].  [body] is the outcome of reading the [message] field of
    [await request.json()]: a throw, [None] for a field that is
    missing or no string, or the string. *)
Definition POST (env : AiEnv) (getWhatsAppService : Outcome unit) (now : Z)
           (body : Outcome (option string)) : M Service ChatResponse :=
  try_catch
    (message <- access body ;;
     if negb (Js.truthy_opt message)
     then ret (BadRequest "Message is required")
     else
       let message := or_else message EmptyString in
       let command := parseCommand message in
       let emotion := detectEmotion message in
       match command with
       | Some c =>
           if is_whatsapp (type c) then
             response <- handleWhatsAppCommand getWhatsAppService now c
                           message ;;
             ret (Answer response "listening" command)
           else ret (Answer (snd (getAIResponse env message)) emotion command)
       | None => ret (Answer (snd (getAIResponse env message)) emotion command)
       end)
    (fun _ =>
       ret (InternalError "Internal server error"
              (getSimpleResponse "error") "sad")).

End ChatReplies.

(* ================================================================== *)
(** * src/app/api/whatsapp: what the routes share                       *)
(* ================================================================== *)

Module ExternalService.
Import Eff WhatsAppService.

(** The external service of [WHATSAPP_SERVICE_URL], as a route sees it:
    the variable is not set, or the [fetch] throws, or it answers;
    [data] is the outcome of [response.json()]. *)
Inductive External : Type :=
| NoServiceUrl
| FetchThrows (e : JsError)
| Responds (ok : bool) (data : Outcome string).

(** [error.message || fallback] *)
Definition message_or (e : JsError) (fallback : string) : string :=
  or_else e fallback.

End ExternalService.

(* ================================================================== *)
(** * src/app/api/whatsapp/send/route.ts                                *)
(* ================================================================== *)

Module SendRoute.
Import Eff WhatsAppService ExternalService.
Local Open Scope eff_scope.

(** The fields [POST] takes from the request body; an absent field is
    [None]. *)
Record SendBody : Type := mkSendBody
  { contact : option string;
    message : option string;
    replyTo : option string }.

(** The JSON answers of the route, each with its status. *)
Inductive SendResponse : Type :=
| Failure (status : Z) (error : string)
| Forwarded (data : string)
| Sent (success : bool) (message : string).

(** The part of [POST] that uses the local service. *)
Definition send_locally (getWhatsAppService : Outcome unit) (b : SendBody)
  : M Service SendResponse :=
  try_catch
    (access getWhatsAppService ;;;
     connected <- isConnected ;;
     if negb connected
     then ret (Failure 400 "WhatsApp not connected. Please connect first.")
     else
       success <-
         (if Js.truthy_opt (replyTo b) then
            r <- replyToMessage (or_else (replyTo b) EmptyString)
                   (or_else (message b) EmptyString) ;;
            ret (Some r)
          else if Js.truthy_opt (contact b) then
            r <- sendMessage (or_else (contact b) EmptyString)
                   (or_else (message b) EmptyString) ;;
            ret (Some r)
          else ret None) ;;
       match success with
       | None => ret (Failure 400 "Either contact or replyTo is required")
       | Some ok =>
           ret (Sent ok
                  (if ok then
                     "Message sent"
                     ++ (if Js.truthy_opt (contact b)
                         then " to " ++ or_else (contact b) EmptyString
                         else EmptyString)
                   else "Failed to send message"))
       end)
    (fun localError =>
       ret (Failure 500 (message_or localError "Failed to send message"))).

(** [POST]; [body] is the outcome of [await request.json()] and of
    taking its fields. *)
Definition POST (body : Outcome SendBody) (external : External)
           (getWhatsAppService : Outcome unit) : M Service SendResponse :=
  try_catch
    (b <- access body ;;
     if negb (Js.truthy_opt (message b))
     then ret (Failure 400 "Message is required")
     else
       match external with
       | NoServiceUrl => send_locally getWhatsAppService b
       | FetchThrows _ => ret (Failure 503 "WhatsApp service unavailable")
       | Responds true (Ok data) => ret (Forwarded data)
       | Responds true (Throw _) =>
           ret (Failure 503 "WhatsApp service unavailable")
       | Responds false _ => send_locally getWhatsAppService b
       end)
    (fun error =>
       ret (Failure 500 (message_or error "Failed to send message"))).

End SendRoute.

(* ================================================================== *)
(** * src/app/api/whatsapp/status/route.ts                              *)
(* ================================================================== *)

Module StatusRoute.
Import Eff WhatsAppService ExternalService.
Local Open Scope eff_scope.

(** The JSON answers of the route.  [Status] is
    [{ connected, qrCode }], [Unavailable] the answer with
    [serviceUnavailable: true], [RequiresExternal] the one with
    [requiresExternalService: true]; these have status 200, [Failed]
    has status 500. *)
Inductive StatusResponse : Type :=
| Forwarded (data : string)
| Unavailable
| Status (connected : bool) (qrCode : option string)
| RequiresExternal (error : string)
| Failed (error : string).

Definition cannot_run_on_vercel : string :=
  "WhatsApp service cannot run on Vercel. Please set WHATSAPP_SERVICE_URL.".

(** [GET]; [production] is [process.env.NODE_ENV === 'production']. *)
Definition GET (production : bool) (external : External)
           (getWhatsAppService : Outcome unit) : M Service StatusResponse :=
  let locally : M Service StatusResponse :=
    try_catch
      (access getWhatsAppService ;;;
       r <- try_catch
              (isConnected_ <- isConnected ;;
               qrCode_ <- getQRCode ;;
               ret (isConnected_, qrCode_))
              (fun statusError => ret (false, None)) ;;
       ret (Status (fst r) (or_undefined (snd r))))
      (fun localError =>
         ret (RequiresExternal
                (if production then cannot_run_on_vercel
                 else message_or localError
                        "Local WhatsApp service unavailable"))) in
  try_catch
    (match external with
     | NoServiceUrl => locally
     | FetchThrows _ => ret Unavailable
     | Responds true (Ok data) => ret (Forwarded data)
     | Responds true (Throw _) => ret Unavailable
     | Responds false _ => locally
     end)
    (fun error =>
       ret (Failed (message_or error "Failed to get WhatsApp status"))).

End StatusRoute.

(* ================================================================== *)
(** * src/app/api/whatsapp/messages/route.ts                            *)
(* ================================================================== *)

Module MessagesRoute.
Import Eff WhatsAppService ExternalService.
Local Open Scope eff_scope.

(** What [GET] reads from the query: [contact], whether [unread] is
    the string true, and [limit] as [parseInt] gives it ([limit] is
    taken to be a number: a value that [parseInt] cannot read is outside
    this record). *)
Record Query : Type := mkQuery
  { contactName : option string;
    unreadOnly : bool;
    limit : Z }.

(** The JSON answers of the route; [Messages] is
    [{ success: true, messages, count }]. *)
Inductive MessagesResponse : Type :=
| Failure (status : Z) (error : string)
| Forwarded (data : string)
| Messages (messages : list WhatsAppMessage) (count : nat).

(** [GET]; [query] is the outcome of reading the search parameters of
    [new URL(request.url)]. *)
Definition GET (query : Outcome Query) (external : External)
           (getWhatsAppService : Outcome unit)
  : M Service MessagesResponse :=
  try_catch
    (q <- access query ;;
     let locally : M Service MessagesResponse :=
       try_catch
         (access getWhatsAppService ;;;
          connected <- isConnected ;;
          if negb connected
          then ret (Failure 400
                      "WhatsApp not connected. Please connect first.")
          else
            messages <-
              (if unreadOnly q then getUnreadMessages
               else if Js.truthy_opt (contactName q)
               then getMessagesFromContact
                      (or_else (contactName q) EmptyString) (limit q)
               else getRecentMessages None (limit q)) ;;
            ret (Messages messages (List.length messages)))
         (fun localError =>
            ret (Failure 500
                   (message_or localError "Failed to get messages"))) in
     match external with
     | NoServiceUrl => locally
     | FetchThrows _ => ret (Failure 503 "WhatsApp service unavailable")
     | Responds true (Ok data) => ret (Forwarded data)
     | Responds true (Throw _) =>
         ret (Failure 503 "WhatsApp service unavailable")
     | Responds false _ => locally
     end)
    (fun error =>
       ret (Failure 500 (message_or error "Failed to get messages"))).

End MessagesRoute.

(* ================================================================== *)
(** * src/app/api/whatsapp/qr/route.ts                                  *)
(* ================================================================== *)

Module QrRoute.
Import Eff WhatsAppService ExternalService.
Local Open Scope eff_scope.

(** The JSON answers of the route; [Qr] is
    [{ qrCode, connected: false }]. *)
Inductive QrResponse : Type :=
| Failure (status : Z) (error : string)
| Forwarded (data : string)
| Qr (qrCode : string).

Definition not_available : string :=
  "QR code not available. WhatsApp may already be connected.".

Definition separate_server : string :=
  "WhatsApp service requires a separate server for production.".

(** [GET]; [during] and [newClient] are those of [initialize]. *)
Definition GET (during : nat -> Service -> Service) (newClient : Client)
           (external : External) (getWhatsAppService : Outcome unit)
  : M Service QrResponse :=
  let locally : M Service QrResponse :=
    try_catch
      (access getWhatsAppService ;;;
       qrCode_ <- getQRCode ;;
       if negb (Js.truthy_opt qrCode_) then
         initialize during newClient ;;;
         newQrCode <- getQRCode ;;
         if negb (Js.truthy_opt newQrCode)
         then ret (Failure 404 not_available)
         else ret (Qr (or_else newQrCode EmptyString))
       else ret (Qr (or_else qrCode_ EmptyString)))
      (fun localError =>
         ret (Failure 503 separate_server)) in
  try_catch
    (match external with
     | NoServiceUrl => locally
     | FetchThrows _ => ret (Failure 503 "WhatsApp service unavailable")
     | Responds true (Ok data) => ret (Forwarded data)
     | Responds true (Throw _) =>
         ret (Failure 503 "WhatsApp service unavailable")
     | Responds false _ => locally
     end)
    (fun error =>
       ret (Failure 500 (message_or error "Failed to get QR code"))).

End QrRoute.

(* ================================================================== *)
(** * src/app/api/whatsapp/connect/route.ts                             *)
(* ================================================================== *)

Module ConnectRoute.
Import Eff WhatsAppService ExternalService.
Local Open Scope eff_scope.

(** The JSON answers of the route.  [Connected] is
    [{ success: true, ready, qrCode, message }]; [RequiresExternal],
    with status 503, carries [error] and [details]. *)
Inductive ConnectResponse : Type :=
| Failure (status : Z) (error : string)
| Forwarded (data : string)
| Connected (ready : bool) (qrCode : option string) (message : string)
| RequiresExternal (error details : string).

Definition already_connected : string := "WhatsApp is already connected".

Definition scan_the_code : string :=
  "Scan the QR code with WhatsApp to connect".

Definition please_wait : string :=
  "Initializing WhatsApp connection... Please wait, QR code will appear shortly.".

(** The [error] of the status 503 answer, around the message of the
    local error. *)
Definition requires_server (errorMessage : string) : string :=
  "WhatsApp service requires a separate server. " ++ errorMessage
  ++ ". For production, deploy the WhatsApp service separately and set WHATSAPP_SERVICE_URL environment variable.".

Definition production_details : string :=
  "This is a production environment. WhatsApp Web.js cannot run on Vercel serverless functions.".

(** [POST].  [during] and [newClient] are those of [initialize];
    [later] is what happens to the service during the two seconds the
    route waits after an [initialize] that brought neither a QR code
    nor a ready session. *)
Definition POST (production : bool) (during : nat -> Service -> Service)
           (later : Service -> Service) (newClient : Client)
           (external : External) (getWhatsAppService : Outcome unit)
  : M Service ConnectResponse :=
  try_catch
    (match external with
     | FetchThrows e => throw e
     | Responds false _ => throw (Some "WhatsApp service unavailable")
     | Responds true (Ok data) => ret (Forwarded data)
     | Responds true (Throw e) => throw e
     | NoServiceUrl =>
         try_catch
           (access getWhatsAppService ;;;
            isConnected ;;;
            result <- initialize during newClient ;;
            early <-
              (if negb (Js.truthy_opt (r_qrCode result))
                  && negb (r_ready result)
               then
                 (fun s => (Ok tt, later s, [Sleep 2000])) ;;;
                 qrCode_ <- getQRCode ;;
                 isReady_ <- isConnected ;;
                 if Js.truthy_opt qrCode_ || isReady_
                 then ret (Some (Connected isReady_ (or_undefined qrCode_)
                                   (if isReady_ then already_connected
                                    else scan_the_code)))
                 else ret None
               else ret None) ;;
            match early with
            | Some response => ret response
            | None =>
                ret (Connected (r_ready result)
                       (or_undefined (r_qrCode result))
                       (if r_ready result then already_connected
                        else if Js.truthy_opt (r_qrCode result)
                        then scan_the_code
                        else please_wait))
            end)
           (fun localError =>
              let errorMessage :=
                message_or localError
                  "WhatsApp service initialization failed" in
              ret (RequiresExternal
                     (requires_server errorMessage)
                     (if production then production_details
                      else errorMessage)))
     end)
    (fun error =>
       ret (Failure 500 (message_or error "Failed to connect WhatsApp"))).

End ConnectRoute.

(* ================================================================== *)
(** * Verification                                                      *)
(* ================================================================== *)

Import Eff CommandParser WhatsAppService ChatRoute.
Local Open Scope eff_scope.

(** ** The vocabulary of the statements *)

(** The three components of a run. *)
Definition result_of {St A : Type} (r : Outcome A * St * list Effect)
  : Outcome A := fst (fst r).
Definition state_of {St A : Type} (r : Outcome A * St * list Effect)
  : St := snd (fst r).
Definition trace_of {St A : Type} (r : Outcome A * St * list Effect)
  : list Effect := snd r.

(** A service whose client has been built and that has seen no event. *)
Definition fresh (c : Client) : Service := mkService (Some c) false false None.

(** The trace [t] begins with the effect [e]. *)
Definition starts_with (e : Effect) (t : list Effect) : Prop :=
  exists t', t = e :: t'.

(** The shape every guarded operation has: the client is looked up,
    [isConnected] is asked, and the body runs only on a [true]. *)
Definition guarded {A : Type} (body : Client -> M Service A) : M Service A :=
  s <- get ;;
  match client s with
  | None => throw not_connected_error
  | Some c =>
      connected <- isConnected ;;
      if negb connected then throw not_connected_error else body c
  end.

(** A client whose pages are gone: reading [pupPage] or [info] throws. *)
Definition closed_client : Client :=
  mkClient (Throw (Some "Target closed")) (Throw (Some "Target closed"))
           (Ok tt) (Ok tt) (Ok []) (Ok [])
           (fun _ => Throw (Some "Target closed")) (fun _ _ => Ok tt).

(** A client that has not been initialized: no page, no info. *)
Definition idle_client : Client :=
  mkClient (Ok VUndefined) (Ok VUndefined) (Ok tt) (Ok tt) (Ok []) (Ok [])
           (fun _ => Throw (Some "No chat")) (fun _ _ => Ok tt).

Definition send_to_John : ParsedCommand :=
  mkCommand whatsapp send (Some "John") None None None.

(** Every message of the list is at least as recent as all that follow. *)
Definition newest_first_order (l : list WhatsAppMessage) : Prop :=
  StronglySorted (fun a b => (timestamp b <= timestamp a)%Z) l.

(** Every message of the list carries a valid date. *)
Definition valid_dates (l : list WhatsAppMessage) : Prop :=
  Forall (fun m => valid_date (timestamp m) = true) l.

(** The entries the inner loop pushes for the messages [l] of a chat:
    one for each message, up to the first message (if any) whose id
    cannot be read. *)
Fixpoint unread_entries (chat : Chat) (l : list Message)
  : list WhatsAppMessage :=
  match l with
  | [] => []
  | m :: l' =>
      match msg_id m with
      | Some i => unread_entry chat m i :: unread_entries chat l'
      | None => []
      end
  end.

(** What one chat adds to the list of unread messages. *)
Definition unread_contribution (chat : Chat) : list WhatsAppMessage :=
  if (0 <? chat_unreadCount chat)%Z then
    match chat_fetchMessages chat (chat_unreadCount chat) with
    | Ok ms => unread_entries chat (slice0 ms (chat_unreadCount chat))
    | Throw _ => []
    end
  else [].

(** Two chats with unread messages: the fetch of the first fails with
    an error that is not even the known contact error, the second
    answers with two messages. *)
Definition plain_message (i text : string) (seconds : Z) : Message :=
  mkMessage (Some i) text seconds (Some "4915112345@c.us") None None
            (fun _ => Ok tt).

Definition broken_chat : Chat :=
  mkChat (Some "Alice") "alice@c.us" (Some "alice") 3 false
         (fun _ => Throw (Some "Evaluation failed: t")).

Definition healthy_chat : Chat :=
  mkChat (Some "Bob") "bob@c.us" (Some "bob") 2 false
         (fun _ => Ok [plain_message "m1" "hello" 100;
                       plain_message "m2" "are you there" 200]).

Definition two_chat_client : Client :=
  mkClient (Ok VObject) (Ok VObject) (Ok tt) (Ok tt)
           (Ok [broken_chat; healthy_chat]) (Ok [])
           (fun _ => Throw (Some "No chat")) (fun _ _ => Ok tt).

(** A chat with three unread messages, the second of which carries a
    number of seconds far beyond the range of [Date]. *)
Definition odd_chat : Chat :=
  mkChat (Some "Erin") "erin@c.us" (Some "erin") 3 false
         (fun _ => Ok [plain_message "e1" "one" 100;
                       plain_message "e2" "two" 9000000000000;
                       plain_message "e3" "three" 200]).

Definition odd_service : Service :=
  mkService
    (Some (mkClient (Ok VObject) (Ok VObject) (Ok tt) (Ok tt)
             (Ok [odd_chat]) (Ok [])
             (fun _ => Throw (Some "No chat")) (fun _ _ => Ok tt)))
    true true None.

(** [l1] is [l2] with some elements left out. *)
Inductive subseq {A : Type} : list A -> list A -> Prop :=
| subseq_nil : subseq [] []
| subseq_take : forall x l1 l2, subseq l1 l2 -> subseq (x :: l1) (x :: l2)
| subseq_skip : forall x l1 l2, subseq l1 l2 -> subseq l1 (x :: l2).

(** The call [chat.fetchMessages({ limit: 1 })]. *)
Definition fetch_one (chat : Chat) : Effect :=
  FetchMessages (chat_id_serialized chat) 1.

(** A message picked from a chat: the chat, the message and its id. *)
Definition Pick : Type := (Chat * Message * string)%type.

Definition pick_chat (p : Pick) : Chat := fst (fst p).

Definition pick_entry (p : Pick) : WhatsAppMessage :=
  recent_entry (fst (fst p)) (snd (fst p)) (snd p).

(** The message of a pick is the first message of the answer to the
    one-message fetch on its chat. *)
Definition first_of_fetch (p : Pick) : Prop :=
  exists rest,
    chat_fetchMessages (pick_chat p) 1 = Ok (snd (fst p) :: rest)
    /\ msg_id (snd (fst p)) = Some (snd p).

(** The flags after the outer [catch] of a list operation. *)
Definition after_error (e : JsError) (s : Service) : Service :=
  if message_includes e "not connected" || message_includes e "Session"
  then set_isAuthenticated false (set_isReady false s)
  else s.

(** Three chats, the first holding many recent messages; whatever the
    limit asked for, its fetch answers with all three of them. *)
Definition busy_chat : Chat :=
  mkChat (Some "Carol") "carol@c.us" (Some "carol") 0 false
         (fun _ => Ok [plain_message "c3" "third" 300;
                       plain_message "c2" "second" 250;
                       plain_message "c1" "first" 240]).

Definition three_chat_client : Client :=
  mkClient (Ok VObject) (Ok VObject) (Ok tt) (Ok tt)
           (Ok [busy_chat; healthy_chat; broken_chat]) (Ok [])
           (fun _ => Throw (Some "No chat")) (fun _ _ => Ok tt).

Definition three_chat_service : Service :=
  mkService (Some three_chat_client) true true None.

Definition two_chat_service : Service :=
  mkService (Some two_chat_client) true true None.

(** The session shows what [initialize] waits for: it is ready, or a QR
    code is stored. *)
Definition settled (s : Service) : bool :=
  isReady s || Js.truthy_opt (qrCode s).

(** What [initialize] reports of a service. *)
Definition snapshot (s : Service) : InitResult :=
  if isReady s then mkInitResult None true
  else mkInitResult (or_undefined (qrCode s)) false.

Fixpoint count_sleeps (t : list Effect) : nat :=
  match t with
  | [] => 0
  | Sleep _ :: t' => S (count_sleeps t')
  | _ :: t' => count_sleeps t'
  end.

(** An effect of [initialize] on its client, as opposed to a sleep. *)
Definition client_effect (e : Effect) : Prop :=
  e = Initialize \/ e = Destroy \/ e = NewClient.




Section InitializeVocabulary.

Variable during : nat -> Service -> Service.
Variable newClient : Client.

(** The service after [k] ticks of the loop, the first of them being
    the [t]-th wait. *)
Fixpoint after_ticks (t k : nat) (s : Service) : Service :=
  match k with
  | O => s
  | S k' => after_ticks (S t) k' (during t s)
  end.

(** What the polling part of [initialize] makes of a run of the
    loop. *)
Definition conclude (r : Outcome (option InitResult) * Service * list Effect)
  : Outcome InitResult * Service * list Effect :=
  match r with
  | (Ok (Some res), s', tr) => (Ok res, s', tr)
  | (Ok None, s', tr) =>
      (Ok (mkInitResult (or_undefined (qrCode s')) (isReady s')), s', tr)
  | (Throw e, s', tr) => (Throw e, s', tr)
  end.

(** The error messages after which [initialize] recreates the
    client. *)
Definition bad_state (e : JsError) : bool :=
  message_includes e "destroyed" || message_includes e "Session"
  || message_includes e "Target closed".

(** The service when the recreated client is about to be
    initialized. *)
Definition recreated (s : Service) : Service :=
  set_client (Some newClient)
    (match client s with
     | Some _ => during 1 s
     | None => s
     end).

Definition destroy_trace (s : Service) : list Effect :=
  match client s with
  | Some _ => [Destroy]
  | None => []
  end.

End InitializeVocabulary.

(** ** What a pattern matches *)

(** [sem r pos u rest]: the pattern [r], tried at index [pos], can take
    the characters [u] and leave [rest]. *)
Inductive sem : Regex.re -> nat -> string -> string -> Prop :=
| sem_empty : forall pos rest, sem Regex.Empty pos EmptyString rest
| sem_char : forall (p : ascii -> bool) pos c rest,
    p c = true -> sem (Regex.Char p) pos (String c EmptyString) rest
| sem_cat : forall r1 r2 pos u1 u2 rest,
    sem r1 pos u1 (u2 ++ rest) ->
    sem r2 (pos + String.length u1) u2 rest ->
    sem (Regex.Cat r1 r2) pos (u1 ++ u2) rest
| sem_or_l : forall r1 r2 pos u rest,
    sem r1 pos u rest -> sem (Regex.Or r1 r2) pos u rest
| sem_or_r : forall r1 r2 pos u rest,
    sem r2 pos u rest -> sem (Regex.Or r1 r2) pos u rest
| sem_star_stop : forall r pos rest,
    sem (Regex.Star r) pos EmptyString rest
| sem_star_more : forall r pos u1 u2 rest,
    sem r pos u1 (u2 ++ rest) ->
    sem (Regex.Star r) (pos + String.length u1) u2 rest ->
    sem (Regex.Star r) pos (u1 ++ u2) rest
| sem_lazy_stop : forall r pos rest,
    sem (Regex.LazyStar r) pos EmptyString rest
| sem_lazy_more : forall r pos u1 u2 rest,
    sem r pos u1 (u2 ++ rest) ->
    sem (Regex.LazyStar r) (pos + String.length u1) u2 rest ->
    sem (Regex.LazyStar r) pos (u1 ++ u2) rest
| sem_group : forall i r pos u rest,
    sem r pos u rest -> sem (Regex.Group i r) pos u rest
| sem_bol : forall rest, sem Regex.Bol 0 EmptyString rest
| sem_eol : forall pos, sem Regex.Eol pos EmptyString EmptyString.

(** Every character of [s] satisfies [p]. *)
Fixpoint all_chars (p : ascii -> bool) (s : string) : bool :=
  match s with
  | EmptyString => true
  | String c s' => p c && all_chars p s'
  end.

(** An ASCII letter, of either case. *)
Definition is_letter (c : ascii) : bool := Js.is_lower (Js.lower c).

(** A word: one letter or more, and nothing else. *)
Definition is_word (s : string) : Prop :=
  s <> EmptyString /\ all_chars is_letter s = true.

(** One word, or two words with white space between them. *)
Definition one_or_two_words (s : string) : Prop :=
  is_word s
  \/ exists w1 sp w2,
       s = w1 ++ sp ++ w2
       /\ is_word w1
       /\ sp <> EmptyString /\ all_chars Js.is_space sp = true
       /\ is_word w2.

(** ** The connection flags *)

(** A ready session is an authenticated one. *)
Definition flags_consistent (s : Service) : Prop :=
  isReady s = true -> isAuthenticated s = true.

(** The client looks authenticated to a probe: reading [pupPage] does
    not throw, and [info] holds an object. *)
Definition connected_by_probe (c : Client) : bool :=
  match pupPage c, info c with
  | Ok _, Ok VObject => true
  | _, _ => false
  end.

(** A [disconnected] event after which the service reconnects. *)
Definition starts_reconnect (e : Event) : bool :=
  match e with
  | EvDisconnected reason => negb (String.eqb reason "LOGOUT")
  | _ => false
  end.

(** The service after a successful [isConnected()]. *)
Definition synced (s : Service) : Service :=
  match client s with
  | Some c =>
      if isReady s || isAuthenticated s then s
      else if connected_by_probe c then set_isAuthenticated true s
      else s
  | None => s
  end.

(** The answer of [isConnected()]. *)
Definition connected (s : Service) : bool :=
  match client s with
  | Some c => isReady s || isAuthenticated s || connected_by_probe c
  | None => false
  end.

(** ** Sending and replying *)

(** The test of [chats.find(...)] in the chat lookup. *)
Definition chat_named (lowerContactName : string) (chat : Chat) : bool :=
  match chat_name chat with
  | Some n => Js.includes (Js.toLowerCase n) lowerContactName
  | None => false
  end.

(** The error of a lookup that finds no chat. *)
Definition contact_not_found (contactName : string) : JsError :=
  Some ("Contact " ++ dq ++ contactName ++ dq ++ " not found").

(** The error of a reply to a message that no chat holds. *)
Definition message_not_found (messageId : string) : JsError :=
  Some ("Message with ID " ++ dq ++ messageId ++ dq ++ " not found").

Definition is_send (e : Effect) : bool :=
  match e with SendMessage _ _ => true | _ => false end.

Definition is_reply (e : Effect) : bool :=
  match e with Reply _ _ => true | _ => false end.

(** The call [chat.fetchMessages({ limit: 50 })]. *)
Definition fetch_fifty (chat : Chat) : Effect :=
  FetchMessages (chat_id_serialized chat) 50.

(** The chat holds no message of id [messageId] among its last fifty. *)
Definition lacks_message (messageId : string) (chat : Chat) : Prop :=
  exists ms, chat_fetchMessages chat 50 = Ok ms
             /\ find_by_id messageId ms = Ok None.

(** The call [chat.fetchMessages({ limit: chat.unreadCount })]. *)
Definition fetch_unread (chat : Chat) : Effect :=
  FetchMessages (chat_id_serialized chat) (chat_unreadCount chat).

Definition has_unread (chat : Chat) : bool :=
  (0 <? chat_unreadCount chat)%Z.

(** The unread counts of the chats, added up; a count below zero counts
    as zero. *)
Definition total_unread (chats : list Chat) : Z :=
  fold_right (fun chat n => (Z.max 0 (chat_unreadCount chat) + n)%Z) 0%Z
             chats.

(** The body of the loop of [replyToMessage]. *)
Definition reply_chat_body (messageId replyText : string) (chat : Chat)
  : M Service (option bool) :=
  messages <- call (FetchMessages (chat_id_serialized chat) 50)
                   (chat_fetchMessages chat 50) ;;
  found <- access (find_by_id messageId messages) ;;
  match found with
  | Some message =>
      call (Reply messageId replyText) (msg_reply message replyText) ;;;
      ret (Some true)
  | None => ret None
  end.

(** What [replyToMessage] does once its guard has passed. *)
Definition reply_attempt (messageId replyText : string) (c : Client)
  : M Service bool :=
  try_catch
    (chats <- call GetChats (getChats c) ;;
     r <- for_each_return chats (reply_chat_body messageId replyText) ;;
     match r with
     | Some b => ret b
     | None => throw (message_not_found messageId)
     end)
    (fun error => throw error).

(** ** Building a new client *)

Definition is_new_client (e : Effect) : bool :=
  match e with NewClient => true | _ => false end.

(** The service after [disconnect()]. *)
Definition closed : Service := mkService None false false None.

(** ** The chat route *)

(** The providers in the order [getAIResponse] tries them. *)
Definition providers : list ChatReplies.Provider :=
  [ChatReplies.Groq; ChatReplies.Gemini; ChatReplies.HuggingFace].

(** A provider is tried when its API key is set; Hugging Face needs no
    key. *)
Definition enabled (env : ChatReplies.AiEnv) (p : ChatReplies.Provider)
  : bool :=
  match p with
  | ChatReplies.Groq => ChatReplies.GROQ_API_KEY env
  | ChatReplies.Gemini => ChatReplies.GEMINI_API_KEY env
  | ChatReplies.HuggingFace => true
  end.

(** The outcome of a provider on a message. *)
Definition answer_of (env : ChatReplies.AiEnv) (p : ChatReplies.Provider)
                     (message : string) : Outcome string :=
  match p with
  | ChatReplies.Groq => ChatReplies.getAIResponseGroq env message
  | ChatReplies.Gemini => ChatReplies.getAIResponseGemini env message
  | ChatReplies.HuggingFace => ChatReplies.getAIResponseHF env message
  end.

(** The text mentions one of the keywords of the emotion table. *)
Definition mentions_keyword (text : string) : bool :=
  existsb (fun entry : string * list string =>
             existsb (fun keyword =>
                        Js.includes (Js.toLowerCase text) keyword)
                     (snd entry))
          ChatReplies.emotions.

(** The keywords of the first entry of the emotion table. *)
Definition happy_keywords : list string :=
  ["happy"; "joy"; "excited"; "great"; "awesome"; "wonderful"; "amazing";
   "love"; "laugh"; "good"; "nice"].

(** None of the words that make [parseCommand] take an utterance for a
    messaging command occurs in it. *)
Definition no_messaging_word (userMessage : string) : Prop :=
  let l := Js.trim (Js.toLowerCase userMessage) in
  Js.includes l "whatsapp" = false
  /\ Js.includes l "message" = false
  /\ Js.includes l "text" = false
  /\ Js.includes l "chat" = false.

(** The error of reading [.includes] on a missing error message. *)
Definition includes_of_undefined : JsError :=
  Some "Cannot read properties of undefined (reading 'includes')".

(** ** Services and requests to run the operations on *)

(** The chats of Carol and Bob, with a contact list that cannot be
    read. *)
Definition calm_client : Client :=
  mkClient (Ok VObject) (Ok VObject) (Ok tt) (Ok tt)
           (Ok [busy_chat; healthy_chat])
           (Throw (Some "Evaluation failed: t"))
           (fun _ => Throw (Some "No chat")) (fun _ _ => Ok tt).

Definition calm_service : Service :=
  mkService (Some calm_client) true true None.

(** A chat that answers the fetch of one message with its last
    message. *)
Definition dana_chat : Chat :=
  mkChat (Some "Dana") "dana@c.us" (Some "dana") 0 false
         (fun limit =>
            if Z.eqb limit 1 then Ok [plain_message "d2" "see you" 500]
            else Ok [plain_message "d2" "see you" 500;
                     plain_message "d1" "hi" 400]).

Definition dana_client : Client :=
  mkClient (Ok VObject) (Ok VObject) (Ok tt) (Ok tt)
           (Ok [busy_chat; dana_chat]) (Ok [])
           (fun _ => Throw (Some "No chat")) (fun _ _ => Ok tt).

Definition dana_service : Service :=
  mkService (Some dana_client) true true None.

Definition reply_to_Dana : ParsedCommand :=
  mkCommand whatsapp reply (Some "Dana") (Some "ok") None None.

(** A session that is authenticated and not yet ready. *)
Definition authenticated_service : Service :=
  mkService (Some idle_client) false true None.

(** No API key is set, and Hugging Face answers. *)
Definition no_keys : ChatReplies.AiEnv :=
  ChatReplies.mkAiEnv false false
    (fun _ => Throw (Some "GROQ_API_KEY not set"))
    (fun _ => Throw (Some "GEMINI_API_KEY not set"))
    (fun _ => Ok "Nice to hear from you.").

(** The Groq key is set, and Groq answers. *)
Definition groq_only : ChatReplies.AiEnv :=
  ChatReplies.mkAiEnv true false
    (fun _ => Ok "Hello from Groq.")
    (fun _ => Throw (Some "GEMINI_API_KEY not set"))
    (fun _ => Throw (Some "Hugging Face API error: 503")).

(** ** The connection state machine *)

(** [isConnected] never throws and performs no client call. *)
Lemma isConnected_returns :
  forall s : Service,
    exists (b : bool) (s' : Service), isConnected s = (Ok b, s', []).
Proof.
  intros [[c|] rdy auth qr]; unfold isConnected, bind, get; simpl.
  2: now eexists _, _.
  destruct rdy; simpl; [now eexists _, _|].
  destruct auth; simpl.
  - unfold try_catch, bind, access, ret; simpl.
    destruct (info c) as [v|e]; simpl; [destruct (js_defined v)|];
      now eexists _, _.
  - unfold isClientInitialized, try_catch, bind, get, access, ret, modify; simpl.
    destruct (pupPage c) as [p|e]; simpl.
    + destruct (js_truthy p) eqn:Hp; simpl.
      * destruct p; try discriminate; simpl.
        destruct (info c) as [v|e]; simpl; [destruct (js_truthy v); simpl|];
          now eexists _, _.
      * destruct (info c) as [v|e]; simpl; [|now eexists _, _].
        destruct (js_defined v); simpl; [|now eexists _, _].
        destruct (js_truthy v); simpl; now eexists _, _.
    + now eexists _, _.
Qed.

(** When [isConnected] answers [false] it has left the service as it
    was. *)
Lemma isConnected_false_state :
  forall (s s' : Service) (t : list Effect),
    isConnected s = (Ok false, s', t) -> s' = s /\ t = [].
Proof.
  intros [[c|] rdy auth qr] s' t; unfold isConnected, bind, get; simpl.
  2: now intros [= <- <-].
  destruct rdy; simpl; [discriminate|].
  destruct auth; simpl.
  - unfold try_catch, bind, access, ret; simpl.
    destruct (info c) as [v|e]; simpl; [destruct (js_defined v)|];
      discriminate.
  - unfold isClientInitialized, try_catch, bind, get, access, ret, modify; simpl.
    destruct (pupPage c) as [p|e]; simpl.
    + destruct (js_truthy p) eqn:Hp; simpl.
      * destruct p; try discriminate; simpl.
        destruct (info c) as [v|e]; simpl; [destruct (js_truthy v); simpl|];
          try discriminate; now intros [= <- <-].
      * destruct (info c) as [v|e]; simpl; [|now intros [= <- <-]].
        destruct (js_defined v); simpl; [|now intros [= <- <-]].
        destruct (js_truthy v); simpl; try discriminate; now intros [= <- <-].
    + now intros [= <- <-].
Qed.

(** [isConnected] never replaces the client. *)
Lemma isConnected_client :
  forall (s s' : Service) (b : bool) (t : list Effect),
    isConnected s = (Ok b, s', t) -> client s' = client s.
Proof.
  intros [[c|] rdy auth qr] s' b t; unfold isConnected, bind, get; simpl.
  2: now intros [= _ <- _].
  destruct rdy; simpl; [now intros [= _ <- _]|].
  destruct auth; simpl.
  - unfold try_catch, bind, access, ret; simpl.
    destruct (info c) as [v|e]; simpl; [destruct (js_defined v)|];
      now intros [= _ <- _].
  - unfold isClientInitialized, try_catch, bind, get, access, ret, modify; simpl.
    destruct (pupPage c) as [p|e]; simpl.
    + destruct (js_truthy p) eqn:Hp; simpl.
      * destruct p; try discriminate; simpl.
        destruct (info c) as [v|e]; simpl; [destruct (js_truthy v); simpl|];
          now intros [= _ <- _].
      * destruct (info c) as [v|e]; simpl; [|now intros [= _ <- _]].
        destruct (js_defined v); simpl; [|now intros [= _ <- _]].
        destruct (js_truthy v); simpl; now intros [= _ <- _].
    + now intros [= _ <- _].
Qed.

(** The [ready] and the [disconnected] handlers clear the stored QR
    code; the [authenticated] handler leaves it. *)
Lemma ready_clears_qr :
  forall s : Service, qrCode (state_of (on_event EvReady s)) = None.
Proof. reflexivity. Qed.

Lemma disconnected_clears_qr :
  forall (s : Service) (reason : string),
    qrCode (state_of (on_event (EvDisconnected reason) s)) = None.
Proof.
  intros s reason. unfold on_event, bind, modify, state_of; simpl.
  destruct (String.eqb reason "LOGOUT"); reflexivity.
Qed.

Lemma authenticated_keeps_qr :
  forall s : Service,
    qrCode (state_of (on_event EvAuthenticated s)) = qrCode s.
Proof. reflexivity. Qed.

(** C1.  The claim: whenever [isConnected()] is true the stored QR payload
    is null, and after the events qr, authenticated (no ready) the service
    is connected with a null QR code.  The code at that event sequence:
    on a service that has seen nothing else, [isConnected()] returns
    [true] and [getQRCode()] still returns the payload of the [qr] event,
    because the [authenticated] handler sets the flag and leaves [qrCode]
    alone. *)
Theorem C1_authenticated_leaves_qr :
  forall (c : Client) (qr : string),
    let s := state_of (deliver [EvQr qr; EvAuthenticated] (fresh c)) in
    result_of (isConnected s) = Ok true
    /\ result_of (getQRCode (state_of (isConnected s))) = Ok (Some qr).
Proof.
  intros c qr. cbn.
  unfold isConnected, bind, get, try_catch, access, ret, result_of, state_of;
    simpl.
  destruct (info c) as [v|e]; simpl; [destruct (js_defined v)|];
    split; reflexivity.
Qed.

(** ** The command parser *)

(** The examples that the comments of the source give for its
    extraction functions. *)
Example examples_of_the_source_comments :
  extractContactName "message from john" = Some "john"
  /\ extractContactName "send to sarah" = Some "sarah"
  /\ extractContactName "reply to mike" = Some "mike"
  /\ extractMessageToSend "send hello to john" = Some "hello"
  /\ extractMessageToSend "text sarah saying hi there" = Some "hi there"
  /\ extractMessageToSend "send a message to dawar" = None
  /\ extractMessageToSend "send hello to dawar" = Some "hello"
  /\ extractReplyMessage "reply with no" = Some "no"
  /\ extractReplyMessage "reply saying yes" = Some "yes".
Proof. repeat split; vm_compute; reflexivity. Qed.

(** C2.  The claim: [parseCommand] on "read messages from Mike" returns a
    read command for Mike.  The code at that input: the check rule, which
    lists "read message" among its triggers, comes before the read rule, so
    the command is a check narrowed to Mike. *)
Theorem C2_read_messages_from_Mike :
  parseCommand "read messages from Mike"
  = Some (mkCommand whatsapp check (Some "Mike") None None
            (Some (mkFilters (Some true) (Some "Mike") None))).
Proof. vm_compute. reflexivity. Qed.

(** The second half of C2 at its example: without a contact the action
    stays [unknown]. *)
Lemma read_my_messages_unknown :
  parseCommand "read my messages"
  = Some (mkCommand whatsapp unknown None None None None).
Proof. vm_compute. reflexivity. Qed.

(** Without an extractable contact name no utterance is ever filed as
    [read]. *)
Lemma no_contact_never_read :
  forall lowerMessage originalMessage : string,
    extractContactName originalMessage = None ->
    action (parseWhatsAppCommand lowerMessage originalMessage) <> read.
Proof.
  intros l o H. unfold parseWhatsAppCommand. rewrite H.
  destruct (check_trigger l); [simpl; discriminate|].
  destruct (send_trigger l).
  { destruct (extractMessageToSend o) as [m|]; [destruct (Js.truthy m)|];
      simpl; discriminate. }
  destruct (reply_trigger l).
  { destruct (extractReplyMessage o) as [m|]; [destruct (Js.truthy m)|];
      simpl; discriminate. }
  destruct (read_trigger l); simpl; discriminate.
Qed.

(** An utterance that reaches the read rule (no earlier rule of the
    cascade fires) and holds no contact name keeps the action [unknown],
    whether or not the read triggers match. *)
Lemma read_rule_without_contact :
  forall lowerMessage originalMessage : string,
    check_trigger lowerMessage = false ->
    send_trigger lowerMessage = false ->
    reply_trigger lowerMessage = false ->
    extractContactName originalMessage = None ->
    parseWhatsAppCommand lowerMessage originalMessage
    = mkCommand whatsapp unknown None None None None.
Proof.
  intros l o Hc Hs Hr Hn. unfold parseWhatsAppCommand.
  rewrite Hc, Hs, Hr, Hn. destruct (read_trigger l); reflexivity.
Qed.

(** C3.  The claim: [parseCommand] on "reply to Sarah with Thanks!" returns
    a reply command with target "Sarah" and message "Thanks!".  The code at
    that input: the utterance holds none of the words whatsapp, message,
    text and chat, so [parseCommand] returns [null]. *)
Theorem C3_reply_to_Sarah_is_no_command :
  parseCommand "reply to Sarah with Thanks!" = None.
Proof. vm_compute. reflexivity. Qed.

(** Past that test the extraction does not give the claimed fields
    either: the name pattern takes the word after the name with it, and
    the bare reply pattern keeps the whole rest of the utterance. *)
Lemma reply_to_Sarah_past_the_gate :
  parseWhatsAppCommand "reply to sarah with thanks!"
                       "reply to Sarah with Thanks!"
  = mkCommand whatsapp reply (Some "Sarah with")
      (Some "to Sarah with Thanks!") None None.
Proof. vm_compute. reflexivity. Qed.

(** The suffix rule of [extractReplyMessage] itself works where the
    name ends the utterance. *)
Lemma reply_suffix_is_stripped :
  extractReplyMessage "reply Thanks! to Sarah" = Some "Thanks!"
  /\ extractContactName "reply Thanks! to Sarah" = Some "Sarah".
Proof. split; vm_compute; reflexivity. Qed.

(** The first half of C7: the filler phrase is no message body. *)
Lemma send_a_message_to_John :
  parseCommand "send a message to John"
  = Some (mkCommand whatsapp send (Some "John") None None None).
Proof. vm_compute. reflexivity. Qed.

(** ** The connection guard of the message operations *)

Lemma bind_starts_with :
  forall {St A B : Type} (e : Effect) (m : M St A) (k : A -> M St B),
    (forall s, starts_with e (trace_of (m s))) ->
    forall s, starts_with e (trace_of (bind m k s)).
Proof.
  intros St A B e m k H s. specialize (H s). unfold bind, trace_of in *.
  destruct (m s) as [[[a|err] s1] t1]; simpl in *.
  - destruct (k a s1) as [[r s2] t2]; simpl.
    destruct H as [t' ->]. now exists (t' ++ t2)%list.
  - exact H.
Qed.

Lemma try_catch_starts_with :
  forall {St A : Type} (e : Effect) (m : M St A) (h : JsError -> M St A),
    (forall s, starts_with e (trace_of (m s))) ->
    forall s, starts_with e (trace_of (try_catch m h s)).
Proof.
  intros St A e m h H s. specialize (H s). unfold try_catch, trace_of in *.
  destruct (m s) as [[[a|err] s1] t1]; simpl in *.
  - exact H.
  - destruct (h err s1) as [[r s2] t2]; simpl.
    destruct H as [t' ->]. now exists (t' ++ t2)%list.
Qed.

Lemma call_starts_with :
  forall {St A : Type} (e : Effect) (r : Outcome A) (s : St),
    starts_with e (trace_of (call e r s)).
Proof. intros. now exists []. Qed.

Lemma find_target_chat_starts :
  forall (c : Client) (n : string) (s : Service),
    starts_with GetChats (trace_of (find_target_chat c n s)).
Proof.
  intros c n. unfold find_target_chat.
  apply bind_starts_with. intros s. apply call_starts_with.
Qed.

Lemma guarded_not_connected :
  forall {A : Type} (body : Client -> M Service A) (s : Service),
    result_of (isConnected s) = Ok false ->
    guarded body s = (Throw not_connected_error, s, []).
Proof.
  intros A body s H. unfold guarded, bind, get; simpl.
  destruct (isConnected s) as [[r s1] t1] eqn:E.
  unfold result_of in H. simpl in H. subst r.
  destruct (isConnected_false_state _ _ _ E) as [-> ->].
  destruct (client s) as [c|]; [|reflexivity].
  rewrite E. reflexivity.
Qed.

Lemma guarded_connected :
  forall {A : Type} (body : Client -> M Service A) (s : Service),
    result_of (isConnected s) = Ok true ->
    exists c, client s = Some c
              /\ guarded body s = body c (state_of (isConnected s)).
Proof.
  intros A body s H. unfold guarded, bind, get; simpl.
  destruct (isConnected_returns s) as (b & s1 & E).
  rewrite E in H. unfold result_of in H. simpl in H. injection H as ->.
  destruct (client s) as [c|] eqn:Hc.
  - exists c. split; [reflexivity|]. rewrite E. unfold state_of. simpl.
    destruct (body c s1) as [[r s2] t2]. reflexivity.
  - exfalso. destruct s as [cl rdy auth qr]. simpl in Hc. subst cl.
    discriminate E.
Qed.

(** The four operations that ask [isConnected] are instances of that
    shape. *)
Lemma getUnreadMessages_guarded :
  getUnreadMessages
  = guarded (fun c =>
      try_catch
        (chats <- call GetChats (getChats c) ;;
         r <- with_local [] (for_each chats unread_chat_body) ;;
         ret (sort_by newest_first (snd r)))
        (fun error => reset_on_connection_error error ;;; throw error)).
Proof. reflexivity. Qed.

Lemma sendMessage_guarded :
  forall contactName message : string,
    sendMessage contactName message
    = guarded (fun c =>
        try_catch
          (targetChat <- find_target_chat c contactName ;;
           call (SendMessage (chat_id_serialized targetChat) message)
                (client_sendMessage c (chat_id_serialized targetChat)
                   message) ;;;
           ret true)
          (fun error => throw error)).
Proof. reflexivity. Qed.

Lemma getMessagesFromContact_guarded :
  forall (contactName : string) (limit : Z),
    getMessagesFromContact contactName limit
    = guarded (fun c =>
        try_catch
          (targetChat <- find_target_chat c contactName ;;
           messages <-
             call (FetchMessages (chat_id_serialized targetChat) limit)
                  (chat_fetchMessages targetChat limit) ;;
           access (map_messages
                     (or_else (chat_name targetChat) contactName)
                     (chat_isGroup targetChat) messages))
          (fun error => throw error)).
Proof. reflexivity. Qed.

(** Not connected: each of the four throws the not-connected error and
    makes no call on the client. *)
Lemma guarded_operations_refuse :
  forall (s : Service) (a b : string) (limit : Z),
    result_of (isConnected s) = Ok false ->
    getUnreadMessages s = (Throw not_connected_error, s, [])
    /\ sendMessage a b s = (Throw not_connected_error, s, [])
    /\ replyToMessage a b s = (Throw not_connected_error, s, [])
    /\ getMessagesFromContact a limit s = (Throw not_connected_error, s, []).
Proof.
  intros s a b limit H. repeat split.
  - rewrite getUnreadMessages_guarded. now apply guarded_not_connected.
  - rewrite sendMessage_guarded. now apply guarded_not_connected.
  - change (replyToMessage a b) with (guarded (fun c =>
      try_catch
        (chats <- call GetChats (getChats c) ;;
         r <- for_each_return chats
                (fun chat =>
                   messages <-
                     call (FetchMessages (chat_id_serialized chat) 50)
                          (chat_fetchMessages chat 50) ;;
                   found <- access (find_by_id a messages) ;;
                   match found with
                   | Some message =>
                       call (Reply a b) (msg_reply message b) ;;;
                       ret (Some true)
                   | None => ret None
                   end) ;;
         match r with
         | Some v => ret v
         | None =>
             throw (Some ("Message with ID " ++ dq ++ a ++ dq
                          ++ " not found"))
         end)
        (fun error => throw error))).
    now apply guarded_not_connected.
  - rewrite getMessagesFromContact_guarded. now apply guarded_not_connected.
Qed.

(** Connected: each of the four goes on to the client; its first effect
    is the [getChats] call. *)
Lemma guarded_operations_proceed :
  forall (s : Service) (a b : string) (limit : Z),
    result_of (isConnected s) = Ok true ->
    starts_with GetChats (trace_of (getUnreadMessages s))
    /\ starts_with GetChats (trace_of (sendMessage a b s))
    /\ starts_with GetChats (trace_of (replyToMessage a b s))
    /\ starts_with GetChats (trace_of (getMessagesFromContact a limit s)).
Proof.
  intros s a b limit H. repeat split.
  - rewrite getUnreadMessages_guarded.
    destruct (guarded_connected
                (fun c =>
                   try_catch
                     (chats <- call GetChats (getChats c) ;;
                      r <- with_local [] (for_each chats unread_chat_body) ;;
                      ret (sort_by newest_first (snd r)))
                     (fun error =>
                        reset_on_connection_error error ;;; throw error))
                s H) as (c & _ & ->).
    apply try_catch_starts_with. apply bind_starts_with.
    intros s0. apply call_starts_with.
  - rewrite sendMessage_guarded.
    match goal with
    | |- context [guarded ?f s] =>
        destruct (guarded_connected f s H) as (c & _ & ->)
    end.
    apply try_catch_starts_with. apply bind_starts_with.
    apply find_target_chat_starts.
  - unfold replyToMessage.
    match goal with
    | |- context [bind get ?k s] =>
        change (bind get k) with (guarded (fun c =>
          try_catch
            (chats <- call GetChats (getChats c) ;;
             r <- for_each_return chats
                    (fun chat =>
                       messages <-
                         call (FetchMessages (chat_id_serialized chat) 50)
                              (chat_fetchMessages chat 50) ;;
                       found <- access (find_by_id a messages) ;;
                       match found with
                       | Some message =>
                           call (Reply a b) (msg_reply message b) ;;;
                           ret (Some true)
                       | None => ret None
                       end) ;;
             match r with
             | Some v => ret v
             | None =>
                 throw (Some ("Message with ID " ++ dq ++ a ++ dq
                              ++ " not found"))
             end)
            (fun error => throw error)))
    end.
    match goal with
    | |- context [guarded ?f s] =>
        destruct (guarded_connected f s H) as (c & _ & ->)
    end.
    apply try_catch_starts_with. apply bind_starts_with.
    intros s0. apply call_starts_with.
  - rewrite getMessagesFromContact_guarded.
    match goal with
    | |- context [guarded ?f s] =>
        destruct (guarded_connected f s H) as (c & _ & ->)
    end.
    apply try_catch_starts_with. apply bind_starts_with.
    apply find_target_chat_starts.
Qed.

(** C4.  The claim: each message operation throws its not-connected error
    exactly when [isConnected()] is false.  The code of
    [getRecentMessages] tests the [isReady] flag instead: after the
    [authenticated] event and before [ready], [isConnected()] is [true]
    and [getRecentMessages] still throws the not-connected error, without
    a call on the client.  The other four operations ask [isConnected]. *)
Theorem C4_getRecentMessages_ignores_isConnected :
  forall (c : Client) (contactName : option string) (limit : Z),
    let s := state_of (deliver [EvAuthenticated] (fresh c)) in
    result_of (isConnected s) = Ok true
    /\ state_of (isConnected s) = s
    /\ getRecentMessages contactName limit s
       = (Throw not_connected_error, s, []).
Proof.
  intros c contactName limit. cbn.
  unfold isConnected, bind, get, try_catch, access, ret, result_of, state_of;
    simpl.
  destruct (info c) as [v|e]; simpl; [destruct (js_defined v)|];
    repeat split; reflexivity.
Qed.

(** ** [isConnected] and failing probes *)

(** C6, the claim refuted: the [authenticated] event has fired, [ready]
    has not, and reading [client.info] throws; [isConnected()] answers
    [true], not [false]. *)
Lemma C6_counterexample :
  let s := state_of (deliver [EvAuthenticated] (fresh closed_client)) in
  info closed_client = Throw (Some "Target closed")
  /\ isReady s = false
  /\ result_of (isConnected s) = Ok true.
Proof. repeat split. Qed.

(** C6, amended.  [isConnected()] never throws.  When the session is not
    ready and a probe of the client that [isConnected()] performs throws
    (the read of [info], or the read of [pupPage] on the path taken when
    the authenticated flag is off), it answers with the authenticated
    flag: [true] after the [authenticated] event, [false] otherwise; the
    service is left as it was. *)
Theorem C6_isConnected_never_throws :
  forall s : Service,
    (exists (b : bool) (s' : Service), isConnected s = (Ok b, s', []))
    /\ (forall (c : Client) (e : JsError),
          client s = Some c ->
          isReady s = false ->
          info c = Throw e
          \/ (isAuthenticated s = false /\ pupPage c = Throw e) ->
          isConnected s = (Ok (isAuthenticated s), s, [])).
Proof.
  intros s. split; [apply isConnected_returns|].
  intros c e Hc Hr Hp. destruct s as [cl rdy auth qr]. simpl in *.
  subst cl rdy. unfold isConnected, bind, get; simpl.
  destruct auth; simpl.
  - destruct Hp as [Hi|[Hf _]]; [|discriminate].
    unfold try_catch, bind, access, ret, get. rewrite Hi. reflexivity.
  - unfold isClientInitialized, try_catch, bind, get, access, ret; simpl.
    destruct Hp as [Hi|[_ Hp]].
    + rewrite Hi. destruct (pupPage c) as [p|e']; simpl; [|reflexivity].
      destruct (js_truthy p) eqn:Hp; simpl; [|reflexivity].
      destruct p; try discriminate. reflexivity.
    + rewrite Hp. reflexivity.
Qed.

Lemma C6_isConnected_never_throws_witness :
  isConnected (mkService (Some closed_client) false true None)
  = (Ok true, mkService (Some closed_client) false true None, [])
  /\ isConnected (mkService (Some closed_client) false false None)
     = (Ok false, mkService (Some closed_client) false false None, []).
Proof.
  split.
  - exact (proj2 (C6_isConnected_never_throws
                    (mkService (Some closed_client) false true None))
             closed_client (Some "Target closed") eq_refl eq_refl
             (or_introl eq_refl)).
  - exact (proj2 (C6_isConnected_never_throws
                    (mkService (Some closed_client) false false None))
             closed_client (Some "Target closed") eq_refl eq_refl
             (or_intror (conj eq_refl eq_refl))).
Defined.

(** ** The executor on a send command without a message *)

Lemma parsed_target_given :
  forall (userMessage : string) (command : ParsedCommand) (t : string),
    parseCommand userMessage = Some command ->
    target command = Some t ->
    Js.truthy t = true.
Proof.
  intros u command t H. unfold parseCommand in H.
  set (l := Js.trim (Js.toLowerCase u)) in *.
  destruct (Js.includes l "whatsapp" || Js.includes l "message"
            || Js.includes l "text" || Js.includes l "chat").
  2: { destruct (Js.includes l "email" || Js.includes l "mail").
       { injection H as <-. discriminate. }
       destruct (Js.includes l "calendar" || Js.includes l "event"
                 || Js.includes l "meeting"); [|discriminate].
       injection H as <-. discriminate. }
  injection H as <-. unfold parseWhatsAppCommand.
  destruct (extractContactName u) as [n|];
    [destruct (Js.truthy n) eqn:Hn|];
    (destruct (check_trigger l);
     [|destruct (send_trigger l);
       [destruct (extractMessageToSend u) as [m|];
        [destruct (Js.truthy m)|]
       |destruct (reply_trigger l);
        [destruct (extractReplyMessage u) as [m|];
         [destruct (Js.truthy m)|]
        |destruct (read_trigger l)]]]);
    simpl; intros E; try discriminate; injection E as <-; exact Hn.
Qed.

(** C7.  [parseCommand] on "send a message to John" returns a send
    command with target "John" and no message.  For every send command
    with a target and no message, the executor, on a connected service,
    returns the clarification prompt that asks what to send to that
    target; it returns normally and makes no call on the client, so
    nothing is sent.  The target is given in the sense of the test
    [command.target] of the executor, which an empty string does not
    pass; a target that [parseCommand] sets always passes it. *)
Theorem C7_send_without_message :
  parseCommand "send a message to John" = Some send_to_John
  /\ (forall (command : ParsedCommand) (t : string) (now : Z)
             (originalMessage : string) (s : Service),
        action command = send ->
        target command = Some t ->
        Js.truthy t = true ->
        Js.truthy_opt (message command) = false ->
        result_of (isConnected s) = Ok true ->
        handleWhatsAppCommand (Ok tt) now command originalMessage s
        = (Ok (clarification t), state_of (isConnected s), []))
  /\ (forall (userMessage : string) (command : ParsedCommand) (t : string)
             (now : Z) (originalMessage : string) (s : Service),
        parseCommand userMessage = Some command ->
        action command = send ->
        target command = Some t ->
        message command = None ->
        result_of (isConnected s) = Ok true ->
        handleWhatsAppCommand (Ok tt) now command originalMessage s
        = (Ok (clarification t), state_of (isConnected s), [])).
Proof.
  assert (Hgen :
    forall (command : ParsedCommand) (t : string) (now : Z)
           (originalMessage : string) (s : Service),
      action command = send ->
      target command = Some t ->
      Js.truthy t = true ->
      Js.truthy_opt (message command) = false ->
      result_of (isConnected s) = Ok true ->
      handleWhatsAppCommand (Ok tt) now command originalMessage s
      = (Ok (clarification t), state_of (isConnected s), [])).
  { intros command t now o s Ha Ht Htt Hm Hconn.
    destruct (isConnected_returns s) as (b & s1 & E).
    unfold handleWhatsAppCommand, bind. rewrite E in *.
    unfold result_of, state_of in *. simpl in *. injection Hconn as ->.
    simpl. unfold try_catch. rewrite Ha, Ht. simpl. rewrite Htt, Hm.
    reflexivity. }
  split; [vm_compute; reflexivity|]. split; [exact Hgen|].
  intros u command t now o s Hparse Ha Ht Hm Hconn.
  apply Hgen; try assumption.
  - exact (parsed_target_given u command t Hparse Ht).
  - now rewrite Hm.
Qed.

Lemma C7_send_without_message_witness :
  handleWhatsAppCommand (Ok tt) 0 send_to_John "send a message to John"
    (mkService (Some idle_client) true true None)
  = (Ok (clarification "John"),
     mkService (Some idle_client) true true None, []).
Proof.
  exact (proj1 (proj2 C7_send_without_message) send_to_John "John" 0%Z
           "send a message to John"
           (mkService (Some idle_client) true true None)
           eq_refl eq_refl eq_refl eq_refl eq_refl).
Defined.

(** Before it looks at the command the executor asks [isConnected()]:
    on a service that is not connected the same commands are answered
    with the instruction to connect, and again nothing is called. *)
Lemma send_without_message_not_connected :
  forall (command : ParsedCommand) (now : Z) (originalMessage : string)
         (s : Service),
    result_of (isConnected s) = Ok false ->
    handleWhatsAppCommand (Ok tt) now command originalMessage s
    = (Ok connect_first, s, []).
Proof.
  intros command now o s Hconn.
  destruct (isConnected_returns s) as (b & s1 & E).
  unfold handleWhatsAppCommand, bind. rewrite E in *.
  unfold result_of in Hconn. simpl in Hconn. injection Hconn as ->.
  destruct (isConnected_false_state _ _ _ E) as [-> _]. reflexivity.
Qed.

(** ** Sorting newest first *)

Section SortBy.

Variable A : Type.
Variable cmp : A -> A -> Z.

Lemma insert_by_perm :
  forall (x : A) (l : list A), Permutation (insert_by cmp x l) (x :: l).
Proof.
  intros x l. induction l as [|y l IH]; simpl.
  - apply Permutation_refl.
  - destruct (cmp x y <=? 0)%Z.
    + apply Permutation_refl.
    + eapply perm_trans; [apply perm_skip, IH|apply perm_swap].
Qed.

Lemma sort_by_perm :
  forall l : list A, Permutation (sort_by cmp l) l.
Proof.
  induction l as [|x l IH]; simpl.
  - apply perm_nil.
  - eapply perm_trans; [apply insert_by_perm|apply perm_skip, IH].
Qed.

Lemma sort_by_length :
  forall l : list A, List.length (sort_by cmp l) = List.length l.
Proof. intros l. apply Permutation_length, sort_by_perm. Qed.

Lemma sort_by_In :
  forall (l : list A) (x : A), In x l <-> In x (sort_by cmp l).
Proof.
  intros l x. split; intros H.
  - eapply Permutation_in; [apply Permutation_sym, sort_by_perm|exact H].
  - eapply Permutation_in; [apply sort_by_perm|exact H].
Qed.

End SortBy.

Lemma newest_first_valid :
  forall a b : WhatsAppMessage,
    valid_date (timestamp a) = true ->
    valid_date (timestamp b) = true ->
    newest_first a b = (timestamp b - timestamp a)%Z.
Proof. intros a b Ha Hb. unfold newest_first. now rewrite Ha, Hb. Qed.

Lemma valid_dates_perm :
  forall l1 l2 : list WhatsAppMessage,
    Permutation l1 l2 -> valid_dates l1 -> valid_dates l2.
Proof.
  unfold valid_dates. intros l1 l2 Hp H. rewrite Forall_forall in H |- *.
  intros m Hm. apply H. eapply Permutation_in; [|exact Hm].
  now apply Permutation_sym.
Qed.

Lemma insert_newest_first :
  forall (x : WhatsAppMessage) (l : list WhatsAppMessage),
    valid_date (timestamp x) = true ->
    valid_dates l ->
    newest_first_order l -> newest_first_order (insert_by newest_first x l).
Proof.
  unfold newest_first_order. intros x l Hx Hv H.
  induction H as [|y l Hl IH Hy]; simpl.
  - constructor; [constructor|constructor].
  - inversion Hv as [|? ? Hvy Hvl]; subst.
    rewrite (newest_first_valid x y Hx Hvy).
    destruct (timestamp y - timestamp x <=? 0)%Z eqn:E.
    + apply Z.leb_le in E. constructor.
      * constructor; assumption.
      * constructor; [lia|].
        rewrite Forall_forall in Hy |- *. intros z Hz.
        specialize (Hy z Hz). simpl in Hy. lia.
    + apply Z.leb_gt in E. constructor; [exact (IH Hvl)|].
      rewrite Forall_forall in Hy |- *. intros z Hz.
      apply (Permutation_in _ (insert_by_perm _ newest_first x l)) in Hz.
      destruct Hz as [<-|Hz]; [lia|apply Hy, Hz].
Qed.

(** Valid dates are sorted newest first. *)
Lemma sort_newest_first :
  forall l : list WhatsAppMessage,
    valid_dates l ->
    newest_first_order (sort_by newest_first l).
Proof.
  induction l as [|x l IH]; intros Hv; simpl.
  - constructor.
  - inversion Hv as [|? ? Hx Hl]; subst.
    apply insert_newest_first; [exact Hx| |exact (IH Hl)].
    apply (valid_dates_perm l); [|exact Hl].
    apply Permutation_sym, sort_by_perm.
Qed.

(** A sorted list whose dates are valid was sorted newest first. *)
Lemma sorted_valid_dates :
  forall l : list WhatsAppMessage,
    valid_dates (sort_by newest_first l) ->
    newest_first_order (sort_by newest_first l).
Proof.
  intros l Hv. apply sort_newest_first.
  apply (valid_dates_perm (sort_by newest_first l)); [|exact Hv].
  apply sort_by_perm.
Qed.

Lemma In_firstn :
  forall {A : Type} (n : nat) (l : list A) (x : A),
    In x (firstn n l) -> In x l.
Proof.
  intros A n. induction n as [|n IH]; intros [|y l] x; simpl; try tauto.
  intros [H|H]; [now left|right; now apply IH].
Qed.

Lemma firstn_newest_first :
  forall (n : nat) (l : list WhatsAppMessage),
    newest_first_order l -> newest_first_order (firstn n l).
Proof.
  unfold newest_first_order. intros n l H. revert n.
  induction H as [|y l Hl IH Hy]; intros [|n]; simpl; try constructor.
  - apply IH.
  - rewrite Forall_forall in Hy |- *. intros z Hz.
    apply Hy. eapply In_firstn. exact Hz.
Qed.

Lemma slice0_newest_first :
  forall (l : list WhatsAppMessage) (e : Z),
    newest_first_order l -> newest_first_order (slice0 l e).
Proof. intros l e H. unfold slice0. now apply firstn_newest_first. Qed.

Lemma slice0_length :
  forall {A : Type} (l : list A) (e : Z),
    (0 <= e)%Z -> (Z.of_nat (List.length (slice0 l e)) <= e)%Z.
Proof.
  intros A l e He. unfold slice0.
  destruct (e <? 0)%Z eqn:E; [apply Z.ltb_lt in E; lia|].
  rewrite length_firstn. lia.
Qed.

Lemma slice0_firstn :
  forall {A : Type} (l : list A) (e : Z),
    (0 <= e)%Z -> slice0 l e = firstn (Z.to_nat e) l.
Proof.
  intros A l e He. unfold slice0.
  destruct (e <? 0)%Z eqn:E; [apply Z.ltb_lt in E; lia|].
  destruct (Z.min_spec e (Z.of_nat (List.length l))) as [[H ->]|[H ->]].
  - reflexivity.
  - rewrite Nat2Z.id. rewrite firstn_all.
    symmetry. apply firstn_all2. lia.
Qed.

Lemma slice0_all :
  forall {A : Type} (l : list A) (e : Z),
    (Z.of_nat (List.length l) <= e)%Z -> slice0 l e = l.
Proof.
  intros A l e H. rewrite slice0_firstn by lia.
  apply firstn_all2. lia.
Qed.

(** ** [getUnreadMessages], chat by chat *)

Lemma unread_message_body_run :
  forall (chat : Chat) (m : Message) (s : Service)
         (acc : list WhatsAppMessage),
    unread_message_body chat m (s, acc)
    = match msg_id m with
      | Some i => (Ok tt, (s, (acc ++ [unread_entry chat m i])%list), [])
      | None =>
          (Throw (Some "Cannot read properties of undefined (reading 'id')"),
           (s, acc), [])
      end.
Proof.
  intros chat m s acc.
  unfold unread_message_body, bind, access, read_id, push, get_local,
    set_local.
  destruct (msg_id m); reflexivity.
Qed.

Lemma unread_message_loop :
  forall (chat : Chat) (l : list Message) (s : Service)
         (acc : list WhatsAppMessage),
    exists r,
      for_each l (unread_message_body chat) (s, acc)
      = (r, (s, (acc ++ unread_entries chat l)%list), []).
Proof.
  intros chat l. induction l as [|m l IH]; intros s acc; cbn [for_each].
  - exists (Ok tt). unfold ret. simpl. now rewrite app_nil_r.
  - unfold bind. rewrite unread_message_body_run. simpl.
    destruct (msg_id m) as [i|].
    + destruct (IH s (acc ++ [unread_entry chat m i])%list) as [r ->].
      exists r. now rewrite <- app_assoc.
    + eexists. now rewrite app_nil_r.
Qed.

Lemma unread_chat_body_spec :
  forall (chat : Chat) (s : Service) (acc : list WhatsAppMessage),
    exists t,
      unread_chat_body chat (s, acc)
      = (Ok tt, (s, (acc ++ unread_contribution chat)%list), t).
Proof.
  intros chat s acc. unfold unread_chat_body, unread_contribution.
  destruct (0 <? chat_unreadCount chat)%Z.
  2: { exists []. unfold ret. now rewrite app_nil_r. }
  unfold try_catch, bind, lift, call. simpl.
  destruct (chat_fetchMessages chat (chat_unreadCount chat)) as [ms|e];
    simpl.
  - destruct (unread_message_loop chat
                (slice0 ms (chat_unreadCount chat)) s acc) as [r E].
    rewrite E. destruct r as [[]|e]; simpl; eexists; reflexivity.
  - destruct (message_includes e "getIsMyContact"
              || message_includes e "ContactMethods"); simpl;
      eexists; now rewrite app_nil_r.
Qed.

Lemma unread_loop :
  forall (chats : list Chat) (s : Service) (acc : list WhatsAppMessage),
    exists t,
      for_each chats unread_chat_body (s, acc)
      = (Ok tt, (s, (acc ++ flat_map unread_contribution chats)%list), t).
Proof.
  induction chats as [|chat chats IH]; intros s acc; simpl.
  - exists []. unfold ret. now rewrite app_nil_r.
  - unfold bind.
    destruct (unread_chat_body_spec chat s acc) as [t1 ->].
    destruct (IH s (acc ++ unread_contribution chat)%list) as [t2 ->].
    eexists. now rewrite <- app_assoc.
Qed.

(** With the guard passed and the chat list at hand, [getUnreadMessages]
    returns: the result is the sorted list of what each chat adds. *)
Lemma getUnreadMessages_spec :
  forall (s : Service) (c : Client) (chats : list Chat),
    client s = Some c ->
    result_of (isConnected s) = Ok true ->
    getChats c = Ok chats ->
    exists t,
      getUnreadMessages s
      = (Ok (sort_by newest_first (flat_map unread_contribution chats)),
         state_of (isConnected s), GetChats :: t).
Proof.
  intros s c chats Hc Hconn Hchats.
  rewrite getUnreadMessages_guarded.
  match goal with
  | |- context [guarded ?f s] =>
      destruct (guarded_connected f s Hconn) as (c' & Hc' & ->)
  end.
  rewrite Hc in Hc'. injection Hc' as <-.
  unfold try_catch, bind, call, with_local. rewrite Hchats. simpl.
  destruct (unread_loop chats (state_of (isConnected s)) []) as [t ->].
  simpl. eexists. reflexivity.
Qed.

Lemma unread_entries_In :
  forall (chat : Chat) (l : list Message) (m : Message) (i : string),
    Forall (fun m' => msg_id m' <> None) l ->
    In m l -> msg_id m = Some i ->
    In (unread_entry chat m i) (unread_entries chat l).
Proof.
  intros chat l m i H. induction H as [|m' l Hm' Hl IH]; simpl.
  - tauto.
  - intros [->|Hin] Hi.
    + rewrite Hi. now left.
    + destruct (msg_id m') as [i'|]; [|congruence].
      right. now apply IH.
Qed.

(** C9.  With the guard passed and the chat list at hand,
    [getUnreadMessages] returns a list whatever happens chat by chat: a
    chat whose fetch or whose processing fails is skipped, and every chat
    [B] with unread messages whose own fetch succeeds (its messages
    having ids) has each of its unread messages in the result, whichever
    other chats fail.  The result holds what the chats contribute and
    nothing else, and it is sorted newest first when its dates are
    valid. *)
Theorem C9_unread_survives_broken_chats :
  forall (s : Service) (c : Client) (chats : list Chat),
    client s = Some c ->
    result_of (isConnected s) = Ok true ->
    getChats c = Ok chats ->
    exists (res : list WhatsAppMessage) (s' : Service) (t : list Effect),
      getUnreadMessages s = (Ok res, s', t)
      /\ Permutation res (flat_map unread_contribution chats)
      /\ (valid_dates res -> newest_first_order res)
      /\ forall (B : Chat) (msgs : list Message),
           In B chats ->
           (0 < chat_unreadCount B)%Z ->
           chat_fetchMessages B (chat_unreadCount B) = Ok msgs ->
           Forall (fun m => msg_id m <> None)
                  (slice0 msgs (chat_unreadCount B)) ->
           forall (m : Message) (i : string),
             In m (slice0 msgs (chat_unreadCount B)) ->
             msg_id m = Some i ->
             In (unread_entry B m i) res.
Proof.
  intros s c chats Hc Hconn Hchats.
  destruct (getUnreadMessages_spec s c chats Hc Hconn Hchats) as [t E].
  eexists _, _, _. split; [exact E|]. split; [apply sort_by_perm|].
  split; [apply sorted_valid_dates|].
  intros B msgs HB Hu Hf Hids m i Hm Hi.
  apply sort_by_In. apply in_flat_map. exists B. split; [exact HB|].
  unfold unread_contribution.
  apply Z.ltb_lt in Hu. rewrite Hu, Hf.
  now apply unread_entries_In.
Qed.

Lemma C9_unread_survives_broken_chats_witness :
  exists (res : list WhatsAppMessage) (s' : Service) (t : list Effect),
    getUnreadMessages (mkService (Some two_chat_client) true true None)
    = (Ok res, s', t)
    /\ newest_first_order res
    /\ In (unread_entry healthy_chat (plain_message "m1" "hello" 100) "m1")
          res
    /\ In (unread_entry healthy_chat
             (plain_message "m2" "are you there" 200) "m2") res.
Proof.
  destruct (C9_unread_survives_broken_chats
              (mkService (Some two_chat_client) true true None)
              two_chat_client [broken_chat; healthy_chat]
              eq_refl eq_refl eq_refl)
    as (res & s' & t & E & _ & Hs & H).
  exists res, s', t. split; [exact E|]. split.
  { apply Hs. vm_compute in E. injection E as <- _ _.
    repeat constructor. }
  assert (Hids : Forall (fun m => msg_id m <> None)
                   (slice0 [plain_message "m1" "hello" 100;
                            plain_message "m2" "are you there" 200] 2)).
  { repeat constructor; discriminate. }
  split.
  - apply (H healthy_chat _ (or_intror (or_introl eq_refl)) eq_refl eq_refl
             Hids _ _ (or_introl eq_refl) eq_refl).
  - apply (H healthy_chat _ (or_intror (or_introl eq_refl)) eq_refl eq_refl
             Hids _ _ (or_intror (or_introl eq_refl)) eq_refl).
Defined.

(** ** [getRecentMessages], chat by chat *)

Lemma subseq_length :
  forall {A : Type} (l1 l2 : list A),
    subseq l1 l2 -> List.length l1 <= List.length l2.
Proof. intros A l1 l2 H. induction H; simpl; lia. Qed.

Lemma subseq_empty :
  forall {A : Type} (l : list A), subseq [] l.
Proof. intros A l. induction l; constructor; assumption. Qed.

Lemma subseq_In :
  forall {A : Type} (l1 l2 : list A) (x : A),
    subseq l1 l2 -> In x l1 -> In x l2.
Proof.
  intros A l1 l2 x H. induction H; simpl; [tauto| |]; intuition.
Qed.

Lemma recent_chat_body_run :
  forall (contactName : option string) (chat : Chat) (s : Service)
         (acc : list WhatsAppMessage),
    recent_chat_body contactName chat (s, acc)
    = if other_contact contactName chat then (Ok tt, (s, acc), [])
      else
        match chat_fetchMessages chat 1 with
        | Throw e => (Throw e, (s, acc), [fetch_one chat])
        | Ok [] => (Ok tt, (s, acc), [fetch_one chat])
        | Ok (m :: _) =>
            match msg_id m with
            | Some i =>
                (Ok tt, (s, (acc ++ [recent_entry chat m i])%list),
                 [fetch_one chat])
            | None =>
                (Throw (Some "Cannot read properties of undefined (reading 'id')"),
                 (s, acc), [fetch_one chat])
            end
        end.
Proof.
  intros cn chat s acc. unfold recent_chat_body.
  destruct (other_contact cn chat); [reflexivity|].
  unfold bind, lift, call, access, read_id, push, get_local, set_local,
    fetch_one.
  simpl.
  destruct (chat_fetchMessages chat 1) as [[|m ms]|e]; try reflexivity.
  destruct (msg_id m); reflexivity.
Qed.

(** The loop of [getRecentMessages] over [chats]: it fetches one message
    from some of the chats, in their order, and pushes at most one entry
    for each chat it fetched from. *)
Lemma recent_loop :
  forall (contactName : option string) (chats : list Chat) (s : Service)
         (acc : list WhatsAppMessage) (r : Outcome unit)
         (st : Service * list WhatsAppMessage) (tr : list Effect),
    for_each chats (recent_chat_body contactName) (s, acc) = (r, st, tr) ->
    exists (fetched : list Chat) (picked : list Pick),
      subseq fetched chats
      /\ tr = map fetch_one fetched
      /\ subseq (map pick_chat picked) fetched
      /\ Forall first_of_fetch picked
      /\ st = (s, (acc ++ map pick_entry picked)%list).
Proof.
  intros cn chats. induction chats as [|chat chats IH];
    intros s acc r st tr; cbn [for_each].
  - unfold ret. intros [= <- <- <-]. exists [], [].
    repeat split; try constructor. simpl. now rewrite app_nil_r.
  - unfold bind. rewrite recent_chat_body_run.
    destruct (other_contact cn chat).
    { destruct (for_each chats (recent_chat_body cn) (s, acc))
        as [[r2 st2] t2] eqn:E.
      intros [= <- <- <-].
      destruct (IH _ _ _ _ _ E) as (f & p & Hf & Ht & Hp & Hfirst & Hst).
      exists f, p. repeat split; try assumption. now constructor. }
    destruct (chat_fetchMessages chat 1) as [[|m ms]|e] eqn:Ef.
    + destruct (for_each chats (recent_chat_body cn) (s, acc))
        as [[r2 st2] t2] eqn:E.
      intros [= <- <- <-].
      destruct (IH _ _ _ _ _ E) as (f & p & Hf & Ht & Hp & Hfirst & Hst).
      exists (chat :: f), p. repeat split; try assumption.
      * now constructor.
      * simpl. now rewrite Ht.
      * now constructor.
    + destruct (msg_id m) as [i|] eqn:Ei.
      * destruct (for_each chats (recent_chat_body cn)
                    (s, (acc ++ [recent_entry chat m i])%list))
          as [[r2 st2] t2] eqn:E.
        intros [= <- <- <-].
        destruct (IH _ _ _ _ _ E) as (f & p & Hf & Ht & Hp & Hfirst & Hst).
        exists (chat :: f), ((chat, m, i) :: p). repeat split.
        -- now constructor.
        -- simpl. now rewrite Ht.
        -- simpl. now constructor.
        -- constructor; [|assumption]. exists ms. now split.
        -- rewrite Hst. simpl. now rewrite <- app_assoc.
      * intros [= <- <- <-]. exists [chat], []. repeat split.
        -- constructor. apply subseq_empty.
        -- apply subseq_empty.
        -- constructor.
        -- simpl. now rewrite app_nil_r.
    + intros [= <- <- <-]. exists [chat], []. repeat split.
      * constructor. apply subseq_empty.
      * apply subseq_empty.
      * constructor.
      * simpl. now rewrite app_nil_r.
Qed.

Lemma getRecentMessages_not_ready :
  forall (s : Service) (contactName : option string) (limit : Z),
    isReady s = false ->
    getRecentMessages contactName limit s
    = (Throw not_connected_error, s, []).
Proof.
  intros [[c|] rdy auth qr] cn limit H; simpl in H; subst rdy; reflexivity.
Qed.

Lemma getRecentMessages_ready :
  forall (s : Service) (c : Client) (chats : list Chat)
         (contactName : option string) (limit : Z),
    client s = Some c ->
    isReady s = true ->
    getChats c = Ok chats ->
    getRecentMessages contactName limit s
    = match for_each (slice0 chats limit) (recent_chat_body contactName)
              (s, []) with
      | (Ok _, st, tr) =>
          (Ok (slice0 (sort_by newest_first (snd st)) limit), fst st,
           GetChats :: tr)
      | (Throw e, st, tr) =>
          (Throw e, after_error e (fst st), GetChats :: tr)
      end.
Proof.
  intros [cl rdy auth qr] c chats cn limit Hc Hr Hchats. simpl in Hc, Hr.
  subst cl rdy.
  unfold getRecentMessages, bind, get, try_catch, call, with_local.
  simpl. rewrite Hchats.
  destruct (for_each (slice0 chats limit) (recent_chat_body cn)
              (mkService (Some c) true auth qr, []))
    as [[[[]|e] [s1 l1]] tr]; simpl.
  - now rewrite app_nil_r.
  - unfold reset_on_connection_error, after_error, throw, modify, bind, ret.
    destruct (message_includes e "not connected"
              || message_includes e "Session"); simpl;
      now rewrite ?app_nil_r.
Qed.

(** The runs of [getRecentMessages] on a service whose client answers
    [getChats] with [chats]. *)
Lemma getRecentMessages_run :
  forall (s : Service) (c : Client) (chats : list Chat)
         (contactName : option string) (limit : Z),
    client s = Some c ->
    getChats c = Ok chats ->
    (isReady s = false
     /\ getRecentMessages contactName limit s
        = (Throw not_connected_error, s, []))
    \/ (isReady s = true
        /\ exists (fetched : list Chat) (picked : list Pick),
             subseq fetched (slice0 chats limit)
             /\ trace_of (getRecentMessages contactName limit s)
                = GetChats :: map fetch_one fetched
             /\ subseq (map pick_chat picked) fetched
             /\ Forall first_of_fetch picked
             /\ forall res,
                  result_of (getRecentMessages contactName limit s) = Ok res
                  -> res = slice0 (sort_by newest_first
                                     (map pick_entry picked)) limit).
Proof.
  intros s c chats cn limit Hc Hchats.
  destruct (isReady s) eqn:Hr.
  2: { left. split; [reflexivity|]. now apply getRecentMessages_not_ready. }
  right. split; [reflexivity|].
  rewrite (getRecentMessages_ready s c chats cn limit Hc Hr Hchats).
  destruct (for_each (slice0 chats limit) (recent_chat_body cn) (s, []))
    as [[r st] tr] eqn:E.
  destruct (recent_loop _ _ _ _ _ _ _ E)
    as (f & p & Hf & Ht & Hp & Hfirst & Hst).
  exists f, p. subst st tr.
  destruct r as [u|e]; unfold trace_of, result_of; simpl;
    repeat split; try assumption.
  - now intros res [= <-].
  - discriminate.
Qed.

(** C10.  On a service whose client answers [getChats] with [chats], and
    for a limit that is a count, [getRecentMessages(contactName, limit)]
    either refuses without a call on the client (the session not ready) or
    calls [getChats] and then fetches, one message each
    ([fetchMessages({ limit: 1 })]), from chats among the first [limit] of
    [chats], in their order and each at most once.  A result it returns
    is made of at most one message, the first of that fetch, for each of
    the chats fetched from, so it holds at most [limit] messages. *)
Theorem C10_recent_one_message_per_chat :
  forall (s : Service) (c : Client) (chats : list Chat)
         (contactName : option string) (limit : Z),
    client s = Some c ->
    getChats c = Ok chats ->
    (0 <= limit)%Z ->
    exists fetched : list Chat,
      subseq fetched (firstn (Z.to_nat limit) chats)
      /\ (trace_of (getRecentMessages contactName limit s) = []
          \/ trace_of (getRecentMessages contactName limit s)
             = GetChats :: map fetch_one fetched)
      /\ forall res : list WhatsAppMessage,
           result_of (getRecentMessages contactName limit s) = Ok res ->
           exists picked : list Pick,
             subseq (map pick_chat picked) fetched
             /\ Forall first_of_fetch picked
             /\ Permutation res (map pick_entry picked)
             /\ (Z.of_nat (List.length res) <= limit)%Z.
Proof.
  intros s c chats cn limit Hc Hchats Hl.
  destruct (getRecentMessages_run s c chats cn limit Hc Hchats)
    as [[_ E]|[_ (f & p & Hf & Ht & Hp & Hfirst & Hres)]].
  - exists []. split; [apply subseq_empty|]. rewrite E.
    split; [now left|]. unfold result_of. simpl. discriminate.
  - rewrite slice0_firstn in Hf by exact Hl.
    exists f. split; [exact Hf|]. split; [now right|].
    intros res Hok. exists p. split; [exact Hp|]. split; [exact Hfirst|].
    rewrite (Hres res Hok).
    assert (Hlen : (Z.of_nat (List.length (map pick_entry p)) <= limit)%Z).
    { rewrite length_map.
      apply subseq_length in Hp. apply subseq_length in Hf.
      rewrite length_map in Hp. rewrite length_firstn in Hf. lia. }
    rewrite slice0_all by (rewrite sort_by_length; exact Hlen).
    split; [apply sort_by_perm|].
    rewrite sort_by_length. exact Hlen.
Qed.

(** With limit 2 only the first two chats are asked, for one message
    each, and each gives one message. *)
Example recent_of_three_chats :
  getRecentMessages None 2 three_chat_service
  = (Ok [recent_entry busy_chat (plain_message "c3" "third" 300) "c3";
         recent_entry healthy_chat (plain_message "m1" "hello" 100) "m1"],
     three_chat_service,
     [GetChats; fetch_one busy_chat; fetch_one healthy_chat]).
Proof. vm_compute. reflexivity. Qed.

Lemma C10_recent_one_message_per_chat_witness :
  exists fetched : list Chat,
    subseq fetched (firstn (Z.to_nat 2) [busy_chat; healthy_chat; broken_chat])
    /\ (trace_of (getRecentMessages None 2 three_chat_service) = []
        \/ trace_of (getRecentMessages None 2 three_chat_service)
           = GetChats :: map fetch_one fetched)
    /\ forall res : list WhatsAppMessage,
         result_of (getRecentMessages None 2 three_chat_service) = Ok res ->
         exists picked : list Pick,
           subseq (map pick_chat picked) fetched
           /\ Forall first_of_fetch picked
           /\ Permutation res (map pick_entry picked)
           /\ (Z.of_nat (List.length res) <= 2)%Z.
Proof.
  apply (C10_recent_one_message_per_chat three_chat_service
           three_chat_client [busy_chat; healthy_chat; broken_chat] None 2);
    [reflexivity|reflexivity|lia].
Defined.

(** ** Order and size of the listings *)

Lemma getUnreadMessages_sorted :
  forall (s s' : Service) (res : list WhatsAppMessage) (t : list Effect),
    getUnreadMessages s = (Ok res, s', t) ->
    valid_dates res -> newest_first_order res.
Proof.
  intros s s' res t. rewrite getUnreadMessages_guarded.
  unfold guarded, bind at 1, get. simpl.
  destruct (client s) as [c|]; [|discriminate].
  unfold bind at 1.
  destruct (isConnected s) as [[[b|e] s1] t1]; [|discriminate].
  destruct b; simpl; [|discriminate].
  unfold try_catch, bind, call, with_local.
  destruct (getChats c) as [chats|e]; simpl.
  - destruct (unread_loop chats s1 []) as [t2 ->]. simpl.
    intros [= <- _ _]. apply sorted_valid_dates.
  - unfold reset_on_connection_error, throw, modify, bind, ret.
    destruct (message_includes e "not connected"
              || message_includes e "Session"); simpl; discriminate.
Qed.

Lemma getRecentMessages_result :
  forall (s s' : Service) (contactName : option string) (limit : Z)
         (res : list WhatsAppMessage) (t : list Effect),
    getRecentMessages contactName limit s = (Ok res, s', t) ->
    exists l, res = slice0 (sort_by newest_first l) limit.
Proof.
  intros s s' cn limit res t.
  destruct (isReady s) eqn:Hr.
  2: { rewrite getRecentMessages_not_ready by exact Hr. discriminate. }
  destruct (client s) as [c|] eqn:Hc.
  2: { destruct s as [cl rdy auth qr]. simpl in Hc. subst cl. discriminate. }
  destruct (getChats c) as [chats|e] eqn:Hchats.
  - rewrite (getRecentMessages_ready s c chats cn limit Hc Hr Hchats).
    destruct (for_each (slice0 chats limit) (recent_chat_body cn) (s, []))
      as [[[u|e] st] tr]; [|discriminate].
    intros [= <- _ _]. now exists (snd st).
  - destruct s as [cl rdy auth qr]. simpl in Hc, Hr. subst cl rdy.
    unfold getRecentMessages, bind, get, try_catch, call. simpl.
    rewrite Hchats.
    unfold reset_on_connection_error, throw, modify, bind, ret.
    destruct (message_includes e "not connected"
              || message_includes e "Session"); simpl; discriminate.
Qed.

(** For a limit that is a count the loop of [getRecentMessages]
    pushes no more than [limit] entries, so the closing [slice] cuts
    nothing off the sorted list. *)
Lemma getRecentMessages_whole :
  forall (s s' : Service) (contactName : option string) (limit : Z)
         (res : list WhatsAppMessage) (t : list Effect),
    getRecentMessages contactName limit s = (Ok res, s', t) ->
    (0 <= limit)%Z ->
    exists l, res = sort_by newest_first l
              /\ (Z.of_nat (List.length l) <= limit)%Z.
Proof.
  intros s s' cn limit res t H Hl.
  destruct (isReady s) eqn:Hr.
  2: { rewrite getRecentMessages_not_ready in H by exact Hr.
       discriminate. }
  destruct (client s) as [c|] eqn:Hc.
  2: { destruct s as [cl rdy auth qr]. simpl in Hc. subst cl.
       discriminate. }
  destruct (getChats c) as [chats|e] eqn:Hchats.
  - rewrite (getRecentMessages_ready s c chats cn limit Hc Hr Hchats) in H.
    destruct (for_each (slice0 chats limit) (recent_chat_body cn) (s, []))
      as [[[u|e] st] tr] eqn:E; [|discriminate].
    destruct (recent_loop _ _ _ _ _ _ _ E)
      as (f & p & Hf & _ & Hp & _ & Hst).
    injection H as <- _ _. subst st. simpl.
    assert (Hlen : (Z.of_nat (List.length (map pick_entry p)) <= limit)%Z).
    { rewrite length_map.
      apply subseq_length in Hp. apply subseq_length in Hf.
      rewrite length_map in Hp.
      pose proof (slice0_length chats limit Hl). lia. }
    exists (map pick_entry p). split; [|exact Hlen].
    apply slice0_all. now rewrite sort_by_length.
  - destruct s as [cl rdy auth qr]. simpl in Hc, Hr. subst cl rdy.
    revert H. unfold getRecentMessages, bind, get, try_catch, call. simpl.
    rewrite Hchats.
    unfold reset_on_connection_error, throw, modify, bind, ret.
    destruct (message_includes e "not connected"
              || message_includes e "Session"); simpl; discriminate.
Qed.

Lemma map_messages_mirror :
  forall (chatName : string) (group : bool) (msgs : list Message)
         (res : list WhatsAppMessage),
    map_messages chatName group msgs = Ok res ->
    map timestamp res = map (fun m => (msg_timestamp m * 1000)%Z) msgs
    /\ map body res = map msg_body msgs
    /\ List.length res = List.length msgs.
Proof.
  intros cn g msgs. induction msgs as [|m msgs IH]; intros res; simpl.
  - intros [= <-]. repeat split.
  - unfold read_id. destruct (msg_id m) as [i|]; [|discriminate].
    destruct (map_messages cn g msgs) as [rest|e]; [|discriminate].
    intros [= <-]. destruct (IH rest eq_refl) as (H1 & H2 & H3).
    simpl. now rewrite H1, H2, H3.
Qed.

Lemma getMessagesFromContact_result :
  forall (s s' : Service) (contactName : string) (limit : Z)
         (res : list WhatsAppMessage) (t : list Effect),
    getMessagesFromContact contactName limit s = (Ok res, s', t) ->
    exists (chat : Chat) (msgs : list Message),
      In (FetchMessages (chat_id_serialized chat) limit) t
      /\ chat_fetchMessages chat limit = Ok msgs
      /\ map_messages (or_else (chat_name chat) contactName)
                      (chat_isGroup chat) msgs = Ok res.
Proof.
  intros s s' n limit res t. rewrite getMessagesFromContact_guarded.
  unfold guarded, bind at 1, get. simpl.
  destruct (client s) as [c|]; [|discriminate].
  unfold bind at 1.
  destruct (isConnected s) as [[[b|e] s1] t1]; [|discriminate].
  destruct b; simpl; [|discriminate].
  unfold try_catch, bind at 1.
  destruct (find_target_chat c n s1) as [[[chat|e] s2] t2]; simpl.
  2: { unfold throw. discriminate. }
  unfold bind, call, access.
  destruct (chat_fetchMessages chat limit) as [msgs|e] eqn:Ef; simpl.
  2: { unfold throw. discriminate. }
  destruct (map_messages (or_else (chat_name chat) n) (chat_isGroup chat)
              msgs) as [r|e] eqn:Em; simpl.
  2: { unfold throw. discriminate. }
  intros [= <- _ <-]. exists chat, msgs. split; [|now split].
  apply in_or_app. right. apply in_or_app. right. simpl. now left.
Qed.

(** C5, the claim refuted: asked for the messages of Bob, whose chat the
    client answers oldest first, [getMessagesFromContact] returns them
    oldest first. *)
Lemma C5_counterexample :
  exists res : list WhatsAppMessage,
    result_of (getMessagesFromContact "bob" 10
                 (mkService (Some two_chat_client) true true None))
    = Ok res
    /\ map timestamp res = [100000; 200000]%Z
    /\ ~ newest_first_order res.
Proof.
  eexists. split; [vm_compute; reflexivity|]. split; [reflexivity|].
  intros H. inversion H as [|a l Hl Ha]; subst.
  inversion Ha as [|b l' Hb _]; subst. simpl in Hb. lia.
Qed.

(** With an Invalid Date among them the messages can stay out of
    order: the comparator answers NaN for every pair that holds it, and
    here the three unread messages of a chat come back as the client
    gave them, the oldest first. *)
Example invalid_date_leaves_order :
  exists res : list WhatsAppMessage,
    result_of (getUnreadMessages odd_service) = Ok res
    /\ map timestamp res = [100000; 9000000000000000; 200000]%Z
    /\ ~ valid_dates res
    /\ ~ newest_first_order res.
Proof.
  eexists. split; [vm_compute; reflexivity|]. split; [reflexivity|].
  split.
  - intros H. inversion H as [|a l _ Hl]; subst.
    inversion Hl as [|b l' Hb _]; subst. discriminate Hb.
  - intros H. inversion H as [|a l Hl Ha]; subst.
    inversion Ha as [|b l' Hb _]; subst. simpl in Hb. lia.
Qed.

(** C5, amended.  A list that [getUnreadMessages] returns, and a list
    that [getRecentMessages] returns for a limit that is a count, is
    sorted by timestamp, newest first, when the dates in it are valid;
    with an Invalid Date in it (a timestamp missing or out of range) the
    comparator answers NaN and no order is promised.  A list that
    [getRecentMessages] returns for a limit that is a count holds at most
    [limit] messages.  A list that [getMessagesFromContact] returns is
    the answer of the client to [fetchMessages({ limit })] on the chat
    found, message by message in the order of the client: it is neither
    sorted nor cut by the service. *)
Theorem C5_listing_order :
  (forall (s s' : Service) (res : list WhatsAppMessage) (t : list Effect),
      getUnreadMessages s = (Ok res, s', t) ->
      valid_dates res -> newest_first_order res)
  /\ (forall (s s' : Service) (contactName : option string) (limit : Z)
             (res : list WhatsAppMessage) (t : list Effect),
        getRecentMessages contactName limit s = (Ok res, s', t) ->
        (0 <= limit)%Z ->
        (valid_dates res -> newest_first_order res)
        /\ (Z.of_nat (List.length res) <= limit)%Z)
  /\ (forall (s s' : Service) (contactName : string) (limit : Z)
             (res : list WhatsAppMessage) (t : list Effect),
        getMessagesFromContact contactName limit s = (Ok res, s', t) ->
        exists (chat : Chat) (msgs : list Message),
          In (FetchMessages (chat_id_serialized chat) limit) t
          /\ chat_fetchMessages chat limit = Ok msgs
          /\ map timestamp res
             = map (fun m => (msg_timestamp m * 1000)%Z) msgs
          /\ map body res = map msg_body msgs
          /\ List.length res = List.length msgs).
Proof.
  split; [exact getUnreadMessages_sorted|]. split.
  - intros s s' cn limit res t H Hl.
    destruct (getRecentMessages_whole _ _ _ _ _ _ H Hl) as (l & -> & Hlen).
    split.
    + apply sorted_valid_dates.
    + now rewrite sort_by_length.
  - intros s s' n limit res t H.
    destruct (getMessagesFromContact_result _ _ _ _ _ _ H)
      as (chat & msgs & Hin & Hf & Hm).
    exists chat, msgs. split; [exact Hin|]. split; [exact Hf|].
    eapply map_messages_mirror. exact Hm.
Qed.

Lemma C5_listing_order_witness :
  (exists res : list WhatsAppMessage,
      result_of (getUnreadMessages two_chat_service) = Ok res
      /\ valid_dates res
      /\ newest_first_order res)
  /\ (exists res : list WhatsAppMessage,
        result_of (getRecentMessages None 2 three_chat_service) = Ok res
        /\ valid_dates res
        /\ newest_first_order res
        /\ (Z.of_nat (List.length res) <= 2)%Z)
  /\ (exists (res : list WhatsAppMessage) (chat : Chat) (msgs : list Message),
        result_of (getMessagesFromContact "bob" 10 two_chat_service) = Ok res
        /\ chat_fetchMessages chat 10 = Ok msgs
        /\ map timestamp res
           = map (fun m => (msg_timestamp m * 1000)%Z) msgs).
Proof.
  split; [|split].
  - eexists. split; [vm_compute; reflexivity|].
    assert (Hv : valid_dates
                   [unread_entry healthy_chat
                      (plain_message "m2" "are you there" 200) "m2";
                    unread_entry healthy_chat
                      (plain_message "m1" "hello" 100) "m1"])
      by (repeat constructor).
    split; [exact Hv|].
    refine (proj1 C5_listing_order two_chat_service two_chat_service _
              [GetChats; FetchMessages "alice@c.us" 3;
               FetchMessages "bob@c.us" 2] _ Hv).
    vm_compute. reflexivity.
  - eexists. split; [vm_compute; reflexivity|].
    assert (Hv : valid_dates
                   [recent_entry busy_chat
                      (plain_message "c3" "third" 300) "c3";
                    recent_entry healthy_chat
                      (plain_message "m1" "hello" 100) "m1"])
      by (repeat constructor).
    split; [exact Hv|].
    assert (H := proj1 (proj2 C5_listing_order) three_chat_service
                   _ None 2%Z _ _ recent_of_three_chats ltac:(lia)).
    split; [exact (proj1 H Hv)|exact (proj2 H)].
  - destruct (proj2 (proj2 C5_listing_order) two_chat_service
                two_chat_service "bob" 10%Z
                [contact_entry "Bob" false (plain_message "m1" "hello" 100)
                   "m1";
                 contact_entry "Bob" false
                   (plain_message "m2" "are you there" 200) "m2"]
                [GetChats; FetchMessages "bob@c.us" 10] eq_refl)
      as (chat & msgs & _ & Hf & Ht & _).
    eexists _, chat, msgs. split; [vm_compute; reflexivity|].
    split; [exact Hf|exact Ht].
Defined.

(** ** [initialize]: bounded polling *)

Lemma count_sleeps_app :
  forall t1 t2 : list Effect,
    count_sleeps (t1 ++ t2) = count_sleeps t1 + count_sleeps t2.
Proof.
  induction t1 as [|e t1 IH]; intros t2; simpl; [reflexivity|].
  destruct e; simpl; rewrite IH; reflexivity.
Qed.

Lemma count_sleeps_repeat :
  forall k : nat, count_sleeps (repeat (Sleep 1000) k) = k.
Proof. induction k; simpl; congruence. Qed.

Section InitializeProofs.

Variable during : nat -> Service -> Service.
Variable newClient : Client.

(** A run of the loop: it sleeps [k <= n] times, one second each, and
    either it has used its [n] iterations without seeing the session
    settle, or it returns the snapshot of the first settled state. *)
Lemma poll_run :
  forall (n t : nat) (s : Service),
    exists k : nat,
      k <= n
      /\ (forall j, 1 <= j < k -> settled (after_ticks during t j s) = false)
      /\ ((k = n
           /\ (1 <= n -> settled (after_ticks during t n s) = false)
           /\ poll during n t s
              = (Ok None, after_ticks during t n s, repeat (Sleep 1000) n))
          \/ (1 <= k
              /\ settled (after_ticks during t k s) = true
              /\ poll during n t s
                 = (Ok (Some (snapshot (after_ticks during t k s))),
                    after_ticks during t k s, repeat (Sleep 1000) k))).
Proof.
  induction n as [|n IH]; intros t s.
  - exists 0. split; [lia|]. split; [intros j Hj; lia|].
    left. repeat split. intros H. lia.
  - cbn [poll]. unfold bind, awaited, get. simpl.
    destruct (isReady (during t s)) eqn:Hr.
    { exists 1. split; [lia|]. split; [intros j Hj; lia|].
      right. split; [lia|]. simpl. unfold settled, snapshot.
      rewrite Hr. simpl. split; reflexivity. }
    destruct (Js.truthy_opt (qrCode (during t s))) eqn:Hq.
    { exists 1. split; [lia|]. split; [intros j Hj; lia|].
      right. split; [lia|]. simpl. unfold settled, snapshot, or_undefined.
      rewrite Hr, Hq. simpl. split; reflexivity. }
    assert (Hu : settled (during t s) = false).
    { unfold settled. now rewrite Hr, Hq. }
    destruct (IH (S t) (during t s))
      as (k & Hk & Hbefore & [(-> & Hlast & E)|(Hk1 & Hs & E)]).
    + exists (S n). split; [lia|]. split.
      { intros j Hj. destruct j as [|j]; [lia|]. simpl.
        destruct j as [|j]; [exact Hu|]. apply Hbefore. lia. }
      left. split; [reflexivity|]. split.
      { intros _. simpl. destruct n as [|n]; [exact Hu|]. apply Hlast. lia. }
      rewrite E. reflexivity.
    + exists (S k). split; [lia|]. split.
      { intros j Hj. destruct j as [|j]; [lia|]. simpl.
        destruct j as [|j]; [exact Hu|]. apply Hbefore. lia. }
      right. split; [lia|]. split; [exact Hs|].
      rewrite E. reflexivity.
Qed.



Lemma isClientInitialized_run :
  forall s : Service,
    exists b : bool, isClientInitialized s = (Ok b, s, []).
Proof.
  intros s. unfold isClientInitialized, bind, get. simpl.
  destruct (client s) as [c|]; [|now eexists].
  unfold try_catch, bind, access, ret.
  destruct (pupPage c) as [p|e]; simpl; [|now eexists].
  destruct (js_truthy p); simpl; [now eexists|].
  destruct (info c) as [v|e]; simpl; now eexists.
Qed.

Lemma poll_then_last_known :
  forall (n t : nat) (s : Service),
    bind (poll during n t)
         (fun p => match p with
                   | Some r => ret r
                   | None => last_known
                   end) s
    = conclude (poll during n t s).
Proof.
  intros n t s. unfold bind, conclude.
  destruct (poll during n t s) as [[[[r|]|e] s'] tr]; simpl;
    unfold last_known, bind, get, ret; simpl; now rewrite ?app_nil_r.
Qed.

(** A concluded run of the loop: at most [n] sleeps of one second, an
    [Ok] result, and that result is the snapshot of the final state. *)
Lemma conclude_poll :
  forall (n t : nat) (s : Service),
    1 <= n ->
    exists (k : nat) (s' : Service),
      k <= n
      /\ conclude (poll during n t s)
         = (Ok (snapshot s'), s', repeat (Sleep 1000) k).
Proof.
  intros n t s Hn.
  destruct (poll_run n t s)
    as (k & Hk & _ & [(-> & Hlast & E)|(Hk1 & Hs & E)]); rewrite E; simpl.
  - exists n, (after_ticks during t n s). split; [lia|].
    specialize (Hlast Hn). unfold settled in Hlast.
    apply orb_false_elim in Hlast. destruct Hlast as [Hr Hq].
    unfold snapshot. rewrite Hr. reflexivity.
  - exists k, (after_ticks during t k s). split; [lia|]. reflexivity.
Qed.

End InitializeProofs.

Section InitializePaths.

Variable during : nat -> Service -> Service.
Variable newClient : Client.

Ltac run_monad :=
  cbv beta iota delta [bind try_catch get ret throw modify awaited call
                       last_known conclude];
  cbn [app negb fst snd].

Lemma initialize_ready :
  forall (s : Service) (c : Client),
    client s = Some c ->
    isReady s = true ->
    initialize during newClient s = (Ok (mkInitResult None true), s, []).
Proof.
  intros s c Hc Hr. unfold initialize. run_monad.
  rewrite Hc, Hr. reflexivity.
Qed.

Lemma initialize_missing_client :
  forall s : Service,
    client s = None ->
    initialize during newClient s
    = (Throw (Some "WhatsApp client not initialized"), s, []).
Proof.
  intros s Hc. unfold initialize. run_monad. rewrite Hc. reflexivity.
Qed.

(** The client was not initialized and its [initialize()] succeeds:
    the stored QR code is dropped and the loop runs. *)
Lemma initialize_fresh :
  forall (s : Service) (c : Client),
    client s = Some c ->
    isReady s = false ->
    isClientInitialized s = (Ok false, s, []) ->
    client_initialize c = Ok tt ->
    initialize during newClient s
    = match conclude (poll during 20 1 (set_qrCode None (during 0 s))) with
      | (r, s', tr) => (r, s', Initialize :: tr)
      end.
Proof.
  intros s c Hc Hr Hi Hok. unfold initialize. run_monad.
  rewrite Hc, Hr, Hi. run_monad. rewrite Hok. run_monad.
  destruct (poll_run during 20 1 (set_qrCode None (during 0 s)))
    as (k & _ & _ & [(_ & _ & E)|(_ & _ & E)]); rewrite E; run_monad;
    rewrite ?app_nil_r; reflexivity.
Qed.

(** The client was initialized before: a stored QR code is returned
    at once, and the loop runs otherwise. *)
Lemma initialize_resumed :
  forall (s : Service) (c : Client),
    client s = Some c ->
    isReady s = false ->
    isClientInitialized s = (Ok true, s, []) ->
    initialize during newClient s
    = if Js.truthy_opt (qrCode s)
      then (Ok (mkInitResult (qrCode s) false), s, [])
      else conclude (poll during 20 1 s).
Proof.
  intros s c Hc Hr Hi. unfold initialize. run_monad.
  rewrite Hc, Hr, Hi. run_monad. rewrite Hr.
  destruct (Js.truthy_opt (qrCode s)); run_monad; [reflexivity|].
  destruct (poll_run during 20 1 s)
    as (k & _ & _ & [(_ & _ & E)|(_ & _ & E)]); rewrite E; run_monad;
    rewrite ?app_nil_r; reflexivity.
Qed.

Lemma recreate_run :
  forall s : Service,
    recreate during newClient s
    = match client_initialize newClient with
      | Ok _ =>
          match conclude (poll during 10 3 (during 2 (recreated during newClient s))) with
          | (r, s', tr) =>
              (r, s', (destroy_trace s ++ NewClient :: Initialize :: tr)%list)
          end
      | Throw e =>
          (Throw e, during 2 (recreated during newClient s),
           (destroy_trace s ++ [NewClient; Initialize])%list)
      end.
Proof.
  intros s. unfold recreate, recreated, destroy_trace. run_monad.
  destruct (client s) as [c|]; run_monad.
  - destruct (client_destroy c) as [[]|e]; run_monad;
      (destruct (client_initialize newClient) as [[]|e']; run_monad;
       [|reflexivity]);
      (destruct (poll_run during 10 3
                   (during 2 (set_client (Some newClient) (during 1 s))))
         as (k & _ & _ & [(_ & _ & E)|(_ & _ & E)]); rewrite E; run_monad;
       rewrite ?app_nil_r; reflexivity).
  - destruct (client_initialize newClient) as [[]|e']; run_monad;
      [|reflexivity].
    destruct (poll_run during 10 3
                (during 2 (set_client (Some newClient) s)))
      as (k & _ & _ & [(_ & _ & E)|(_ & _ & E)]); rewrite E; run_monad;
      rewrite ?app_nil_r; reflexivity.
Qed.

(** The client was not initialized and its [initialize()] throws. *)
Lemma initialize_failed :
  forall (s : Service) (c : Client) (e : JsError),
    client s = Some c ->
    isReady s = false ->
    isClientInitialized s = (Ok false, s, []) ->
    client_initialize c = Throw e ->
    initialize during newClient s
    = if bad_state e
      then match recreate during newClient (during 0 s) with
           | (r, s', tr) => (r, s', Initialize :: tr)
           end
      else (Throw e, during 0 s, [Initialize]).
Proof.
  intros s c e Hc Hr Hi Hf. unfold initialize, bad_state. run_monad.
  rewrite Hc, Hr, Hi. run_monad. rewrite Hf. run_monad.
  destruct (message_includes e "destroyed" || message_includes e "Session"
            || message_includes e "Target closed"); run_monad.
  - destruct (recreate during newClient (during 0 s)) as [[r s'] tr].
    reflexivity.
  - reflexivity.
Qed.

End InitializePaths.

(** The shape of every run of [initialize]: some calls on the client,
    then at most 20 sleeps of one second; it throws before the first
    sleep or not at all, and a result is the snapshot of the service as
    the run leaves it. *)
Lemma initialize_shape :
  forall (during : nat -> Service -> Service) (newClient : Client)
         (s : Service),
    exists (pre : list Effect) (k : nat),
      k <= 20
      /\ trace_of (initialize during newClient s)
         = (pre ++ repeat (Sleep 1000) k)%list
      /\ Forall client_effect pre
      /\ ((exists e, result_of (initialize during newClient s) = Throw e
                     /\ k = 0)
          \/ result_of (initialize during newClient s)
             = Ok (snapshot (state_of (initialize during newClient s)))).
Proof.
  intros during newClient s.
  destruct (client s) as [c|] eqn:Hc.
  2: { rewrite initialize_missing_client by exact Hc.
       exists [], 0. repeat split; [lia|constructor|left; now eexists]. }
  destruct (isReady s) eqn:Hr.
  { rewrite (initialize_ready during newClient s c Hc Hr).
    exists [], 0. repeat split; [lia|constructor|right].
    unfold result_of, state_of, snapshot. simpl. now rewrite Hr. }
  destruct (isClientInitialized_run s) as [[|] Hi].
  - rewrite (initialize_resumed during newClient s c Hc Hr Hi).
    destruct (Js.truthy_opt (qrCode s)) eqn:Hq.
    + exists [], 0. repeat split; [lia|constructor|right].
      unfold result_of, state_of, snapshot, or_undefined. simpl.
      now rewrite Hr, Hq.
    + destruct (conclude_poll during 20 1 s) as (k & s' & Hk & ->); [lia|].
      exists [], k. repeat split; [exact Hk|constructor|now right].
  - destruct (client_initialize c) as [[]|e] eqn:Hinit.
    + rewrite (initialize_fresh during newClient s c Hc Hr Hi Hinit).
      destruct (conclude_poll during 20 1 (set_qrCode None (during 0 s)))
        as (k & s' & Hk & ->); [lia|].
      exists [Initialize], k. repeat split; [exact Hk| |now right].
      repeat constructor.
    + rewrite (initialize_failed during newClient s c e Hc Hr Hi Hinit).
      destruct (bad_state e).
      2: { exists [Initialize], 0. repeat split; [lia| |left; now eexists].
           repeat constructor. }
      rewrite recreate_run.
      assert (Hd : Forall client_effect
                     (Initialize :: destroy_trace (during 0 s)
                      ++ [NewClient; Initialize])%list).
      { unfold destroy_trace.
        destruct (client (during 0 s)); repeat constructor;
          unfold client_effect; tauto. }
      destruct (client_initialize newClient) as [[]|e'].
      * destruct (conclude_poll during 10 3
                    (during 2 (recreated during newClient (during 0 s))))
          as (k & s' & Hk & ->); [lia|].
        exists (Initialize :: destroy_trace (during 0 s)
                ++ [NewClient; Initialize])%list, k.
        repeat split; [lia| |exact Hd|now right].
        unfold trace_of. simpl. now rewrite <- app_assoc.
      * exists (Initialize :: destroy_trace (during 0 s)
                ++ [NewClient; Initialize])%list, 0.
        repeat split; [lia| |exact Hd|left; now eexists].
        unfold trace_of. simpl. now rewrite app_nil_r.
Qed.




(* ================================================================== *)
(** * Further properties of the modelled code                           *)
(* ================================================================== *)

(** ** The matcher is sound *)

Section MatcherSoundness.
Import Regex.

Lemma append_empty_r : forall s : string, s ++ EmptyString = s.
Proof. induction s as [|c s IH]; simpl; congruence. Qed.

Lemma append_assoc_s :
  forall a b c : string, (a ++ b) ++ c = a ++ (b ++ c).
Proof.
  induction a as [|x a IH]; intros b c; simpl; [|rewrite IH]; reflexivity.
Qed.

Lemma length_append_s :
  forall a b : string,
    String.length (a ++ b) = String.length a + String.length b.
Proof.
  induction a as [|x a IH]; intros b; simpl; [|rewrite IH]; reflexivity.
Qed.

(** Soundness of the matcher: a successful run of [r] has taken some
    characters [u] that [r] matches and has handed the rest to its
    continuation. *)
Lemma run_sound :
  forall (r : re) (pos : nat) (s : string) (caps : captures)
         (k : nat -> string -> captures -> outcome) (x : nat * captures),
    run r pos s caps k = Some x ->
    exists (u s' : string) (caps' : captures),
      s = u ++ s'
      /\ sem r pos u s'
      /\ k (pos + String.length u) s' caps' = Some x.
Proof.
  induction r as [|p|r1 IH1 r2 IH2|r1 IH1 r2 IH2|r IH|r IH|i r IH| |];
    intros pos s caps k x H; cbn [run] in H.
  - exists EmptyString, s, caps. simpl. rewrite Nat.add_0_r.
    repeat split; [constructor|exact H].
  - destruct s as [|c s]; [discriminate|].
    destruct (p c) eqn:Hp; [|discriminate].
    exists (String c EmptyString), s, caps. simpl.
    rewrite Nat.add_1_r. repeat split; [now constructor|exact H].
  - apply IH1 in H. destruct H as (u1 & s1 & c1 & -> & S1 & H).
    apply IH2 in H. destruct H as (u2 & s2 & c2 & -> & S2 & H).
    exists (u1 ++ u2), s2, c2. rewrite append_assoc_s, length_append_s.
    rewrite Nat.add_assoc. repeat split; [|exact H]. now constructor.
  - destruct (run r1 pos s caps k) as [y|] eqn:E.
    + injection H as <-. apply IH1 in E.
      destruct E as (u & s' & c' & -> & S1 & E).
      exists u, s', c'. repeat split; [now apply sem_or_l|exact E].
    + apply IH2 in H. destruct H as (u & s' & c' & -> & S2 & H).
      exists u, s', c'. repeat split; [now apply sem_or_r|exact H].
  - remember (String.length s) as n eqn:Hn in H. clear Hn.
    revert pos s caps H. induction n as [|n IHn]; intros pos s caps H.
    + exists EmptyString, s, caps. simpl. rewrite Nat.add_0_r.
      repeat split; [constructor|exact H].
    + match type of H with
      | match ?t with _ => _ end = _ => destruct t as [y|] eqn:E
      end.
      * injection H as <-. apply IH in E.
        destruct E as (u1 & s1 & c1 & -> & S1 & E).
        destruct (Nat.ltb pos (pos + String.length u1)); [|discriminate].
        apply IHn in E. destruct E as (u2 & s2 & c2 & -> & S2 & E).
        exists (u1 ++ u2), s2, c2. rewrite append_assoc_s, length_append_s.
        rewrite Nat.add_assoc. repeat split; [|exact E].
        now apply sem_star_more.
      * exists EmptyString, s, caps. simpl. rewrite Nat.add_0_r.
        repeat split; [constructor|exact H].
  - remember (String.length s) as n eqn:Hn in H. clear Hn.
    revert pos s caps H. induction n as [|n IHn]; intros pos s caps H.
    + exists EmptyString, s, caps. simpl. rewrite Nat.add_0_r.
      repeat split; [constructor|exact H].
    + destruct (k pos s caps) as [y|] eqn:E.
      * injection H as <-. exists EmptyString, s, caps. simpl.
        rewrite Nat.add_0_r. repeat split; [constructor|exact E].
      * apply IH in H. destruct H as (u1 & s1 & c1 & -> & S1 & H).
        destruct (Nat.ltb pos (pos + String.length u1)); [|discriminate].
        apply IHn in H. destruct H as (u2 & s2 & c2 & -> & S2 & H).
        exists (u1 ++ u2), s2, c2. rewrite append_assoc_s, length_append_s.
        rewrite Nat.add_assoc. repeat split; [|exact H].
        now apply sem_lazy_more.
  - apply IH in H. destruct H as (u & s' & c' & -> & S1 & H).
    exists u, s', (set i (pos, pos + String.length u) c').
    repeat split; [now constructor|exact H].
  - destruct (Nat.eqb pos 0) eqn:E; [|discriminate].
    apply Nat.eqb_eq in E. subst pos.
    exists EmptyString, s, caps. repeat split; [constructor|exact H].
  - destruct s; [|discriminate].
    exists EmptyString, EmptyString, caps. simpl. rewrite Nat.add_0_r.
    repeat split; [constructor|exact H].
Qed.

End MatcherSoundness.

(** ** The contact name that the parser extracts *)

Section NameShape.
Import Regex.

Lemma drop_append :
  forall a b : string, Js.drop (String.length a) (a ++ b) = b.
Proof. induction a as [|c a IH]; intros b; simpl; [reflexivity|apply IH]. Qed.

Lemma take_append :
  forall a b : string, Js.take (String.length a) (a ++ b) = a.
Proof.
  induction a as [|c a IH]; intros b; simpl.
  - now destruct b.
  - now rewrite IH.
Qed.

(** The leftmost match found from [pos] on starts after some prefix of
    the input and is a match at its start. *)
Lemma search_found :
  forall (r : re) (rest : string) (pos : nat) (m : rmatch),
    search r pos rest = Some m ->
    exists pre rest',
      rest = pre ++ rest'
      /\ m_start m = pos + String.length pre
      /\ match_at r (m_start m) rest' = Some m.
Proof.
  intros r rest. induction rest as [|c rest IH]; intros pos m H;
    cbn [search] in H.
  - destruct (match_at r pos EmptyString) as [m'|] eqn:E; [|discriminate].
    injection H as ->. exists EmptyString, EmptyString.
    assert (Hs : m_start m = pos).
    { unfold match_at in E.
      destruct (run r pos EmptyString [] (fun e _ c => Some (e, c)))
        as [[e c']|]; [|discriminate]. now injection E as <-. }
    rewrite Hs. simpl. rewrite Nat.add_0_r. repeat split. exact E.
  - destruct (match_at r pos (String c rest)) as [m'|] eqn:E.
    + injection H as ->. exists EmptyString, (String c rest).
      assert (Hs : m_start m = pos).
      { unfold match_at in E.
        destruct (run r pos (String c rest) [] (fun e _ c => Some (e, c)))
          as [[e c']|]; [|discriminate]. now injection E as <-. }
      rewrite Hs. simpl. rewrite Nat.add_0_r. repeat split. exact E.
    + apply IH in H. destruct H as (pre & rest' & -> & Hs & Hm).
      exists (String c pre), rest'. simpl. rewrite Hs.
      repeat split; [lia|]. rewrite <- Hs. exact Hm.
Qed.

(** A match of a pattern that ends in its capturing group [i]: the
    input splits into what the parts took, and capture [i] holds the
    last part. *)
Lemma match_ending_in_group :
  forall (A B G : re) (i pos : nat) (s : string) (m : rmatch),
    match_at (Cat A (Cat B (Group i G))) pos s = Some m ->
    exists uA uB uG s3,
      s = uA ++ uB ++ uG ++ s3
      /\ sem A pos uA (uB ++ uG ++ s3)
      /\ sem B (pos + String.length uA) uB (uG ++ s3)
      /\ sem G (pos + String.length uA + String.length uB) uG s3
      /\ get i (m_caps m)
         = Some (pos + String.length uA + String.length uB,
                 pos + String.length uA + String.length uB
                 + String.length uG).
Proof.
  intros A B G i pos s m H. unfold match_at in H.
  destruct (run (Cat A (Cat B (Group i G))) pos s []
              (fun e _ c => Some (e, c))) as [[e c]|] eqn:E; [|discriminate].
  injection H as <-. cbn [run] in E.
  apply run_sound in E. destruct E as (uA & s1 & c1 & -> & SA & E).
  apply run_sound in E. destruct E as (uB & s2 & c2 & -> & SB & E).
  apply run_sound in E. destruct E as (uG & s3 & c3 & -> & SG & E).
  injection E as <- <-.
  exists uA, uB, uG, s3. repeat split; try assumption.
  simpl. now rewrite Nat.eqb_refl.
Qed.

Lemma group_of_match :
  forall (pre uA uB uG s3 : string) (m : rmatch) (i : nat),
    get i (m_caps m)
    = Some (String.length pre + String.length uA + String.length uB,
            String.length pre + String.length uA + String.length uB
            + String.length uG) ->
    group (pre ++ uA ++ uB ++ uG ++ s3) m i = Some uG.
Proof.
  intros pre uA uB uG s3 m i H. unfold group. rewrite H. f_equal.
  unfold Js.slice.
  replace (String.length pre + String.length uA + String.length uB
           + String.length uG
           - (String.length pre + String.length uA + String.length uB))
    with (String.length uG) by lia.
  rewrite <- !length_append_s, <- append_assoc_s, <- append_assoc_s.
  rewrite drop_append. apply take_append.
Qed.

(** What [exec] captures with a pattern that ends in its group 1. *)
Lemma exec_ending_in_group :
  forall (A B G : re) (s g : string) (m : rmatch),
    exec (Cat A (Cat B (Group 1 G))) s = Some m ->
    group s m 1 = Some g ->
    exists pos rest, sem G pos g rest.
Proof.
  intros A B G s g m H Hg. unfold exec in H.
  apply search_found in H. destruct H as (pre & rest' & -> & Hs & Hm).
  apply match_ending_in_group in Hm.
  destruct Hm as (uA & uB & uG & s3 & -> & _ & _ & SG & Hc).
  rewrite Hs in Hc. simpl in Hc.
  rewrite (group_of_match pre uA uB uG s3 m 1 Hc) in Hg.
  injection Hg as <-. eauto.
Qed.

Lemma sem_char_inv :
  forall (p : ascii -> bool) (pos : nat) (u rest : string),
    sem (Char p) pos u rest ->
    exists c, u = String c EmptyString /\ p c = true.
Proof. intros p pos u rest H. inversion H; subst. eauto. Qed.

Lemma sem_cat_inv :
  forall (r1 r2 : re) (pos : nat) (u rest : string),
    sem (Cat r1 r2) pos u rest ->
    exists u1 u2,
      u = u1 ++ u2
      /\ sem r1 pos u1 (u2 ++ rest)
      /\ sem r2 (pos + String.length u1) u2 rest.
Proof. intros r1 r2 pos u rest H. inversion H; subst. eauto. Qed.

Lemma sem_or_inv :
  forall (r1 r2 : re) (pos : nat) (u rest : string),
    sem (Or r1 r2) pos u rest -> sem r1 pos u rest \/ sem r2 pos u rest.
Proof. intros r1 r2 pos u rest H. inversion H; subst; tauto. Qed.

Lemma sem_empty_inv :
  forall (pos : nat) (u rest : string),
    sem Empty pos u rest -> u = EmptyString.
Proof. intros pos u rest H. now inversion H. Qed.

Lemma sem_bol_inv :
  forall (pos : nat) (u rest : string),
    sem Bol pos u rest -> pos = 0 /\ u = EmptyString.
Proof. intros pos u rest H. now inversion H. Qed.

Lemma sem_eol_inv :
  forall (pos : nat) (u rest : string),
    sem Eol pos u rest -> u = EmptyString /\ rest = EmptyString.
Proof. intros pos u rest H. now inversion H. Qed.

Lemma sem_star_chars :
  forall (p : ascii -> bool) (pos : nat) (u rest : string),
    sem (Star (Char p)) pos u rest -> all_chars p u = true.
Proof.
  intros p pos u rest H. remember (Star (Char p)) as r eqn:Hr.
  induction H as [| | | | | |r0 pos u1 u2 rest H1 _ H2 IH| | | | |];
    try discriminate.
  - reflexivity.
  - injection Hr as ->. specialize (IH eq_refl).
    apply sem_char_inv in H1. destruct H1 as (c & -> & Hc).
    simpl. now rewrite Hc, IH.
Qed.

Lemma sem_plus_chars :
  forall (p : ascii -> bool) (pos : nat) (u rest : string),
    sem (plus (Char p)) pos u rest ->
    u <> EmptyString /\ all_chars p u = true.
Proof.
  intros p pos u rest H. unfold plus in H.
  apply sem_cat_inv in H. destruct H as (u1 & u2 & -> & H1 & H2).
  apply sem_char_inv in H1. destruct H1 as (c & -> & Hc).
  apply sem_star_chars in H2. simpl.
  split; [discriminate|]. now rewrite Hc, H2.
Qed.

Lemma sem_name_shape :
  forall (pos : nat) (u rest : string),
    sem name_shape pos u rest -> one_or_two_words u.
Proof.
  intros pos u rest H. unfold name_shape, opt in H.
  apply sem_cat_inv in H. destruct H as (w1 & t & -> & H1 & H2).
  apply sem_plus_chars in H1.
  apply sem_or_inv in H2. destruct H2 as [H2|H2].
  - apply sem_cat_inv in H2. destruct H2 as (sp & w2 & -> & Hs & Hw).
    apply sem_plus_chars in Hs. apply sem_plus_chars in Hw.
    right. exists w1, sp, w2. repeat split; tauto.
  - apply sem_empty_inv in H2. subst t. rewrite append_empty_r.
    now left.
Qed.


Lemma letter_not_space :
  forall c : ascii, is_letter c = true -> Js.is_space c = false.
Proof.
  intros [[] [] [] [] [] [] [] []]; vm_compute; congruence.
Qed.

Lemma rev_string_acc :
  forall s acc : string,
    Js.rev_string acc s = Js.rev_string EmptyString s ++ acc.
Proof.
  induction s as [|c s IH]; intros acc; simpl; [reflexivity|].
  rewrite IH, (IH (String c EmptyString)), append_assoc_s. reflexivity.
Qed.

Lemma rev_string_append :
  forall a b : string,
    Js.rev_string EmptyString (a ++ b)
    = Js.rev_string EmptyString b ++ Js.rev_string EmptyString a.
Proof.
  induction a as [|c a IH]; intros b; simpl.
  - now rewrite append_empty_r.
  - rewrite (rev_string_acc (a ++ b) (String c EmptyString)), IH,
      (rev_string_acc a (String c EmptyString)).
    now rewrite append_assoc_s.
Qed.

Lemma rev_string_involutive :
  forall s : string,
    Js.rev_string EmptyString (Js.rev_string EmptyString s) = s.
Proof.
  induction s as [|c s IH]; simpl; [reflexivity|].
  rewrite (rev_string_acc s (String c EmptyString)), rev_string_append, IH.
  reflexivity.
Qed.

Lemma trimEnd_fixed :
  forall (y : string) (b : ascii),
    Js.is_space b = false ->
    Js.trimEnd (y ++ String b EmptyString) = y ++ String b EmptyString.
Proof.
  intros y b Hb. unfold Js.trimEnd.
  rewrite rev_string_append. simpl. rewrite Hb.
  change (String b (Js.rev_string EmptyString y))
    with (Js.rev_string EmptyString (String b EmptyString)
          ++ Js.rev_string EmptyString y).
  rewrite <- rev_string_append. apply rev_string_involutive.
Qed.

(** [trim] leaves alone a string that neither starts nor ends with
    white space. *)
Lemma trim_fixed :
  forall (u x y : string) (a b : ascii),
    u = String a x -> Js.is_space a = false ->
    u = y ++ String b EmptyString -> Js.is_space b = false ->
    Js.trim u = u.
Proof.
  intros u x y a b Ha Hsa Hb Hsb. unfold Js.trim.
  assert (H1 : Js.trimStart u = u).
  { rewrite Ha. simpl. now rewrite Hsa. }
  rewrite H1, Hb. now apply trimEnd_fixed.
Qed.

Lemma word_first :
  forall w : string,
    is_word w -> exists a x, w = String a x /\ is_letter a = true.
Proof.
  intros [|a x] [Hn Hl]; [congruence|]. simpl in Hl.
  apply andb_prop in Hl. exists a, x. tauto.
Qed.

Lemma word_last :
  forall w : string,
    is_word w ->
    exists y b, w = y ++ String b EmptyString /\ is_letter b = true.
Proof.
  intros w [Hn Hl]. induction w as [|a w IH]; [congruence|].
  simpl in Hl. apply andb_prop in Hl. destruct Hl as [Ha Hw].
  destruct w as [|a' w'].
  - exists EmptyString, a. now split.
  - destruct IH as (y & b & E & Hb); [discriminate|exact Hw|].
    exists (String a y), b. simpl. rewrite <- E. now split.
Qed.

Lemma trim_words :
  forall u : string, one_or_two_words u -> Js.trim u = u.
Proof.
  intros u [Hw|(w1 & sp & w2 & -> & H1 & _ & _ & H2)].
  - destruct (word_first u Hw) as (a & x & Ea & Ha).
    destruct (word_last u Hw) as (y & b & Eb & Hb).
    eapply trim_fixed; eauto using letter_not_space.
  - destruct (word_first w1 H1) as (a & x & Ea & Ha).
    destruct (word_last w2 H2) as (y & b & Eb & Hb).
    eapply (trim_fixed _ (x ++ sp ++ w2) (w1 ++ sp ++ y) a b).
    + rewrite Ea. reflexivity.
    + now apply letter_not_space.
    + rewrite Eb at 1. now rewrite !append_assoc_s.
    + now apply letter_not_space.
Qed.

Lemma first_return_found :
  forall {A B : Type} (f : A -> option B) (l : list A) (y : B),
    first_return f l = Some y -> exists x, In x l /\ f x = Some y.
Proof.
  intros A B f l y. induction l as [|x l IH]; simpl; [discriminate|].
  destruct (f x) as [z|] eqn:E.
  - intros [= <-]. exists x. auto.
  - intros H. destruct (IH H) as (x' & Hin & Hx). exists x'. auto.
Qed.

(** A string that [/^[a-z]+$/i] accepts is a word. *)
Lemma only_letters_word :
  forall s : string, test only_letters s = true -> is_word s.
Proof.
  intros s H. unfold test in H.
  destruct (exec only_letters s) as [m|] eqn:E; [|discriminate]. clear H.
  unfold exec in E. apply search_found in E.
  destruct E as (pre & rest' & -> & Hs & Hm).
  unfold match_at in Hm.
  destruct (run only_letters (m_start m) rest' [] (fun e _ c => Some (e, c)))
    as [[e c]|] eqn:R; [|discriminate]. clear Hm.
  apply run_sound in R. destruct R as (u & s' & c' & -> & S & _).
  unfold only_letters in S. cbn [seq] in S.
  apply sem_cat_inv in S. destruct S as (u1 & u2 & -> & SB & S).
  apply sem_bol_inv in SB. destruct SB as [H0 ->].
  apply sem_cat_inv in S. destruct S as (w & e' & -> & SW & SE).
  apply sem_eol_inv in SE. destruct SE as [-> ->].
  apply sem_plus_chars in SW.
  assert (pre = EmptyString) as ->.
  { destruct pre; [reflexivity|]. simpl in Hs. lia. }
  simpl. rewrite !append_empty_r. exact SW.
Qed.

(** A name that [extractContactName] returns is one word, or two words
    with white space between them. *)
Lemma extractContactName_words :
  forall message name : string,
    extractContactName message = Some name -> one_or_two_words name.
Proof.
  intros message name H. unfold extractContactName in H.
  match type of H with
  | match first_return ?f ?l with _ => _ end = _ =>
      destruct (first_return f l) as [n|] eqn:E
  end.
  - injection H as ->. apply first_return_found in E.
    destruct E as (pattern & Hin & Hf).
    destruct (exec pattern message) as [m|] eqn:Em; [|discriminate].
    destruct (group message m 1) as [g|] eqn:Eg; [|discriminate].
    destruct (Js.truthy g); [|discriminate].
    destruct (negb (Js.arr_includes commonWords (Js.toLowerCase (Js.trim g))));
      [|discriminate].
    injection Hf as <-.
    assert (Hg : one_or_two_words g).
    { destruct Hin as [<-|[<-|[<-|[]]]];
        destruct (exec_ending_in_group _ _ _ _ _ _ Em Eg) as (p & r & S);
        exact (sem_name_shape _ _ _ S). }
    now rewrite trim_words.
  - clear E. apply first_return_found in H.
    destruct H as (phrase & _ & Hf).
    destruct (negb (Js.indexOf (Js.toLowerCase message) phrase =? -1)%Z);
      [|discriminate].
    match type of Hf with
    | match ?w with _ => _ end = _ => destruct w as [|pn ws']
    end; [discriminate|].
    destruct (Nat.ltb 2 (String.length pn) && test only_letters pn) eqn:Ht;
      [|discriminate].
    injection Hf as <-. apply andb_prop in Ht.
    left. now apply only_letters_word.
Qed.

(** X1.  A name that [extractContactName] returns is one word, or two words
    with white space between them: it holds letters only, apart from
    that white space, it is not empty, and it neither starts nor ends
    with white space. *)
Theorem extractContactName_shape :
  forall message name : string,
    extractContactName message = Some name ->
    one_or_two_words name
    /\ name <> EmptyString
    /\ Js.trim name = name.
Proof.
  intros message name H.
  pose proof (extractContactName_words message name H) as Hw.
  split; [exact Hw|]. split; [|now apply trim_words].
  destruct Hw as [[Hn _]|(w1 & sp & w2 & -> & [Hn _] & _)];
    [exact Hn|].
  destruct w1; [congruence|discriminate].
Qed.

Lemma extractContactName_shape_witness :
  extractContactName "send to sarah" = Some "sarah"
  /\ one_or_two_words "sarah"
  /\ "sarah" <> EmptyString
  /\ Js.trim "sarah" = "sarah".
Proof.
  assert (H : extractContactName "send to sarah" = Some "sarah")
    by (vm_compute; reflexivity).
  split; [exact H|].
  exact (extractContactName_shape "send to sarah" "sarah" H).
Defined.


End NameShape.
(** ** The message body that the parser extracts *)

Section MessageBody.
Import Regex.

Lemma find_index_found :
  forall {A : Type} (p : A -> bool) (l : list A) (i j : nat),
    find_index p i l = Some j ->
    exists x, nth_error l (j - i) = Some x /\ p x = true /\ i <= j.
Proof.
  intros A p l. induction l as [|y l IH]; intros i j H; simpl in H;
    [discriminate|].
  destruct (p y) eqn:E.
  - injection H as <-. exists y. rewrite Nat.sub_diag. auto.
  - apply IH in H. destruct H as (x & Hn & Hp & Hle).
    exists x. replace (j - i) with (S (j - S i)) by lia. simpl.
    repeat split; [exact Hn|exact Hp|lia].
Qed.

Lemma toLowerCase_length :
  forall s : string, String.length (Js.toLowerCase s) = String.length s.
Proof. induction s as [|c s IH]; simpl; congruence. Qed.

Lemma join_head_length :
  forall (sep x : string) (l : list string),
    String.length x <= String.length (Js.join sep (x :: l)).
Proof.
  intros sep x [|y l]; cbn [Js.join]; [lia|].
  rewrite length_append_s. lia.
Qed.

(** The loop over the filler phrases never returns a message. *)
Lemma filler_check_undefined :
  forall (message lowerMessage : string) (r : option string),
    filler_check message lowerMessage = Some r -> r = None.
Proof.
  intros message lower r H. unfold filler_check in H.
  apply first_return_found in H. destruct H as (p & _ & H).
  destruct (test p message); [|discriminate].
  destruct (extractContactName message) as [c|]; [|now injection H].
  destruct (Js.truthy c); [|now injection H].
  match type of H with
  | (if ?b then _ else _) = _ => destruct b
  end; [now injection H|discriminate].
Qed.

(** A message body that [extractMessageToSend] returns is neither empty
    nor a filler phrase. *)
Lemma extractMessageToSend_checked :
  forall message text : string,
    extractMessageToSend message = Some text ->
    text <> EmptyString /\ isFillerPhrase text = false.
Proof.
  intros message text H. unfold extractMessageToSend in H.
  destruct (filler_check message (Js.toLowerCase message)) as [r|] eqn:Ef.
  { apply filler_check_undefined in Ef. congruence. }
  match type of H with
  | match first_return ?f ?l with _ => _ end = _ =>
      destruct (first_return f l) as [t|] eqn:E1
  end.
  { injection H as ->. apply first_return_found in E1.
    destruct E1 as (p & _ & Hf).
    destruct (exec p message) as [m|]; [|discriminate].
    destruct (group message m 1) as [g|]; [|discriminate].
    destruct (Js.truthy g); [|discriminate].
    match type of Hf with
    | (if ?b then _ else _) = _ => destruct b eqn:Hb
    end; [|discriminate].
    injection Hf as <-. apply andb_prop in Hb. destruct Hb as [Hl Hn].
    apply Nat.ltb_lt in Hl. apply negb_true_iff in Hn.
    split; [|exact Hn]. intros Heq. rewrite Heq in Hl. simpl in Hl. lia. }
  clear E1.
  match type of H with
  | match ?c with _ => _ end = _ => destruct c as [t|] eqn:E2
  end.
  { injection H as ->.
    destruct (exec sendToPattern message) as [m|]; [|discriminate].
    destruct (group message m 1) as [g|]; [|discriminate].
    destruct (Js.truthy g); [|discriminate].
    match type of E2 with
    | (if ?b then _ else _) = _ => destruct b eqn:Hb
    end; [|discriminate].
    injection E2 as <-. apply andb_prop in Hb. destruct Hb as [Hn Hl].
    apply Nat.ltb_lt in Hl. apply negb_true_iff in Hn.
    split; [|exact Hn]. intros Heq. rewrite Heq in Hl. simpl in Hl. lia. }
  clear E2.
  match type of H with
  | match ?c with _ => _ end = _ => destruct c as [t|] eqn:E3
  end.
  { injection H as ->.
    destruct (exec sendToContactPattern message) as [m|]; [|discriminate].
    destruct (group message m 2) as [g|]; [|discriminate].
    destruct (Js.truthy g); [|discriminate].
    match type of E3 with
    | (if ?b then _ else _) = _ => destruct b eqn:Hb
    end; [|discriminate].
    injection E3 as <-. apply andb_prop in Hb. destruct Hb as [Hn Hl].
    apply Nat.ltb_lt in Hl. apply negb_true_iff in Hn.
    split; [|exact Hn]. intros Heq. rewrite Heq in Hl. simpl in Hl. lia. }
  clear E3.
  match type of H with
  | match ?c with _ => _ end = _ => destruct c as [|i0 rest]
  end; [discriminate|].
  match type of H with
  | match find_index ?p 0 ?w with _ => _ end = _ =>
      destruct (find_index p 0 w) as [ms|] eqn:Es; [|discriminate];
      set (words := w) in *
  end.
  apply find_index_found in Es. destruct Es as (x & Hx & Hp & _).
  rewrite Nat.sub_0_r in Hx.
  match type of H with
  | (if Nat.ltb 0 (List.length ?mw) then _ else _) = _ =>
      set (messageWords := mw) in *
  end.
  destruct (Nat.ltb 0 (List.length messageWords)) eqn:Hl; [|discriminate].
  destruct (negb (isFillerPhrase (Js.join " " messageWords))) eqn:Hn;
    [|discriminate].
  injection H as <-. apply negb_true_iff in Hn. split; [|exact Hn].
  apply Nat.ltb_lt in Hl.
  assert (Hm : exists tl, messageWords = x :: tl).
  { unfold messageWords, Js.arr_slice in *.
    apply nth_error_split in Hx. destruct Hx as (l1 & l2 & Hw & Hlen).
    rewrite Hw in *. rewrite <- Hlen in *.
    rewrite skipn_app, skipn_all, Nat.sub_diag in *. simpl in *.
    match goal with
    | |- exists tl, firstn ?n _ = _ => destruct n; simpl in *; [lia|]
    end.
    eauto. }
  destruct Hm as [tl ->].
  apply andb_prop in Hp. destruct Hp as [_ Hp]. apply Nat.ltb_lt in Hp.
  rewrite toLowerCase_length in Hp.
  intros Heq.
  pose proof (join_head_length " " x tl) as Hj. rewrite Heq in Hj.
  simpl in Hj. lia.
Qed.

(** X2.  A message body that [extractMessageToSend] returns is neither empty
    nor a filler phrase: whatever the case of its letters, it is none of
    message, text, chat, a message, the message, a text and the text. *)
Theorem extractMessageToSend_meaningful :
  forall message text : string,
    extractMessageToSend message = Some text ->
    text <> EmptyString
    /\ isFillerPhrase text = false
    /\ ~ In (Js.toLowerCase text)
           ["message"; "text"; "chat"; "a message"; "the message";
            "a text"; "the text"].
Proof.
  intros message text H.
  destruct (extractMessageToSend_checked message text H) as [Hne Hf].
  split; [exact Hne|]. split; [exact Hf|].
  intros Hin. unfold isFillerPhrase in Hf. cbv zeta in Hf.
  repeat (destruct Hin as [E|Hin];
          [rewrite <- E in Hf; vm_compute in Hf; discriminate|]).
  destruct Hin.
Qed.

Lemma extractMessageToSend_meaningful_witness :
  extractMessageToSend "send hello to john" = Some "hello"
  /\ "hello" <> EmptyString
  /\ isFillerPhrase "hello" = false
  /\ ~ In (Js.toLowerCase "hello")
         ["message"; "text"; "chat"; "a message"; "the message";
          "a text"; "the text"].
Proof.
  assert (H : extractMessageToSend "send hello to john" = Some "hello")
    by (vm_compute; reflexivity).
  split; [exact H|].
  exact (extractMessageToSend_meaningful "send hello to john" "hello" H).
Defined.


End MessageBody.
(** ** Well-formed commands *)

Lemma words_not_empty :
  forall s : string, one_or_two_words s -> Js.truthy s = true.
Proof.
  intros s [[Hn _]|(w1 & sp & w2 & -> & [Hn _] & _)].
  - destruct s; [congruence|reflexivity].
  - destruct w1; [congruence|reflexivity].
Qed.

(** A reply body that [extractReplyMessage] returns is not empty. *)
Lemma extractReplyMessage_not_empty :
  forall message text : string,
    extractReplyMessage message = Some text -> text <> EmptyString.
Proof.
  intros message text H. unfold extractReplyMessage in H.
  apply first_return_found in H. destruct H as (p & _ & Hf).
  destruct (Regex.exec p message) as [m|]; [|discriminate].
  destruct (Regex.group message m 1) as [g|]; [|discriminate].
  destruct (Js.truthy g); [|discriminate].
  match type of Hf with
  | (if ?b then _ else _) = _ => destruct b eqn:Hb
  end; [|discriminate].
  injection Hf as <-. apply Nat.ltb_lt in Hb.
  intros Heq. rewrite Heq in Hb. simpl in Hb. lia.
Qed.

(** X3.  The commands [parseCommand] builds.
    - [replyTo] is never set, and only a messaging command has fields.
    - A target is one word or two, so it is not empty.
    - A message is only set on a send or a reply, and is not empty; on a
      send it is no filler phrase.
    - A read command has its target, which is also its contact filter.
    - A check command asks for unread messages, and its contact filter
      is its target.
    - A command of unknown action has no field set. *)
Theorem parseCommand_well_formed :
  forall (userMessage : string) (c : ParsedCommand),
    parseCommand userMessage = Some c ->
    replyTo c = None
    /\ (type c <> whatsapp ->
        c = mkCommand (type c) unknown None None None None)
    /\ (forall t, target c = Some t -> one_or_two_words t)
    /\ (forall m, message c = Some m ->
          m <> EmptyString
          /\ (action c = send \/ action c = reply)
          /\ (action c = send -> isFillerPhrase m = false))
    /\ (action c = read ->
        exists t, target c = Some t
                  /\ filters c = Some (mkFilters None (Some t) None))
    /\ (action c = check ->
        filters c = Some (mkFilters (Some true) (target c) None))
    /\ (action c = unknown ->
        target c = None /\ message c = None /\ filters c = None).
Proof.
  intros u c H. unfold parseCommand in H.
  set (l := Js.trim (Js.toLowerCase u)) in *.
  destruct (Js.includes l "whatsapp" || Js.includes l "message"
            || Js.includes l "text" || Js.includes l "chat").
  2: { destruct (Js.includes l "email" || Js.includes l "mail").
       { injection H as <-. simpl.
         repeat split; try discriminate; try reflexivity. }
       destruct (Js.includes l "calendar" || Js.includes l "event"
                 || Js.includes l "meeting"); [|discriminate].
       injection H as <-. simpl.
       repeat split; try discriminate; try reflexivity. }
  injection H as <-. unfold parseWhatsAppCommand.
  pose proof (extractContactName_words u) as Hname.
  pose proof (extractMessageToSend_checked u) as Hsend.
  pose proof (extractReplyMessage_not_empty u) as Hreply.
  assert (Htruthy : forall m : string, m <> EmptyString -> Js.truthy m = true)
    by (intros [|? ?] ?; [congruence|reflexivity]).
  destruct (extractContactName u) as [n|];
    [specialize (Hname n eq_refl); rewrite (words_not_empty n Hname)
    |clear Hname];
    (destruct (check_trigger l);
     [|destruct (send_trigger l);
       [destruct (extractMessageToSend u) as [m|];
        [destruct (Hsend m eq_refl) as [Hne Hf]; rewrite (Htruthy m Hne)|]
       |destruct (reply_trigger l);
        [destruct (extractReplyMessage u) as [m|];
         [specialize (Hreply m eq_refl); rewrite (Htruthy m Hreply)|]
        |destruct (read_trigger l)]]]);
    simpl; repeat split; try discriminate; try congruence;
    try (intros ? [= <-]; assumption); eauto.
Qed.

Lemma parseCommand_well_formed_witness :
  let c := mkCommand whatsapp send (Some "john") (Some "hello") None None in
  parseCommand "text hello to john" = Some c
  /\ replyTo c = None
  /\ (forall t, target c = Some t -> one_or_two_words t)
  /\ (forall m, message c = Some m ->
        m <> EmptyString
        /\ (action c = send \/ action c = reply)
        /\ (action c = send -> isFillerPhrase m = false)).
Proof.
  assert (H : parseCommand "text hello to john"
              = Some (mkCommand whatsapp send (Some "john") (Some "hello")
                        None None))
    by (vm_compute; reflexivity).
  split; [exact H|].
  destruct (parseCommand_well_formed "text hello to john" _ H)
    as (H1 & _ & H3 & H4 & _).
  split; [exact H1|]. split; [exact H3|exact H4].
Defined.

(** ** Events and the connection flags *)

(** X4.  Handling client events never throws and never replaces the client;
    it keeps a ready session authenticated; and its only effect on the
    world is one reconnect timer of three seconds for each
    [disconnected] event whose reason is not LOGOUT. *)
Theorem events_keep_service :
  forall (es : list Event) (s : Service),
    result_of (deliver es s) = Ok tt
    /\ client (state_of (deliver es s)) = client s
    /\ (flags_consistent s -> flags_consistent (state_of (deliver es s)))
    /\ trace_of (deliver es s)
       = repeat (SetTimeout 3000)
                (List.length (filter starts_reconnect es)).
Proof.
  induction es as [|e es IH]; intros s.
  - repeat split. auto.
  - unfold deliver in *. cbn [for_each]. unfold bind.
    assert (He : exists s1,
               on_event e s
               = (Ok tt, s1,
                  repeat (SetTimeout 3000)
                         (if starts_reconnect e then 1 else 0))
               /\ client s1 = client s
               /\ (flags_consistent s -> flags_consistent s1)).
    { unfold flags_consistent.
      destruct e as [qr| | |msg|reason|b];
        unfold on_event, bind, modify, ret, call; simpl;
        try destruct (String.eqb reason "LOGOUT"); simpl;
        eexists; (split; [reflexivity|]); simpl;
        (split; [reflexivity|]); intros; try discriminate; auto. }
    destruct He as (s1 & -> & Hc & Hf).
    destruct (IH s1) as (Hr & Hc1 & Hf1 & Ht).
    destruct (for_each es on_event s1) as [[r s2] t2].
    unfold result_of, state_of, trace_of in *. simpl in *.
    subst r t2. repeat split.
    + congruence.
    + auto.
    + destruct (starts_reconnect e); reflexivity.
Qed.

Lemma isConnected_run :
  forall s : Service,
    isConnected s = (Ok (connected s), synced s, []).
Proof.
  intros [[c|] rdy auth qr]; unfold connected, synced; simpl;
    [|reflexivity].
  unfold isConnected, bind, get; simpl.
  destruct rdy; simpl; [reflexivity|].
  destruct auth; simpl.
  - unfold try_catch, bind, access, ret, get; simpl.
    destruct (info c) as [v|e]; simpl; [destruct (js_defined v)|];
      reflexivity.
  - unfold connected_by_probe, isClientInitialized, try_catch, bind, get,
      access, ret, modify; simpl.
    destruct (pupPage c) as [p|e]; simpl; [|reflexivity].
    destruct (info c) as [v|e]; simpl.
    + destruct p, v; reflexivity.
    + destruct p; reflexivity.
Qed.

Lemma synced_keeps :
  forall s : Service,
    client (synced s) = client s
    /\ qrCode (synced s) = qrCode s
    /\ isReady (synced s) = isReady s
    /\ (flags_consistent s -> flags_consistent (synced s)).
Proof.
  intros [[c|] rdy auth qr]; unfold synced, flags_consistent; simpl;
    [|tauto].
  destruct rdy; simpl; [tauto|].
  destruct auth; simpl; [tauto|].
  destruct (connected_by_probe c); simpl; tauto.
Qed.

(** X5.  The answer of [isConnected()] and what it does to the service.  It
    is [true] exactly when the client exists and the session is ready,
    or authenticated, or looks authenticated to a probe of the client.
    It calls nothing, and the only field it may change is the
    authenticated flag, which it sets when it answers [true] for a
    session that is not ready.  Asking again gives the same answer and
    changes nothing more. *)
Theorem isConnected_table :
  forall s : Service,
    isConnected s = (Ok (connected s), synced s, [])
    /\ isConnected (synced s) = (Ok (connected s), synced s, [])
    /\ client (synced s) = client s
    /\ isReady (synced s) = isReady s
    /\ qrCode (synced s) = qrCode s
    /\ isAuthenticated (synced s)
       = isAuthenticated s || (negb (isReady s) && connected s).
Proof.
  intros s. split; [apply isConnected_run|].
  split.
  { rewrite isConnected_run.
    destruct s as [[c|] rdy auth qr]; unfold connected, synced; simpl;
      [|reflexivity].
    destruct rdy; simpl; [reflexivity|].
    destruct auth; simpl; [reflexivity|].
    destruct (connected_by_probe c) eqn:E; simpl; rewrite ?E; reflexivity. }
  destruct s as [[c|] rdy auth qr]; unfold connected, synced; simpl.
  - destruct rdy; simpl; [now rewrite orb_false_r|].
    destruct auth; simpl; [auto|].
    destruct (connected_by_probe c); simpl; auto.
  - repeat split. now rewrite andb_false_r, orb_false_r.
Qed.
(** ** The message operations: what they call, what they leave *)

(** A guarded operation in terms of the answer of [isConnected()]. *)
Lemma guarded_run :
  forall {A : Type} (body : Client -> M Service A) (s : Service),
    guarded body s
    = match client s with
      | Some c =>
          if connected s then body c (synced s)
          else (Throw not_connected_error, s, [])
      | None => (Throw not_connected_error, s, [])
      end.
Proof.
  intros A body s. unfold guarded, bind, get. simpl.
  destruct (client s) as [c|] eqn:Hc; [|reflexivity].
  rewrite isConnected_run.
  destruct (connected s) eqn:E; simpl.
  - destruct (body c (synced s)) as [[r s'] t]. reflexivity.
  - assert (synced s = s) as ->; [|reflexivity].
    unfold synced, connected in *. rewrite Hc in *.
    apply orb_false_elim in E. destruct E as [E1 E2].
    now rewrite E1, E2.
Qed.

(** The runs of the chat lookup. *)
Lemma find_target_chat_run :
  forall (c : Client) (n : string) (s : Service),
    find_target_chat c n s
    = match getChats c with
      | Throw e => (Throw e, s, [GetChats])
      | Ok chats =>
          match find (chat_named (Js.toLowerCase n)) chats with
          | Some chat => (Ok chat, s, [GetChats])
          | None =>
              match getContacts c with
              | Throw _ =>
                  (Throw (contact_not_found n), s, [GetChats; GetContacts])
              | Ok contacts =>
                  match
                    find (fun k =>
                            match contact_pushname k with
                            | Some p =>
                                Js.includes (Js.toLowerCase p)
                                            (Js.toLowerCase n)
                            | None => false
                            end
                            || Js.includes (contact_number k) n) contacts
                  with
                  | None =>
                      (Throw (contact_not_found n), s,
                       [GetChats; GetContacts])
                  | Some k =>
                      match getChatById c (contact_id_serialized k) with
                      | Ok chat =>
                          (Ok chat, s,
                           [GetChats; GetContacts;
                            GetChatById (contact_id_serialized k)])
                      | Throw _ =>
                          (Throw (contact_not_found n), s,
                           [GetChats; GetContacts;
                            GetChatById (contact_id_serialized k)])
                      end
                  end
              end
          end
      end.
Proof.
  intros c n s. unfold find_target_chat, bind, call, try_catch, ret, throw,
    chat_named, contact_not_found.
  destruct (getChats c) as [chats|e]; [|reflexivity]. simpl.
  match goal with
  | |- context [find ?f chats] => destruct (find f chats) as [chat|]
  end; [reflexivity|].
  destruct (getContacts c) as [contacts|e]; [|reflexivity]. simpl.
  match goal with
  | |- context [find ?f contacts] => destruct (find f contacts) as [k|]
  end; [|reflexivity].
  destruct (getChatById c (contact_id_serialized k)); reflexivity.
Qed.

(** The chat lookup sends nothing and leaves the service as it is. *)
Lemma find_target_chat_quiet :
  forall (c : Client) (n : string) (s : Service),
    state_of (find_target_chat c n s) = s
    /\ existsb is_send (trace_of (find_target_chat c n s)) = false.
Proof.
  intros c n s. rewrite find_target_chat_run.
  repeat match goal with
         | |- context [match ?x with _ => _ end] => destruct x
         end; split; reflexivity.
Qed.

(** X6.  [sendMessage] looks among the chat names first: when the name of a
    chat contains the contact name, whatever the case of the letters,
    the message goes to the first such chat, and the contacts are not
    asked. *)
Theorem sendMessage_prefers_chat_name :
  forall (s : Service) (c : Client) (chats : list Chat) (chat : Chat)
         (contactName message : string),
    client s = Some c ->
    connected s = true ->
    getChats c = Ok chats ->
    find (chat_named (Js.toLowerCase contactName)) chats = Some chat ->
    sendMessage contactName message s
    = (match client_sendMessage c (chat_id_serialized chat) message with
       | Ok _ => Ok true
       | Throw e => Throw e
       end,
       synced s,
       [GetChats; SendMessage (chat_id_serialized chat) message]).
Proof.
  intros s c chats chat n msg Hc Hconn Hchats Hfind.
  rewrite sendMessage_guarded, guarded_run, Hc, Hconn.
  unfold try_catch, bind. rewrite find_target_chat_run, Hchats, Hfind.
  unfold call, ret, throw.
  destruct (client_sendMessage c (chat_id_serialized chat) msg) as [[]|e];
    reflexivity.
Qed.

Lemma sendMessage_prefers_chat_name_witness :
  sendMessage "bob" "hi" two_chat_service
  = (Ok true, two_chat_service, [GetChats; SendMessage "bob@c.us" "hi"]).
Proof.
  exact (sendMessage_prefers_chat_name two_chat_service two_chat_client
           [broken_chat; healthy_chat] healthy_chat "bob" "hi"
           eq_refl eq_refl eq_refl eq_refl).
Defined.


(** X7.  A failing contact list is no failure of its own: when no chat name
    matches and [getContacts()] throws, [sendMessage] and
    [getMessagesFromContact] fail with the contact-not-found error, and
    nothing is sent or fetched. *)
Theorem contact_lookup_failure_is_not_found :
  forall (s : Service) (c : Client) (chats : list Chat) (e : JsError)
         (contactName message : string) (limit : Z),
    client s = Some c ->
    connected s = true ->
    getChats c = Ok chats ->
    find (chat_named (Js.toLowerCase contactName)) chats = None ->
    getContacts c = Throw e ->
    sendMessage contactName message s
    = (Throw (contact_not_found contactName), synced s,
       [GetChats; GetContacts])
    /\ getMessagesFromContact contactName limit s
       = (Throw (contact_not_found contactName), synced s,
          [GetChats; GetContacts]).
Proof.
  intros s c chats e n msg limit Hc Hconn Hchats Hfind Hcontacts.
  rewrite sendMessage_guarded, getMessagesFromContact_guarded, !guarded_run,
    Hc, Hconn.
  unfold try_catch, bind.
  rewrite find_target_chat_run, Hchats, Hfind, Hcontacts.
  split; reflexivity.
Qed.

Lemma contact_lookup_failure_is_not_found_witness :
  sendMessage "zoe" "hi" calm_service
  = (Throw (contact_not_found "zoe"), calm_service, [GetChats; GetContacts])
  /\ getMessagesFromContact "zoe" 5 calm_service
     = (Throw (contact_not_found "zoe"), calm_service,
        [GetChats; GetContacts]).
Proof.
  exact (contact_lookup_failure_is_not_found calm_service calm_client
           [busy_chat; healthy_chat] (Some "Evaluation failed: t")
           "zoe" "hi" 5 eq_refl eq_refl eq_refl eq_refl eq_refl).
Defined.


(** X8.  Every run of [sendMessage]: the service is left as [isConnected()]
    leaves it; the client is asked to send at most once, as the last
    call, and with the given text; and [true] is returned only after
    that call. *)
Theorem sendMessage_sends_once :
  forall (s : Service) (contactName message : string),
    let run := sendMessage contactName message s in
    state_of run = synced s
    /\ ((existsb is_send (trace_of run) = false
         /\ exists e, result_of run = Throw e)
        \/ exists pre chatId,
             trace_of run = (pre ++ [SendMessage chatId message])%list
             /\ existsb is_send pre = false
             /\ (result_of run = Ok true
                 \/ exists e, result_of run = Throw e)).
Proof.
  intros s n msg run. unfold run.
  rewrite sendMessage_guarded, guarded_run.
  destruct (client s) as [c|] eqn:Hc.
  2: { split; [unfold synced; now rewrite Hc|]. left.
       split; [reflexivity | eexists; reflexivity]. }
  destruct (connected s) eqn:Hconn.
  2: { split.
       - unfold synced, connected in *. rewrite Hc in *.
         apply orb_false_elim in Hconn. destruct Hconn as [E1 E2].
         simpl. now rewrite E1, E2.
       - left. split; [reflexivity | eexists; reflexivity]. }
  unfold try_catch, bind.
  destruct (find_target_chat_quiet c n (synced s)) as [Hst Htr].
  destruct (find_target_chat c n (synced s)) as [[[chat|e] s1] t1];
    unfold state_of, trace_of in Hst, Htr; simpl in Hst, Htr; subst s1.
  - unfold call, ret, throw.
    destruct (client_sendMessage c (chat_id_serialized chat) msg) as [[]|e];
      simpl; (split; [reflexivity|]); right;
      exists t1, (chat_id_serialized chat);
      unfold trace_of, result_of; simpl;
      rewrite ?app_nil_r; (split; [reflexivity|]); (split; [assumption|]);
      [left; reflexivity | right; eexists; reflexivity].
  - unfold throw. simpl. split; [reflexivity|]. left.
    unfold trace_of, result_of; simpl.
    rewrite app_nil_r. split; [assumption | eexists; reflexivity].
Qed.

Lemma replyToMessage_guarded :
  forall messageId replyText : string,
    replyToMessage messageId replyText
    = guarded (reply_attempt messageId replyText).
Proof. reflexivity. Qed.

Section ReplyLoop.

Variables messageId replyText : string.

Lemma reply_body_run :
  forall (chat : Chat) (s : Service),
    reply_chat_body messageId replyText chat s
    = match chat_fetchMessages chat 50 with
      | Throw e => (Throw e, s, [fetch_fifty chat])
      | Ok ms =>
          match find_by_id messageId ms with
          | Throw e => (Throw e, s, [fetch_fifty chat])
          | Ok None => (Ok None, s, [fetch_fifty chat])
          | Ok (Some m) =>
              (match msg_reply m replyText with
               | Ok _ => Ok (Some true)
               | Throw e => Throw e
               end, s, [fetch_fifty chat; Reply messageId replyText])
          end
      end.
Proof.
  intros chat s.
  unfold reply_chat_body, bind, call, access, ret, fetch_fifty.
  destruct (chat_fetchMessages chat 50) as [ms|e]; [|reflexivity].
  destruct (find_by_id messageId ms) as [[m|]|e]; try reflexivity.
  destruct (msg_reply m replyText) as [[]|e]; reflexivity.
Qed.

Lemma reply_loop_lacking :
  forall (chats : list Chat) (s : Service),
    Forall (lacks_message messageId) chats ->
    for_each_return chats
      (reply_chat_body messageId replyText) s
    = (Ok None, s, map fetch_fifty chats).
Proof.
  induction chats as [|chat chats IH]; intros s H; cbn [for_each_return].
  - reflexivity.
  - inversion H as [|? ? (ms & Hf & Hm) Hrest]; subst.
    unfold bind. rewrite reply_body_run, Hf, Hm, (IH s Hrest). reflexivity.
Qed.

Lemma reply_loop_holder :
  forall (pre post : list Chat) (chat : Chat) (ms : list Message)
         (m : Message) (s : Service),
    Forall (lacks_message messageId) pre ->
    chat_fetchMessages chat 50 = Ok ms ->
    find_by_id messageId ms = Ok (Some m) ->
    for_each_return (pre ++ chat :: post)
      (reply_chat_body messageId replyText) s
    = (match msg_reply m replyText with
       | Ok _ => Ok (Some true)
       | Throw e => Throw e
       end, s,
       (map fetch_fifty pre
        ++ [fetch_fifty chat; Reply messageId replyText])%list).
Proof.
  induction pre as [|p pre IH]; intros post chat ms m s H Hf Hm;
    cbn [for_each_return app map].
  - unfold bind. rewrite reply_body_run, Hf, Hm.
    destruct (msg_reply m replyText) as [[]|e]; reflexivity.
  - inversion H as [|? ? (ms' & Hf' & Hm') Hrest]; subst.
    unfold bind. rewrite reply_body_run, Hf', Hm'.
    rewrite (IH post chat ms m s Hrest Hf Hm).
    destruct (msg_reply m replyText) as [[]|e]; reflexivity.
Qed.

(** Every run of the loop: the state is kept, the calls are fetches of
    fifty messages on chats in their order, with at most one reply, the
    last call. *)
Lemma reply_loop_shape :
  forall (chats : list Chat) (s : Service),
    exists (r : Outcome (option bool)) (fetched : list Chat),
      subseq fetched chats
      /\ ((for_each_return chats
      (reply_chat_body messageId replyText) s
            = (r, s, map fetch_fifty fetched)
           /\ (r = Ok None \/ exists e, r = Throw e))
          \/ (for_each_return chats
      (reply_chat_body messageId replyText) s
              = (r, s,
                 (map fetch_fifty fetched
                  ++ [Reply messageId replyText])%list)
              /\ (r = Ok (Some true) \/ exists e, r = Throw e))).
Proof.
  induction chats as [|chat chats IH]; intros s; cbn [for_each_return].
  - exists (Ok None), []. split; [constructor|]. left. split; auto.
  - unfold bind. rewrite reply_body_run.
    destruct (chat_fetchMessages chat 50) as [ms|e].
    2: { exists (Throw e), [chat]. split.
         - constructor. apply subseq_empty.
         - left. split; [reflexivity|]. right. now exists e. }
    destruct (find_by_id messageId ms) as [[m|]|e].
    + exists (match msg_reply m replyText with
              | Ok _ => Ok (Some true)
              | Throw e => Throw e
              end), [chat].
      split; [constructor; apply subseq_empty|]. right.
      destruct (msg_reply m replyText) as [[]|e]; split; try reflexivity.
      * now left.
      * right. now exists e.
    + destruct (IH s) as (r & f & Hsub & [[E Hr]|[E Hr]]); rewrite E;
        exists r, (chat :: f); (split; [now constructor|]);
        [left|right]; (split; [reflexivity|exact Hr]).
    + exists (Throw e), [chat]. split.
      * constructor. apply subseq_empty.
      * left. split; [reflexivity|]. right. now exists e.
Qed.

End ReplyLoop.

Lemma reply_attempt_run :
  forall (c : Client) (s : Service) (messageId replyText : string),
    reply_attempt messageId replyText c s
    = match getChats c with
      | Throw e => (Throw e, s, [GetChats])
      | Ok chats =>
          match
            for_each_return chats (reply_chat_body messageId replyText) s
          with
          | (Ok (Some b), s1, t) => (Ok b, s1, GetChats :: t)
          | (Ok None, s1, t) =>
              (Throw (message_not_found messageId), s1, GetChats :: t)
          | (Throw e, s1, t) => (Throw e, s1, GetChats :: t)
          end
      end.
Proof.
  intros c s i text. unfold reply_attempt, try_catch, bind, call.
  destruct (getChats c) as [chats|e]; [|reflexivity].
  destruct (for_each_return chats (reply_chat_body i text) s)
    as [[[[b|]|e] s1] t]; unfold ret, throw; simpl;
    now rewrite ?app_nil_r.
Qed.

(** X9.  [replyToMessage] replies in the first chat that holds the message
    among its last fifty: the chats before it are each asked for fifty
    messages, the chats after it are not asked at all, and the reply is
    made once, with the given text. *)
Theorem replyToMessage_first_holder :
  forall (s : Service) (c : Client) (pre post : list Chat) (chat : Chat)
         (ms : list Message) (m : Message) (messageId replyText : string),
    client s = Some c ->
    connected s = true ->
    getChats c = Ok (pre ++ chat :: post)%list ->
    Forall (lacks_message messageId) pre ->
    chat_fetchMessages chat 50 = Ok ms ->
    find_by_id messageId ms = Ok (Some m) ->
    replyToMessage messageId replyText s
    = (match msg_reply m replyText with
       | Ok _ => Ok true
       | Throw e => Throw e
       end,
       synced s,
       GetChats
       :: (map fetch_fifty pre
           ++ [fetch_fifty chat; Reply messageId replyText])%list).
Proof.
  intros s c pre post chat ms m i text Hc Hconn Hchats Hpre Hf Hm.
  rewrite replyToMessage_guarded, guarded_run, Hc, Hconn.
  rewrite reply_attempt_run, Hchats.
  rewrite (reply_loop_holder i text pre post chat ms m (synced s) Hpre Hf Hm).
  destruct (msg_reply m text) as [[]|e]; reflexivity.
Qed.

Lemma replyToMessage_first_holder_witness :
  replyToMessage "m2" "ok" calm_service
  = (Ok true, calm_service,
     [GetChats; fetch_fifty busy_chat; fetch_fifty healthy_chat;
      Reply "m2" "ok"]).
Proof.
  refine (replyToMessage_first_holder calm_service calm_client
            [busy_chat] [] healthy_chat
            [plain_message "m1" "hello" 100;
             plain_message "m2" "are you there" 200]
            (plain_message "m2" "are you there" 200) "m2" "ok"
            eq_refl eq_refl eq_refl _ eq_refl eq_refl).
  constructor; [|constructor].
  eexists. split; reflexivity.
Defined.


(** X10.  When no chat holds the message among its last fifty,
    [replyToMessage] asks every chat, replies to nothing and fails with
    the message-not-found error. *)
Theorem replyToMessage_not_found :
  forall (s : Service) (c : Client) (chats : list Chat)
         (messageId replyText : string),
    client s = Some c ->
    connected s = true ->
    getChats c = Ok chats ->
    Forall (lacks_message messageId) chats ->
    replyToMessage messageId replyText s
    = (Throw (message_not_found messageId), synced s,
       GetChats :: map fetch_fifty chats).
Proof.
  intros s c chats i text Hc Hconn Hchats Hall.
  rewrite replyToMessage_guarded, guarded_run, Hc, Hconn.
  rewrite reply_attempt_run, Hchats.
  rewrite (reply_loop_lacking i text chats (synced s) Hall).
  reflexivity.
Qed.

Lemma replyToMessage_not_found_witness :
  replyToMessage "zz" "ok" calm_service
  = (Throw (message_not_found "zz"), calm_service,
     [GetChats; fetch_fifty busy_chat; fetch_fifty healthy_chat]).
Proof.
  refine (replyToMessage_not_found calm_service calm_client
            [busy_chat; healthy_chat] "zz" "ok" eq_refl eq_refl eq_refl _).
  repeat constructor; eexists; split; reflexivity.
Defined.


Lemma reply_attempt_shape :
  forall (c : Client) (s : Service) (messageId replyText : string),
    exists (r : Outcome bool) (pre : list Effect),
      existsb is_reply pre = false
      /\ ((reply_attempt messageId replyText c s = (r, s, pre)
           /\ exists e, r = Throw e)
          \/ (reply_attempt messageId replyText c s
              = (r, s, (pre ++ [Reply messageId replyText])%list)
              /\ (r = Ok true \/ exists e, r = Throw e))).
Proof.
  intros c s i text.
  assert (Hquiet : forall l,
             existsb is_reply (GetChats :: map fetch_fifty l) = false).
  { induction l; simpl in *; auto. }
  rewrite reply_attempt_run.
  destruct (getChats c) as [chats|e].
  2: { exists (Throw e), [GetChats]. split; [reflexivity|]. left.
       split; [reflexivity | now exists e]. }
  destruct (reply_loop_shape i text chats s)
    as (r & f & _ & [[E Hr]|[E Hr]]); rewrite E.
  - destruct Hr as [->|[e ->]];
      eexists; exists (GetChats :: map fetch_fifty f);
      (split; [apply Hquiet|]); left; (split; [reflexivity|]);
      eexists; reflexivity.
  - destruct Hr as [->|[e ->]];
      eexists; exists (GetChats :: map fetch_fifty f);
      (split; [apply Hquiet|]); right; (split; [reflexivity|]);
      [left; reflexivity | right; eexists; reflexivity].
Qed.

(** X11.  Every run of [replyToMessage]: the service is left as
    [isConnected()] leaves it; a reply is made at most once, as the last
    call and with the given id and text; and [true] is returned only
    after that call. *)
Theorem replyToMessage_replies_once :
  forall (s : Service) (messageId replyText : string),
    let run := replyToMessage messageId replyText s in
    state_of run = synced s
    /\ ((existsb is_reply (trace_of run) = false
         /\ exists e, result_of run = Throw e)
        \/ exists pre,
             trace_of run = (pre ++ [Reply messageId replyText])%list
             /\ existsb is_reply pre = false
             /\ (result_of run = Ok true
                 \/ exists e, result_of run = Throw e)).
Proof.
  intros s i text run. unfold run.
  rewrite replyToMessage_guarded, guarded_run.
  destruct (client s) as [c|] eqn:Hc.
  2: { split; [unfold synced; now rewrite Hc|]. left.
       split; [reflexivity | eexists; reflexivity]. }
  destruct (connected s) eqn:Hconn.
  2: { split.
       - unfold synced, connected in *. rewrite Hc in *.
         apply orb_false_elim in Hconn. destruct Hconn as [E1 E2].
         simpl. now rewrite E1, E2.
       - left. split; [reflexivity | eexists; reflexivity]. }
  destruct (reply_attempt_shape c (synced s) i text)
    as (r & pre & Hpre & [[E Hr]|[E Hr]]); rewrite E;
    (split; [reflexivity|]).
  - left. split; assumption.
  - right. exists pre. repeat split; assumption.
Qed.

(** ** The listings: what is fetched, and what a failure does *)

Lemma unread_chat_body_run :
  forall (chat : Chat) (s : Service) (acc : list WhatsAppMessage),
    unread_chat_body chat (s, acc)
    = (Ok tt, (s, (acc ++ unread_contribution chat)%list),
       if has_unread chat then [fetch_unread chat] else []).
Proof.
  intros chat s acc.
  unfold unread_chat_body, unread_contribution, has_unread, fetch_unread.
  destruct (0 <? chat_unreadCount chat)%Z.
  2: { unfold ret. now rewrite app_nil_r. }
  unfold try_catch, bind, lift, call. simpl.
  destruct (chat_fetchMessages chat (chat_unreadCount chat)) as [ms|e];
    simpl.
  - destruct (unread_message_loop chat
                (slice0 ms (chat_unreadCount chat)) s acc) as [r E].
    rewrite E. destruct r as [[]|e]; reflexivity.
  - destruct (message_includes e "getIsMyContact"
              || message_includes e "ContactMethods"); simpl;
      now rewrite app_nil_r.
Qed.

Lemma unread_loop_run :
  forall (chats : list Chat) (s : Service) (acc : list WhatsAppMessage),
    for_each chats unread_chat_body (s, acc)
    = (Ok tt, (s, (acc ++ flat_map unread_contribution chats)%list),
       map fetch_unread (filter has_unread chats)).
Proof.
  induction chats as [|chat chats IH]; intros s acc; cbn [for_each].
  - unfold ret. simpl. now rewrite app_nil_r.
  - unfold bind. rewrite unread_chat_body_run, IH.
    cbn [flat_map filter]. rewrite <- app_assoc.
    destruct (has_unread chat); reflexivity.
Qed.

Lemma unread_entries_length :
  forall (chat : Chat) (l : list Message),
    List.length (unread_entries chat l) <= List.length l.
Proof.
  intros chat l. induction l as [|m l IH]; simpl; [lia|].
  destruct (msg_id m); simpl; lia.
Qed.

Lemma unread_contribution_length :
  forall chat : Chat,
    (Z.of_nat (List.length (unread_contribution chat))
     <= Z.max 0 (chat_unreadCount chat))%Z.
Proof.
  intros chat. unfold unread_contribution.
  destruct (0 <? chat_unreadCount chat)%Z eqn:E; [|simpl; lia].
  apply Z.ltb_lt in E.
  destruct (chat_fetchMessages chat (chat_unreadCount chat)) as [ms|e];
    [|simpl; lia].
  pose proof (unread_entries_length chat
                (slice0 ms (chat_unreadCount chat))) as H1.
  pose proof (slice0_length ms (chat_unreadCount chat)) as H2.
  lia.
Qed.

Lemma unread_total_length :
  forall chats : list Chat,
    (Z.of_nat (List.length (flat_map unread_contribution chats))
     <= total_unread chats)%Z.
Proof.
  induction chats as [|chat chats IH]; simpl; [lia|].
  rewrite length_app, Nat2Z.inj_add.
  pose proof (unread_contribution_length chat). lia.
Qed.

(** X12.  With the guard passed and the chat list at hand,
    [getUnreadMessages] asks exactly the chats with a positive unread
    count, each once, in the order of the list, each for as many
    messages as its count; and it returns no more messages than the
    counts add up to. *)
Theorem getUnreadMessages_fetches_by_count :
  forall (s : Service) (c : Client) (chats : list Chat),
    client s = Some c ->
    connected s = true ->
    getChats c = Ok chats ->
    exists res : list WhatsAppMessage,
      getUnreadMessages s
      = (Ok res, synced s,
         GetChats :: map fetch_unread (filter has_unread chats))
      /\ (Z.of_nat (List.length res) <= total_unread chats)%Z.
Proof.
  intros s c chats Hc Hconn Hchats.
  rewrite getUnreadMessages_guarded, guarded_run, Hc, Hconn.
  unfold try_catch, bind, call, with_local. rewrite Hchats.
  rewrite unread_loop_run. simpl.
  eexists. split; [now rewrite app_nil_r|].
  rewrite sort_by_length. apply unread_total_length.
Qed.

Lemma getUnreadMessages_fetches_by_count_witness :
  exists res : list WhatsAppMessage,
    getUnreadMessages two_chat_service
    = (Ok res, two_chat_service,
       [GetChats; fetch_unread broken_chat; fetch_unread healthy_chat])
    /\ (Z.of_nat (List.length res) <= 5)%Z.
Proof.
  exact (getUnreadMessages_fetches_by_count two_chat_service two_chat_client
           [broken_chat; healthy_chat] eq_refl eq_refl eq_refl).
Defined.


Lemma recent_loop_failure :
  forall (contactName : option string) (chats : list Chat) (chat : Chat)
         (e : JsError) (s : Service) (acc : list WhatsAppMessage),
    In chat chats ->
    other_contact contactName chat = false ->
    chat_fetchMessages chat 1 = Throw e ->
    exists e',
      result_of (for_each chats (recent_chat_body contactName) (s, acc))
      = Throw e'.
Proof.
  intros cn chats chat e. induction chats as [|x chats IH];
    intros s acc Hin Hskip Hf; [destruct Hin|].
  cbn [for_each]. unfold bind. rewrite recent_chat_body_run.
  destruct (other_contact cn x) eqn:Ex.
  { destruct Hin as [->|Hin]; [congruence|].
    destruct (IH s acc Hin Hskip Hf) as [e' He'].
    destruct (for_each chats (recent_chat_body cn) (s, acc))
      as [[r st] t]. exists e'. exact He'. }
  destruct (chat_fetchMessages x 1) as [[|m ms]|ex] eqn:Efx.
  - destruct Hin as [->|Hin]; [congruence|].
    destruct (IH s acc Hin Hskip Hf) as [e' He'].
    destruct (for_each chats (recent_chat_body cn) (s, acc))
      as [[r st] t]. exists e'. exact He'.
  - destruct (msg_id m) as [i|].
    + destruct Hin as [->|Hin]; [congruence|].
      destruct (IH s (acc ++ [recent_entry x m i])%list Hin Hskip Hf)
        as [e' He'].
      destruct (for_each chats (recent_chat_body cn)
                  (s, (acc ++ [recent_entry x m i])%list))
        as [[r st] t]. exists e'. exact He'.
    + eexists. reflexivity.
  - eexists. reflexivity.
Qed.

(** X13.  [getRecentMessages] has no handler per chat: when the fetch fails
    on one of the chats it looks at, the whole call fails, whatever the
    other chats hold, and the flags are reset exactly when the error
    mentions a lost connection or session. *)
Theorem getRecentMessages_fails_with_any_chat :
  forall (s : Service) (c : Client) (chats : list Chat) (chat : Chat)
         (e : JsError) (contactName : option string) (limit : Z),
    client s = Some c ->
    isReady s = true ->
    getChats c = Ok chats ->
    In chat (slice0 chats limit) ->
    other_contact contactName chat = false ->
    chat_fetchMessages chat 1 = Throw e ->
    exists e',
      result_of (getRecentMessages contactName limit s) = Throw e'
      /\ state_of (getRecentMessages contactName limit s)
         = after_error e' s.
Proof.
  intros s c chats chat e cn limit Hc Hr Hchats Hin Hskip Hf.
  rewrite (getRecentMessages_ready s c chats cn limit Hc Hr Hchats).
  destruct (recent_loop_failure cn (slice0 chats limit) chat e s []
              Hin Hskip Hf) as [e' He'].
  destruct (for_each (slice0 chats limit) (recent_chat_body cn) (s, []))
    as [[r st] tr] eqn:E.
  destruct (recent_loop _ _ _ _ _ _ _ E) as (f & p & _ & _ & _ & _ & Hst).
  unfold result_of in He'. simpl in He'. subst r. rewrite Hst.
  exists e'. split; reflexivity.
Qed.

Lemma getRecentMessages_fails_with_any_chat_witness :
  exists e',
    result_of (getRecentMessages None 10 three_chat_service) = Throw e'
    /\ state_of (getRecentMessages None 10 three_chat_service)
       = after_error e' three_chat_service.
Proof.
  refine (getRecentMessages_fails_with_any_chat three_chat_service
            three_chat_client [busy_chat; healthy_chat; broken_chat]
            broken_chat (Some "Evaluation failed: t") None 10
            eq_refl eq_refl eq_refl _ eq_refl eq_refl).
  right. right. left. reflexivity.
Defined.


Lemma or_else_truthy :
  forall (a : option string) (b : string),
    Js.truthy b = true -> Js.truthy (or_else a b) = true.
Proof.
  intros [x|] b H; simpl; [|exact H].
  destruct (Js.truthy x) eqn:E; [exact E|exact H].
Qed.

Lemma displayName_truthy :
  forall chat : Chat, Js.truthy (displayName_of chat) = true.
Proof.
  intros chat. unfold displayName_of.
  apply or_else_truthy, or_else_truthy. reflexivity.
Qed.

Lemma recent_entry_from :
  forall (chat : Chat) (m : Message) (i : string),
    from (recent_entry chat m i) = displayName_of chat.
Proof.
  intros chat m i. unfold recent_entry. simpl.
  now rewrite displayName_truthy.
Qed.

Lemma recent_loop_filter :
  forall (n : string) (chats : list Chat) (s : Service)
         (acc : list WhatsAppMessage) (r : Outcome unit)
         (st : Service * list WhatsAppMessage) (tr : list Effect),
    n <> EmptyString ->
    for_each chats (recent_chat_body (Some n)) (s, acc) = (r, st, tr) ->
    Forall (fun m => Js.includes (Js.toLowerCase (from m))
                                 (Js.toLowerCase n) = true) acc ->
    Forall (fun m => Js.includes (Js.toLowerCase (from m))
                                 (Js.toLowerCase n) = true) (snd st).
Proof.
  intros n chats. induction chats as [|chat chats IH];
    intros s acc r st tr Hn; cbn [for_each].
  - unfold ret. intros [= <- <- <-] H. exact H.
  - unfold bind. rewrite recent_chat_body_run.
    destruct (other_contact (Some n) chat) eqn:Hskip.
    { destruct (for_each chats (recent_chat_body (Some n)) (s, acc))
        as [[r2 st2] t2] eqn:E.
      intros [= <- <- <-] H. exact (IH _ _ _ _ _ Hn E H). }
    destruct (chat_fetchMessages chat 1) as [[|m ms]|e].
    + destruct (for_each chats (recent_chat_body (Some n)) (s, acc))
        as [[r2 st2] t2] eqn:E.
      intros [= <- <- <-] H. exact (IH _ _ _ _ _ Hn E H).
    + destruct (msg_id m) as [i|].
      * destruct (for_each chats (recent_chat_body (Some n))
                    (s, (acc ++ [recent_entry chat m i])%list))
          as [[r2 st2] t2] eqn:E.
        intros [= <- <- <-] H. apply (IH _ _ _ _ _ Hn E).
        apply Forall_app. split; [exact H|].
        constructor; [|constructor].
        rewrite recent_entry_from.
        unfold other_contact in Hskip. simpl in Hskip.
        destruct n as [|a n']; [congruence|].
        cbn [Js.truthy andb] in Hskip.
        destruct (Js.truthy (Js.toLowerCase (displayName_of chat))) eqn:Et.
        -- simpl in Hskip. now apply negb_false_iff in Hskip.
        -- pose proof (displayName_truthy chat) as Hd.
           destruct (displayName_of chat); discriminate.
      * intros [= <- <- <-] H. exact H.
    + intros [= <- <- <-] H. exact H.
Qed.

(** X14.  Asked for the recent messages of a contact, [getRecentMessages]
    returns only entries whose sender name contains the contact name,
    whatever the case of the letters. *)
Theorem getRecentMessages_only_the_contact :
  forall (s : Service) (n : string) (limit : Z)
         (res : list WhatsAppMessage),
    n <> EmptyString ->
    result_of (getRecentMessages (Some n) limit s) = Ok res ->
    forall m : WhatsAppMessage,
      In m res ->
      Js.includes (Js.toLowerCase (from m)) (Js.toLowerCase n) = true.
Proof.
  intros s n limit res Hn Hres m Hm.
  destruct (isReady s) eqn:Hr.
  2: { rewrite getRecentMessages_not_ready in Hres by exact Hr.
       discriminate. }
  destruct (client s) as [c|] eqn:Hc.
  2: { destruct s as [cl rdy auth qr]. simpl in Hc. subst cl.
       discriminate. }
  destruct (getChats c) as [chats|e] eqn:Hchats.
  2: { destruct s as [cl rdy auth qr]. simpl in Hc, Hr. subst cl rdy.
       revert Hres.
       unfold getRecentMessages, bind, get, try_catch, call. simpl.
       rewrite Hchats.
       unfold reset_on_connection_error, throw, modify, bind, ret.
       destruct (message_includes e "not connected"
                 || message_includes e "Session"); simpl; discriminate. }
  rewrite (getRecentMessages_ready s c chats (Some n) limit Hc Hr Hchats)
    in Hres.
  destruct (for_each (slice0 chats limit) (recent_chat_body (Some n))
              (s, [])) as [[[u|e] st] tr] eqn:E; [|discriminate].
  unfold result_of in Hres. simpl in Hres. injection Hres as <-.
  pose proof (recent_loop_filter n _ _ _ _ _ _ Hn E (Forall_nil _)) as Hall.
  rewrite Forall_forall in Hall. apply Hall.
  unfold slice0 in Hm. apply In_firstn in Hm.
  now apply (sort_by_In _ newest_first) in Hm.
Qed.

Lemma getRecentMessages_only_the_contact_witness :
  result_of (getRecentMessages (Some "bob") 10 three_chat_service)
  = Ok [recent_entry healthy_chat (plain_message "m1" "hello" 100) "m1"]
  /\ Js.includes
       (Js.toLowerCase
          (from (recent_entry healthy_chat
                   (plain_message "m1" "hello" 100) "m1")))
       (Js.toLowerCase "bob") = true.
Proof.
  assert (H : result_of (getRecentMessages (Some "bob") 10
                           three_chat_service)
              = Ok [recent_entry healthy_chat
                      (plain_message "m1" "hello" 100) "m1"])
    by (vm_compute; reflexivity).
  split; [exact H|].
  refine (getRecentMessages_only_the_contact three_chat_service "bob" 10 _
            _ H _ _); [discriminate|left; reflexivity].
Defined.


(** ** Disconnecting and resetting *)

(** [resetClient()] never throws, whatever [destroy()] does; it
    destroys the old client when there is one and leaves the service as
    a newly built one: the new client, no flag set, no QR code. *)
Lemma resetClient_starts_afresh :
  forall (s : Service) (newClient : Client),
    WhatsAppLifecycle.resetClient newClient s
    = (Ok tt, fresh newClient, (destroy_trace s ++ [NewClient])%list).
Proof.
  intros [[c|] rdy auth qr] newClient;
    unfold WhatsAppLifecycle.resetClient,
      WhatsAppLifecycle.destroy_quietly, destroy_trace, bind, get,
      try_catch, call, modify, ret, fresh; simpl.
  - destruct (client_destroy c) as [[]|e]; reflexivity.
  - reflexivity.
Qed.

(** X15.  [disconnect()] on a service that has its client never throws,
    whatever [destroy()] does, and leaves a service without client: from
    then on [isConnected()] is false, the five message operations refuse
    without a call on the client, [initialize()] throws, and a second
    [disconnect()] does nothing.  Only [resetClient()] brings the
    service back: it never throws either, and leaves the service as a
    newly built one, with the new client, no flag set and no QR code. *)
Theorem disconnect_closes :
  forall (s : Service) (c : Client),
    client s = Some c ->
    WhatsAppLifecycle.disconnect s = (Ok tt, closed, [Destroy])
    /\ isConnected closed = (Ok false, closed, [])
    /\ (forall (a b : string) (n : option string) (limit : Z),
          getUnreadMessages closed = (Throw not_connected_error, closed, [])
          /\ getRecentMessages n limit closed
             = (Throw not_connected_error, closed, [])
          /\ sendMessage a b closed
             = (Throw not_connected_error, closed, [])
          /\ replyToMessage a b closed
             = (Throw not_connected_error, closed, [])
          /\ getMessagesFromContact a limit closed
             = (Throw not_connected_error, closed, []))
    /\ (forall (during : nat -> Service -> Service) (newClient : Client),
          initialize during newClient closed
          = (Throw (Some "WhatsApp client not initialized"), closed, []))
    /\ WhatsAppLifecycle.disconnect closed = (Ok tt, closed, [])
    /\ (forall newClient : Client,
          WhatsAppLifecycle.resetClient newClient closed
          = (Ok tt, fresh newClient, [NewClient])
          /\ WhatsAppLifecycle.resetClient newClient s
             = (Ok tt, fresh newClient, [Destroy; NewClient])).
Proof.
  intros [cl rdy auth qr] c Hc. simpl in Hc. subst cl.
  split.
  { unfold WhatsAppLifecycle.disconnect, bind, get, try_catch, call, modify,
      ret. simpl.
    destruct (client_destroy c) as [[]|e]; reflexivity. }
  split; [reflexivity|].
  split; [intros a b n limit; repeat split|].
  split; [intros during newClient; reflexivity|].
  split; [reflexivity|].
  intros newClient. rewrite !resetClient_starts_afresh. split; reflexivity.
Qed.

Lemma disconnect_closes_witness :
  WhatsAppLifecycle.disconnect two_chat_service = (Ok tt, closed, [Destroy])
  /\ isConnected closed = (Ok false, closed, []).
Proof.
  destruct (disconnect_closes two_chat_service two_chat_client eq_refl)
    as (H1 & H2 & _).
  split; [exact H1|exact H2].
Defined.


Lemma autoInitialize_timer_run :
  forall (during : nat -> Service -> Service) (newClient : Client)
         (s : Service),
    WhatsAppLifecycle.autoInitialize_timer during newClient s
    = match client s with
      | Some _ =>
          if isReady s then (Ok tt, s, [])
          else
            match isClientInitialized s with
            | (Ok false, _, _) =>
                match initialize during newClient s with
                | (_, s1, t1) => (Ok tt, s1, t1)
                end
            | _ => (Ok tt, s, [])
            end
      | None => (Ok tt, s, [])
      end.
Proof.
  intros during newClient s.
  unfold WhatsAppLifecycle.autoInitialize_timer, bind at 1, get.
  cbv beta iota. destruct (client s) as [c|]; [|reflexivity].
  destruct (isReady s); [reflexivity|]. cbn [negb].
  unfold bind at 1. destruct (isClientInitialized_run s) as [b ->].
  destruct b; cbn [negb]; [reflexivity|].
  unfold try_catch, bind, ret.
  destruct (initialize during newClient s) as [[[r|e] s1] t1];
    simpl; now rewrite ?app_nil_r.
Qed.

(** X16.  The timer of [autoInitialize] never throws, and it leaves a
    service alone that is ready or has no client. *)
Theorem autoInitialize_timer_is_silent :
  forall (during : nat -> Service -> Service) (newClient : Client)
         (s : Service),
    result_of (WhatsAppLifecycle.autoInitialize_timer during newClient s)
    = Ok tt
    /\ (client s = None \/ isReady s = true ->
        WhatsAppLifecycle.autoInitialize_timer during newClient s
        = (Ok tt, s, [])).
Proof.
  intros during newClient s. rewrite autoInitialize_timer_run.
  destruct (client s) as [c|] eqn:Hc.
  2: { split; [reflexivity|]. intros _. reflexivity. }
  destruct (isReady s) eqn:Hr.
  { split; [reflexivity|]. intros _. reflexivity. }
  split; [|intros [H|H]; discriminate].
  destruct (isClientInitialized_run s) as [b ->].
  destruct b; [reflexivity|].
  destruct (initialize during newClient s) as [[r s1] t1]; reflexivity.
Qed.

(** ** [initialize] and the recreated client *)

Lemma is_new_client_sleeps :
  forall k : nat, existsb is_new_client (repeat (Sleep 1000) k) = false.
Proof. induction k; simpl; auto. Qed.

(** X17.  [initialize()] builds a new client only after
    [client.initialize()] has thrown an error that mentions a destroyed
    context, a session or a closed target; it builds at most one,
    initializes it once, and then waits for at most ten seconds.  Any
    other error of [client.initialize()] is thrown on, and no client is
    built. *)
Theorem initialize_recreates_once :
  forall (during : nat -> Service -> Service) (newClient : Client)
         (s : Service),
    let run := initialize during newClient s in
    (existsb is_new_client (trace_of run) = false
     \/ exists (c : Client) (e : JsError) (k : nat),
          client s = Some c
          /\ client_initialize c = Throw e
          /\ bad_state e = true
          /\ k <= 10
          /\ trace_of run
             = (Initialize :: destroy_trace (during 0 s)
                ++ [NewClient; Initialize] ++ repeat (Sleep 1000) k)%list)
    /\ (forall (c : Client) (e : JsError),
          client s = Some c ->
          isReady s = false ->
          result_of (isClientInitialized s) = Ok false ->
          client_initialize c = Throw e ->
          bad_state e = false ->
          run = (Throw e, during 0 s, [Initialize])).
Proof.
  intros during newClient s run. unfold run. split.
  - destruct (client s) as [c|] eqn:Hc.
    2: { rewrite initialize_missing_client by exact Hc. now left. }
    destruct (isReady s) eqn:Hr.
    { rewrite (initialize_ready during newClient s c Hc Hr). now left. }
    destruct (isClientInitialized_run s) as [[|] Hi].
    + rewrite (initialize_resumed during newClient s c Hc Hr Hi).
      destruct (Js.truthy_opt (qrCode s)); [now left|].
      destruct (conclude_poll during 20 1 s) as (k & s' & Hk & ->); [lia|].
      left. apply is_new_client_sleeps.
    + destruct (client_initialize c) as [[]|e] eqn:Hinit.
      * rewrite (initialize_fresh during newClient s c Hc Hr Hi Hinit).
        destruct (conclude_poll during 20 1 (set_qrCode None (during 0 s)))
          as (k & s' & Hk & ->); [lia|].
        left. unfold trace_of. simpl. apply is_new_client_sleeps.
      * rewrite (initialize_failed during newClient s c e Hc Hr Hi Hinit).
        destruct (bad_state e) eqn:Hb; [|now left].
        right. exists c, e. rewrite recreate_run.
        destruct (client_initialize newClient) as [[]|e'].
        -- destruct (conclude_poll during 10 3
                       (during 2 (recreated during newClient (during 0 s))))
             as (k & s' & Hk & ->); [lia|].
           exists k. repeat split; try assumption; try reflexivity.
        -- exists 0. repeat split; try assumption; try reflexivity; lia.
  - intros c e Hc Hr Hi Hinit Hb.
    destruct (isClientInitialized_run s) as [b Hi'].
    rewrite Hi' in Hi. unfold result_of in Hi. simpl in Hi.
    injection Hi as ->.
    rewrite (initialize_failed during newClient s c e Hc Hr Hi' Hinit), Hb.
    reflexivity.
Qed.

(** ** The chat route: time, emotion, providers *)

(** X18.  [getTimeAgo]: below one minute, and for a date in the future, it
    says just now; from one minute on it gives a count and a unit, the
    count is at least one and is the whole number of units that have
    passed, minutes stay below 60 and hours below 24, and the unit is in
    the plural exactly when the count is above one. *)
Theorem getTimeAgo_buckets :
  forall now date : Z,
    ((now - date < 60000)%Z -> getTimeAgo now date = "just now")
    /\ ((60000 <= now - date)%Z ->
        exists (n span : Z) (unit : string),
          getTimeAgo now date
          = show n ++ " " ++ unit ++ plural (1 <? n)%Z ++ " ago"
          /\ (1 <= n)%Z
          /\ (span * n <= now - date < span * (n + 1))%Z
          /\ ((unit = "minute" /\ span = 60000%Z /\ (n < 60)%Z)
              \/ (unit = "hour" /\ span = 3600000%Z /\ (n < 24)%Z)
              \/ (unit = "day" /\ span = 86400000%Z))).
Proof.
  intros now date. unfold getTimeAgo. cbv zeta.
  set (d := (now - date)%Z).
  pose proof (Z.div_mod d 60000 ltac:(lia)) as M1.
  pose proof (Z.mod_pos_bound d 60000 ltac:(lia)) as M2.
  pose proof (Z.div_mod d 3600000 ltac:(lia)) as H1.
  pose proof (Z.mod_pos_bound d 3600000 ltac:(lia)) as H2.
  pose proof (Z.div_mod d 86400000 ltac:(lia)) as D1.
  pose proof (Z.mod_pos_bound d 86400000 ltac:(lia)) as D2.
  split.
  - intros Hd. destruct (d / 60000 <? 1)%Z eqn:E; [reflexivity|].
    apply Z.ltb_ge in E. lia.
  - intros Hd. destruct (d / 60000 <? 1)%Z eqn:E1.
    { apply Z.ltb_lt in E1. lia. }
    apply Z.ltb_ge in E1.
    destruct (d / 60000 <? 60)%Z eqn:E2.
    { apply Z.ltb_lt in E2.
      exists (d / 60000)%Z, 60000%Z, "minute".
      split; [reflexivity|]. split; [lia|]. split; [lia|]. left.
      repeat split. lia. }
    apply Z.ltb_ge in E2.
    destruct (d / 3600000 <? 24)%Z eqn:E3.
    { apply Z.ltb_lt in E3.
      exists (d / 3600000)%Z, 3600000%Z, "hour".
      split; [reflexivity|]. split; [lia|]. split; [lia|]. right. left.
      repeat split. lia. }
    apply Z.ltb_ge in E3.
    exists (d / 86400000)%Z, 86400000%Z, "day".
    split; [reflexivity|]. split; [lia|]. split; [lia|]. right. right.
    split; reflexivity.
Qed.

Lemma detectEmotion_happy_shadows :
  forall text : string,
    (forall keyword,
        In keyword happy_keywords ->
        Js.includes (Js.toLowerCase text) keyword = true ->
        ChatReplies.detectEmotion text = "happy")
    /\ (ChatReplies.detectEmotion text = "love" ->
        Js.includes (Js.toLowerCase text) "love" = false)
    /\ (ChatReplies.detectEmotion text = "excited" ->
        Js.includes (Js.toLowerCase text) "excited" = false
        /\ Js.includes (Js.toLowerCase text) "awesome" = false).
Proof.
  intros text.
  assert (Hhappy : forall keyword,
             In keyword happy_keywords ->
             Js.includes (Js.toLowerCase text) keyword = true ->
             ChatReplies.detectEmotion text = "happy").
  { intros keyword Hin Hinc.
    unfold ChatReplies.detectEmotion, ChatReplies.emotions.
    cbn [first_return fst snd].
    assert (E : existsb (fun k => Js.includes (Js.toLowerCase text) k)
                        happy_keywords = true).
    { apply existsb_exists. exists keyword. now split. }
    unfold happy_keywords in E. rewrite E. reflexivity. }
  split; [exact Hhappy|].
  assert (Hnot : forall keyword label,
             In keyword happy_keywords ->
             label <> "happy" ->
             ChatReplies.detectEmotion text = label ->
             Js.includes (Js.toLowerCase text) keyword = false).
  { intros keyword label Hin Hl Hd.
    destruct (Js.includes (Js.toLowerCase text) keyword) eqn:E;
      [|reflexivity].
    rewrite (Hhappy keyword Hin E) in Hd. congruence. }
  split.
  - intros H. apply (Hnot "love" "love"); [|discriminate|exact H].
    unfold happy_keywords. simpl. tauto.
  - intros H. split.
    + apply (Hnot "excited" "excited"); [|discriminate|exact H].
      unfold happy_keywords. simpl. tauto.
    + apply (Hnot "awesome" "excited"); [|discriminate|exact H].
      unfold happy_keywords. simpl. tauto.
Qed.

Lemma detectEmotion_neutral_iff :
  forall text : string,
    (ChatReplies.detectEmotion text = "neutral"
     <-> mentions_keyword text = false)
    /\ (mentions_keyword text = true ->
        In (ChatReplies.detectEmotion text)
           (map fst ChatReplies.emotions)).
Proof.
  intros text.
  unfold ChatReplies.detectEmotion, mentions_keyword, ChatReplies.emotions.
  cbn [first_return existsb fst snd map].
  set (inc := fun keyword => Js.includes (Js.toLowerCase text) keyword).
  repeat match goal with
         | |- context [if ?b || ?c then _ else _] =>
             destruct (b || c) eqn:?
         end;
    cbn [orb]; (split; [split; intros H; try discriminate; reflexivity|]);
    intros H; try discriminate; simpl; tauto.
Qed.

(** X19.  [detectEmotion] goes through the emotion table in its order.  It
    answers neutral exactly for the texts that hold no keyword of the
    table, and one of the seven emotions otherwise.  The first entry
    wins: a text that holds one of the keywords of happy is happy,
    whatever else it holds.  So a text found to be love does not hold
    the word love, and a text found to be excited holds neither excited
    nor awesome, although the table lists these words under those
    emotions. *)
Theorem detectEmotion_table_order :
  forall text : string,
    (ChatReplies.detectEmotion text = "neutral"
     <-> mentions_keyword text = false)
    /\ (mentions_keyword text = true ->
        In (ChatReplies.detectEmotion text)
           (map fst ChatReplies.emotions))
    /\ (forall keyword,
          In keyword happy_keywords ->
          Js.includes (Js.toLowerCase text) keyword = true ->
          ChatReplies.detectEmotion text = "happy")
    /\ (ChatReplies.detectEmotion text = "love" ->
        Js.includes (Js.toLowerCase text) "love" = false)
    /\ (ChatReplies.detectEmotion text = "excited" ->
        Js.includes (Js.toLowerCase text) "excited" = false
        /\ Js.includes (Js.toLowerCase text) "awesome" = false).
Proof.
  intros text.
  destruct (detectEmotion_neutral_iff text) as [H1 H2].
  destruct (detectEmotion_happy_shadows text) as (H3 & H4 & H5).
  repeat split; try assumption; try apply H1; try apply H5; auto.
Qed.

(** X20.  [getAIResponse] asks the providers in the order Groq, Gemini,
    Hugging Face, leaves out Groq and Gemini when their key is not set,
    and stops at the first that answers: the reply is that answer, and
    the providers after it are not called.  When every provider it may
    ask fails, the reply is the pattern-based fallback. *)
Theorem getAIResponse_first_success :
  forall (env : ChatReplies.AiEnv) (message : string),
    (forall (before after : list ChatReplies.Provider)
            (p : ChatReplies.Provider) (r : string),
        filter (enabled env) providers = (before ++ p :: after)%list ->
        (forall q, In q before ->
                   exists e, answer_of env q message = Throw e) ->
        answer_of env p message = Ok r ->
        ChatReplies.getAIResponse env message = ((before ++ [p])%list, r))
    /\ ((forall q, In q (filter (enabled env) providers) ->
                   exists e, answer_of env q message = Throw e) ->
        ChatReplies.getAIResponse env message
        = (filter (enabled env) providers,
           ChatReplies.getSimpleResponse message)).
Proof.
  intros [kg km fg fm fh] message. unfold providers.
  split.
  - intros before after p r Hsplit Hfail Hok.
    unfold ChatReplies.getAIResponse. simpl in *.
    destruct kg, km; simpl in Hsplit;
      destruct before as [|b1 [|b2 [|b3 before]]];
      simpl in Hsplit; try discriminate;
      injection Hsplit as; subst;
      repeat match goal with
             | H : _ = (_ ++ _ :: _)%list |- _ =>
                 destruct (app_cons_not_nil _ _ _ H)
             | H : [] = (_ :: _)%list |- _ => discriminate H
             end;
      repeat match goal with
             | H : forall q, In q (?x :: ?l) -> _ |- _ =>
                 let e := fresh "e" in
                 let E := fresh "E" in
                 destruct (H x (or_introl eq_refl)) as [e E];
                 simpl in E;
                 assert (forall q, In q l ->
                           exists e, answer_of
                                       (ChatReplies.mkAiEnv _ _ fg fm fh)
                                       q message = Throw e)
                   by (intros q Hq; apply H; now right);
                 clear H
             end;
      simpl in Hok;
      repeat match goal with
             | E : _ message = _ |- _ => rewrite E; clear E
             end;
      reflexivity.
  - intros Hfail.
    unfold ChatReplies.getAIResponse. simpl in *.
    destruct kg, km; simpl in Hfail;
      repeat match goal with
             | H : forall q, _ = q \/ _ -> _ |- _ =>
                 let e := fresh "e" in
                 let E := fresh "E" in
                 destruct (H _ (or_introl eq_refl)) as [e E];
                 simpl in E;
                 try (destruct (H _ (or_intror (or_introl eq_refl)))
                       as [? ?]);
                 try (destruct (H _ (or_intror (or_intror
                                                  (or_introl eq_refl))))
                       as [? ?]);
                 clear H
             end;
      simpl in *;
      repeat match goal with
             | E : _ message = _ |- _ => rewrite E; clear E
             end;
      reflexivity.
Qed.

(** ** The executor of messaging commands *)

Lemma connected_synced :
  forall s : Service,
    connected s = true ->
    connected (synced s) = true /\ synced (synced s) = synced s.
Proof.
  intros [[c|] rdy auth qr]; unfold connected, synced; simpl;
    [|discriminate].
  destruct rdy; simpl; [auto|].
  destruct auth; simpl; [auto|].
  intros ->. simpl. auto.
Qed.

Lemma not_connected_synced :
  forall s : Service, connected s = false -> synced s = s.
Proof.
  intros [[c|] rdy auth qr]; unfold connected, synced; simpl;
    [|reflexivity].
  destruct rdy; simpl; [reflexivity|].
  destruct auth; simpl; [reflexivity|].
  intros ->. reflexivity.
Qed.

(** X21.  The executor turns every failure into an answer.  Without the
    service it says so; with WhatsApp not connected it asks to connect,
    and calls nothing; and an error of a service operation becomes a
    sentence.  The one error it lets out is its own: reading the message
    of a thrown value that has none. *)
Theorem handleWhatsAppCommand_answers :
  forall (getWhatsAppService : Outcome unit) (now : Z)
         (command : ParsedCommand) (originalMessage : string) (s : Service),
    let run :=
      handleWhatsAppCommand getWhatsAppService now command originalMessage s
    in
    ((exists text, result_of run = Ok text)
     \/ result_of run = Throw includes_of_undefined)
    /\ ((exists e, getWhatsAppService = Throw e) ->
        run = (Ok service_unavailable, s, []))
    /\ (getWhatsAppService = Ok tt ->
        connected s = false ->
        run = (Ok connect_first, s, [])).
Proof.
  intros gws now command o s run.
  destruct gws as [[]|e].
  2: { split; [left; eexists; reflexivity|].
       split; [reflexivity|discriminate]. }
  split; [|split; [intros [e He]; discriminate|]].
  - assert (Hrun : run = handleWhatsAppCommand (Ok tt) now command o s)
      by reflexivity.
    clearbody run. unfold handleWhatsAppCommand, bind at 1 in Hrun.
    rewrite isConnected_run in Hrun.
    destruct (connected s); cbn [negb] in Hrun.
    2: { left. subst run. eexists. reflexivity. }
    match type of Hrun with
    | context [try_catch ?m ?h (synced s)] =>
        change (try_catch m h (synced s))
          with (match m (synced s) with
                | (Ok a, s1, t1) => (Ok a, s1, t1)
                | (Throw e, s1, t1) =>
                    match h e s1 with
                    | (r, s2, t2) => (r, s2, (t1 ++ t2)%list)
                    end
                end) in Hrun;
        destruct (m (synced s)) as [[[text|[msg|]] s1] t1]
    end.
    + left. subst run. eexists. reflexivity.
    + left. subst run. destruct (Js.includes msg "not connected");
        eexists; reflexivity.
    + right. subst run. reflexivity.
  - intros _ Hconn. unfold run, handleWhatsAppCommand, bind at 1.
    rewrite isConnected_run, Hconn.
    rewrite (not_connected_synced s Hconn). reflexivity.
Qed.

(** The executor on the commands it cannot carry out, with WhatsApp
    connected: a command of unknown action, a send without a target, a
    reply without a message and a read without a target are answered
    with the sentence that lists what can be asked, and a reply that has
    its message but no target with the request to name the contact.  No
    call is made on the client. *)
Lemma handleWhatsAppCommand_incomplete :
  forall (now : Z) (command : ParsedCommand) (originalMessage : string)
         (s : Service),
    connected s = true ->
    let run := handleWhatsAppCommand (Ok tt) now command originalMessage s in
    (action command = unknown
     \/ (action command = send /\ Js.truthy_opt (target command) = false)
     \/ (action command = reply /\ Js.truthy_opt (message command) = false)
     \/ (action command = read /\ Js.truthy_opt (target command) = false) ->
     run = (Ok not_sure, synced s, []))
    /\ (action command = reply ->
        Js.truthy_opt (message command) = true ->
        Js.truthy_opt (target command) = false ->
        run = (Ok "Please specify who to reply to.", synced s, [])).
Proof.
  intros now command o s Hconn run. unfold run. clear run.
  split.
  - intros [Ha|[[Ha Ht]|[[Ha Hm]|[Ha Ht]]]];
      unfold handleWhatsAppCommand, bind at 1;
      rewrite isConnected_run, Hconn; cbn [negb];
      unfold try_catch; rewrite Ha; simpl; rewrite ?Ht, ?Hm; reflexivity.
  - intros Ha Hm Ht. unfold handleWhatsAppCommand, bind at 1.
    rewrite isConnected_run, Hconn. cbn [negb].
    unfold try_catch. rewrite Ha. simpl.
    rewrite Hm, Ht. reflexivity.
Qed.

Lemma parsed_check_unread :
  forall (userMessage : string) (command : ParsedCommand),
    parseCommand userMessage = Some command ->
    action command = check ->
    filters_unread command = true.
Proof.
  intros u command H Ha. unfold parseCommand in H.
  set (l := Js.trim (Js.toLowerCase u)) in *.
  destruct (Js.includes l "whatsapp" || Js.includes l "message"
            || Js.includes l "text" || Js.includes l "chat").
  2: { destruct (Js.includes l "email" || Js.includes l "mail").
       { injection H as <-. discriminate Ha. }
       destruct (Js.includes l "calendar" || Js.includes l "event"
                 || Js.includes l "meeting"); [|discriminate].
       injection H as <-. discriminate Ha. }
  injection H as <-. revert Ha. unfold parseWhatsAppCommand.
  destruct (check_trigger l).
  { destruct (extractContactName u) as [n|]; [|reflexivity].
    destruct (Js.truthy n); reflexivity. }
  destruct (send_trigger l).
  { destruct (extractContactName u) as [n|];
      [destruct (Js.truthy n)|];
      (destruct (extractMessageToSend u) as [m|];
       [destruct (Js.truthy m)|]); discriminate. }
  destruct (reply_trigger l).
  { destruct (extractContactName u) as [n|];
      [destruct (Js.truthy n)|];
      (destruct (extractReplyMessage u) as [m|];
       [destruct (Js.truthy m)|]); discriminate. }
  destruct (read_trigger l); [|discriminate].
  destruct (extractContactName u) as [n|]; [|discriminate].
  destruct (Js.truthy n); discriminate.
Qed.

(** X22.  A check command that [parseCommand] builds always asks for the
    unread messages, so the executor lists all unread messages: the
    contact that the command may name has no effect on its answer. *)
Theorem check_command_ignores_contact :
  forall (userMessage : string) (command : ParsedCommand) (now : Z)
         (originalMessage : string) (s : Service),
    parseCommand userMessage = Some command ->
    action command = check ->
    handleWhatsAppCommand (Ok tt) now command originalMessage s
    = handleWhatsAppCommand (Ok tt) now
        (mkCommand whatsapp check None None None
           (Some (mkFilters (Some true) None None)))
        originalMessage s.
Proof.
  intros u command now o s Hparse Ha.
  pose proof (parsed_check_unread u command Hparse Ha) as Hu.
  unfold handleWhatsAppCommand. rewrite Ha, Hu. reflexivity.
Qed.

Lemma check_command_ignores_contact_witness :
  handleWhatsAppCommand (Ok tt) 0
    (mkCommand whatsapp check (Some "John") None None
       (Some (mkFilters (Some true) (Some "John") None)))
    "any new messages from John" two_chat_service
  = handleWhatsAppCommand (Ok tt) 0
      (mkCommand whatsapp check None None None
         (Some (mkFilters (Some true) None None)))
      "any new messages from John" two_chat_service.
Proof.
  refine (check_command_ignores_contact "any new messages from John"
            (mkCommand whatsapp check (Some "John") None None
               (Some (mkFilters (Some true) (Some "John") None)))
            0 "any new messages from John" two_chat_service _ eq_refl).
  vm_compute. reflexivity.
Defined.


Lemma getMessagesFromContact_by_name :
  forall (s : Service) (c : Client) (chats : list Chat) (chat : Chat)
         (contactName : string) (limit : Z),
    client s = Some c ->
    connected s = true ->
    getChats c = Ok chats ->
    find (chat_named (Js.toLowerCase contactName)) chats = Some chat ->
    getMessagesFromContact contactName limit s
    = (match chat_fetchMessages chat limit with
       | Ok ms =>
           map_messages (or_else (chat_name chat) contactName)
                        (chat_isGroup chat) ms
       | Throw e => Throw e
       end,
       synced s,
       [GetChats; FetchMessages (chat_id_serialized chat) limit]).
Proof.
  intros s c chats chat n limit Hc Hconn Hchats Hfind.
  rewrite getMessagesFromContact_guarded, guarded_run, Hc, Hconn.
  unfold try_catch, bind. rewrite find_target_chat_run, Hchats, Hfind.
  unfold call, access, throw.
  destruct (chat_fetchMessages chat limit) as [ms|e]; [|reflexivity].
  destruct (map_messages (or_else (chat_name chat) n) (chat_isGroup chat)
              ms) as [r|e]; reflexivity.
Qed.

(** X23.  The executor on a reply command.  It asks the chat of the contact
    for its last message, takes the id of that message, and hands the id
    to [replyToMessage], which asks for the chat list again and looks
    through the chats from the first: the reply is made to the message
    of that id in the first chat that holds one among its last fifty. *)
Theorem reply_command_finds_message_by_id :
  forall (s : Service) (c : Client) (pre post : list Chat)
         (chat holder : Chat) (m held : Message) (ms : list Message)
         (name text i : string) (now : Z) (command : ParsedCommand)
         (originalMessage : string),
    client s = Some c ->
    connected s = true ->
    getChats c = Ok (pre ++ holder :: post)%list ->
    action command = reply ->
    target command = Some name ->
    Js.truthy name = true ->
    message command = Some text ->
    Js.truthy text = true ->
    find (chat_named (Js.toLowerCase name)) (pre ++ holder :: post)
    = Some chat ->
    chat_fetchMessages chat 1 = Ok [m] ->
    msg_id m = Some i ->
    Forall (lacks_message i) pre ->
    chat_fetchMessages holder 50 = Ok ms ->
    find_by_id i ms = Ok (Some held) ->
    msg_reply held text = Ok tt ->
    handleWhatsAppCommand (Ok tt) now command originalMessage s
    = (Ok ("Replied to " ++ name ++ ": " ++ dq ++ text ++ dq),
       synced s,
       ([GetChats; FetchMessages (chat_id_serialized chat) 1; GetChats]
        ++ map fetch_fifty pre
        ++ [fetch_fifty holder; Reply i text])%list).
Proof.
  intros s c pre post chat holder m held ms name text i now command o
    Hc Hconn Hchats Ha Ht Htt Hm Hmt Hfind Hone Hid Hpre Hfifty Hheld Hreply.
  destruct (connected_synced s Hconn) as [Hconn' Hsync].
  assert (Hc' : client (synced s) = Some c).
  { destruct (synced_keeps s) as [-> _]. exact Hc. }
  pose proof (getMessagesFromContact_by_name (synced s) c _ chat name 1
                Hc' Hconn' Hchats Hfind) as Hget.
  rewrite Hone, Hsync in Hget. simpl in Hget.
  unfold read_id in Hget. rewrite Hid in Hget.
  pose proof (replyToMessage_guarded i text) as Hg.
  assert (Hrep : replyToMessage i text (synced s)
                 = (Ok true, synced s,
                    GetChats
                    :: (map fetch_fifty pre
                        ++ [fetch_fifty holder; Reply i text])%list)).
  { rewrite Hg, guarded_run, Hc', Hconn', Hsync.
    rewrite reply_attempt_run, Hchats.
    rewrite (reply_loop_holder i text pre post holder ms held (synced s)
               Hpre Hfifty Hheld).
    rewrite Hreply. reflexivity. }
  unfold handleWhatsAppCommand, bind at 1.
  rewrite isConnected_run, Hconn. cbn [negb].
  unfold try_catch at 1. rewrite Ha, Ht, Hm. simpl.
  rewrite Htt, Hmt. simpl.
  unfold bind at 1. rewrite Hget.
  unfold bind at 1. cbn [id contact_entry].
  rewrite Hrep. unfold ret. cbv beta iota. cbn [app].
  rewrite !app_nil_r. reflexivity.
Qed.

Lemma reply_command_finds_message_by_id_witness :
  handleWhatsAppCommand (Ok tt) 0 reply_to_Dana "reply to Dana with ok"
    dana_service
  = (Ok ("Replied to Dana: " ++ dq ++ "ok" ++ dq), dana_service,
     [GetChats; FetchMessages "dana@c.us" 1; GetChats;
      fetch_fifty busy_chat; fetch_fifty dana_chat; Reply "d2" "ok"]).
Proof.
  refine (reply_command_finds_message_by_id dana_service dana_client
            [busy_chat] [] dana_chat dana_chat
            (plain_message "d2" "see you" 500)
            (plain_message "d2" "see you" 500)
            [plain_message "d2" "see you" 500; plain_message "d1" "hi" 400]
            "Dana" "ok" "d2" 0 reply_to_Dana "reply to Dana with ok"
            eq_refl eq_refl eq_refl eq_refl eq_refl eq_refl eq_refl eq_refl
            eq_refl eq_refl eq_refl _ eq_refl eq_refl eq_refl).
  constructor; [|constructor].
  eexists. split; reflexivity.
Defined.


(** ** The chat endpoint *)

Lemma try_catch_run :
  forall {A : Type} (m : M Service A) (h : JsError -> M Service A)
         (s : Service),
    try_catch m h s
    = match m s with
      | (Ok a, s1, t1) => (Ok a, s1, t1)
      | (Throw e, s1, t1) =>
          match h e s1 with
          | (r, s2, t2) => (r, s2, (t1 ++ t2)%list)
          end
      end.
Proof. reflexivity. Qed.

(** [POST] of the chat route always answers: a body that cannot be
    read gives the status 500 answer with the fallback reply, and a
    missing or empty message the status 400 answer; in both cases the
    WhatsApp service is left alone. *)
Lemma chat_POST_answers :
  forall (env : ChatReplies.AiEnv) (getWhatsAppService : Outcome unit)
         (now : Z) (body : Outcome (option string)) (s : Service),
    (exists resp,
        result_of (ChatReplies.POST env getWhatsAppService now body s)
        = Ok resp)
    /\ (body = Ok None \/ body = Ok (Some EmptyString) ->
        ChatReplies.POST env getWhatsAppService now body s
        = (Ok (ChatReplies.BadRequest "Message is required"), s, []))
    /\ ((exists e, body = Throw e) ->
        ChatReplies.POST env getWhatsAppService now body s
        = (Ok (ChatReplies.InternalError "Internal server error"
                 (ChatReplies.getSimpleResponse "error") "sad"), s, [])).
Proof.
  intros env gws now body s. split; [|split].
  - unfold ChatReplies.POST. rewrite try_catch_run.
    match goal with
    | |- context [match ?m s with _ => _ end] =>
        destruct (m s) as [[[resp|e] s1] t1]
    end; eexists; reflexivity.
  - intros [->| ->]; reflexivity.
  - intros [e ->]. reflexivity.
Qed.

Lemma parseCommand_without_messaging_word :
  forall userMessage : string,
    no_messaging_word userMessage ->
    parseCommand userMessage = None
    \/ parseCommand userMessage
       = Some (mkCommand email unknown None None None None)
    \/ parseCommand userMessage
       = Some (mkCommand calendar unknown None None None None).
Proof.
  intros u (H1 & H2 & H3 & H4). unfold parseCommand.
  cbv zeta. rewrite H1, H2, H3, H4. cbn [orb].
  destruct (Js.includes (Js.trim (Js.toLowerCase u)) "email"
            || Js.includes (Js.trim (Js.toLowerCase u)) "mail");
    [right; left; reflexivity|].
  destruct (Js.includes (Js.trim (Js.toLowerCase u)) "calendar"
            || Js.includes (Js.trim (Js.toLowerCase u)) "event"
            || Js.includes (Js.trim (Js.toLowerCase u)) "meeting");
    [right; right; reflexivity|left; reflexivity].
Qed.

(** X24.  A message that holds none of the words whatsapp, message, text and
    chat never reaches the WhatsApp service: the answer is the reply of
    [getAIResponse] with the emotion of [detectEmotion], and the command
    reported with it is null or a mail or calendar command without any
    field. *)
Theorem chat_POST_plain_message :
  forall (env : ChatReplies.AiEnv) (getWhatsAppService : Outcome unit)
         (now : Z) (userMessage : string) (s : Service),
    userMessage <> EmptyString ->
    no_messaging_word userMessage ->
    ChatReplies.POST env getWhatsAppService now (Ok (Some userMessage)) s
    = (Ok (ChatReplies.Answer
             (snd (ChatReplies.getAIResponse env userMessage))
             (ChatReplies.detectEmotion userMessage)
             (parseCommand userMessage)), s, [])
    /\ (parseCommand userMessage = None
        \/ parseCommand userMessage
           = Some (mkCommand email unknown None None None None)
        \/ parseCommand userMessage
           = Some (mkCommand calendar unknown None None None None)).
Proof.
  intros env gws now u s Hne Hno.
  pose proof (parseCommand_without_messaging_word u Hno) as Hp.
  split; [|exact Hp].
  unfold ChatReplies.POST. rewrite try_catch_run.
  unfold bind at 1, access.
  destruct u as [|a u]; [congruence|].
  cbn [Js.truthy_opt Js.truthy negb or_else].
  destruct Hp as [-> | [-> | ->]]; reflexivity.
Qed.

Lemma chat_POST_plain_message_witness :
  ChatReplies.POST no_keys (Ok tt) 0 (Ok (Some "hello there"))
    two_chat_service
  = (Ok (ChatReplies.Answer "Nice to hear from you." "neutral" None),
     two_chat_service, []).
Proof.
  refine (eq_trans
            (proj1 (chat_POST_plain_message no_keys (Ok tt) 0 "hello there"
                      two_chat_service _ _)) _).
  - discriminate.
  - repeat split; vm_compute; reflexivity.
  - vm_compute. reflexivity.
Defined.


(** X25.  A message that holds one of the words whatsapp, message, text and
    chat is a messaging command: the answer does not depend on the chat
    completion providers, and when it is an answer of status 200 it
    carries the emotion listening and the parsed command. *)
Theorem chat_POST_command_skips_providers :
  forall (env env' : ChatReplies.AiEnv) (getWhatsAppService : Outcome unit)
         (now : Z) (userMessage : string) (s : Service),
    (let l := Js.trim (Js.toLowerCase userMessage) in
     Js.includes l "whatsapp" || Js.includes l "message"
     || Js.includes l "text" || Js.includes l "chat") = true ->
    ChatReplies.POST env getWhatsAppService now (Ok (Some userMessage)) s
    = ChatReplies.POST env' getWhatsAppService now (Ok (Some userMessage)) s
    /\ exists command,
         parseCommand userMessage = Some command
         /\ type command = whatsapp
         /\ forall response emotion reported,
              result_of (ChatReplies.POST env getWhatsAppService now
                           (Ok (Some userMessage)) s)
              = Ok (ChatReplies.Answer response emotion reported) ->
              emotion = "listening" /\ reported = Some command.
Proof.
  intros env env' gws now u s Hword. cbv zeta in Hword.
  assert (Hp : parseCommand u
               = Some (parseWhatsAppCommand (Js.trim (Js.toLowerCase u)) u)).
  { unfold parseCommand. cbv zeta. now rewrite Hword. }
  assert (Ht : type (parseWhatsAppCommand (Js.trim (Js.toLowerCase u)) u)
               = whatsapp).
  { unfold parseWhatsAppCommand.
    repeat match goal with
           | |- context [if ?b then _ else _] => destruct b
           | |- context [match ?x with Some _ => _ | None => _ end] =>
               destruct x
           end; reflexivity. }
  assert (Hu : u <> EmptyString).
  { intros ->. vm_compute in Hword. discriminate. }
  destruct u as [|a u]; [congruence|].
  set (m := String a u) in *.
  set (c := parseWhatsAppCommand (Js.trim (Js.toLowerCase m)) m) in *.
  assert (Hrun :
    forall e0,
      ChatReplies.POST e0 gws now (Ok (Some m)) s
      = match handleWhatsAppCommand gws now c m s with
        | (Ok response, s1, t1) =>
            (Ok (ChatReplies.Answer response "listening" (Some c)), s1, t1)
        | (Throw _, s1, t1) =>
            (Ok (ChatReplies.InternalError "Internal server error"
                   (ChatReplies.getSimpleResponse "error") "sad"), s1, t1)
        end).
  { intros e0. unfold ChatReplies.POST. rewrite try_catch_run.
    unfold bind at 1, access.
    cbn [Js.truthy_opt negb or_else].
    change (Js.truthy m) with true. cbv iota.
    rewrite Hp, Ht. cbn [ChatReplies.is_whatsapp].
    unfold bind, ret. cbn [negb]. cbv beta iota.
    destruct (handleWhatsAppCommand gws now c m s) as [[[r|e] s1] t1];
      cbn [app]; rewrite ?app_nil_r; reflexivity. }
  split; [now rewrite (Hrun env), (Hrun env')|].
  exists c. split; [exact Hp|]. split; [exact Ht|].
  intros response emotion reported. rewrite (Hrun env).
  destruct (handleWhatsAppCommand gws now c m s) as [[[r|e] s1] t1];
    unfold result_of; simpl; [|discriminate].
  intros [= _ <- <-]. split; reflexivity.
Qed.

Lemma chat_POST_command_skips_providers_witness :
  ChatReplies.POST no_keys (Ok tt) 0 (Ok (Some "text john hello"))
    two_chat_service
  = ChatReplies.POST groq_only (Ok tt) 0 (Ok (Some "text john hello"))
      two_chat_service.
Proof.
  refine (proj1 (chat_POST_command_skips_providers no_keys groq_only (Ok tt)
                   0 "text john hello" two_chat_service _)).
  vm_compute. reflexivity.
Defined.


(** ** The send endpoint *)

Lemma reply_attempt_never_sends :
  forall (c : Client) (s : Service) (messageId replyText : string),
    existsb is_send (trace_of (reply_attempt messageId replyText c s))
    = false.
Proof.
  intros c s i text. rewrite reply_attempt_run.
  destruct (getChats c) as [chats|e]; [|reflexivity].
  assert (Hquiet : forall l, existsb is_send (map fetch_fifty l) = false).
  { induction l; simpl; auto. }
  destruct (reply_loop_shape i text chats s)
    as (r & f & _ & [[E Hr]|[E Hr]]); rewrite E.
  - destruct Hr as [->|[e ->]]; unfold trace_of; cbn [snd existsb is_send orb];
      apply Hquiet.
  - destruct Hr as [->|[e ->]]; unfold trace_of; cbn [snd existsb is_send orb];
      rewrite existsb_app, Hquiet; reflexivity.
Qed.

Lemma replyToMessage_never_sends :
  forall (s : Service) (messageId replyText : string),
    existsb is_send (trace_of (replyToMessage messageId replyText s))
    = false.
Proof.
  intros s i text. rewrite replyToMessage_guarded, guarded_run.
  destruct (client s) as [c|]; [|reflexivity].
  destruct (connected s); [|reflexivity].
  apply reply_attempt_never_sends.
Qed.

Lemma send_locally_run :
  forall (b : SendRoute.SendBody) (s : Service),
    SendRoute.send_locally (Ok tt) b s
    = if connected s then
        if Js.truthy_opt (SendRoute.replyTo b) then
          match
            replyToMessage (or_else (SendRoute.replyTo b) EmptyString)
              (or_else (SendRoute.message b) EmptyString) (synced s)
          with
          | (Ok ok, s1, t1) =>
              (Ok (SendRoute.Sent ok
                     (if ok then
                        "Message sent"
                        ++ (if Js.truthy_opt (SendRoute.contact b)
                            then " to "
                                 ++ or_else (SendRoute.contact b) EmptyString
                            else EmptyString)
                      else "Failed to send message")), s1, t1)
          | (Throw e, s1, t1) =>
              (Ok (SendRoute.Failure 500
                     (ExternalService.message_or e "Failed to send message")),
               s1, t1)
          end
        else if Js.truthy_opt (SendRoute.contact b) then
          match
            sendMessage (or_else (SendRoute.contact b) EmptyString)
              (or_else (SendRoute.message b) EmptyString) (synced s)
          with
          | (Ok ok, s1, t1) =>
              (Ok (SendRoute.Sent ok
                     (if ok then
                        "Message sent" ++ " to "
                        ++ or_else (SendRoute.contact b) EmptyString
                      else "Failed to send message")), s1, t1)
          | (Throw e, s1, t1) =>
              (Ok (SendRoute.Failure 500
                     (ExternalService.message_or e "Failed to send message")),
               s1, t1)
          end
        else
          (Ok (SendRoute.Failure 400 "Either contact or replyTo is required"),
           synced s, [])
      else
        (Ok (SendRoute.Failure 400
               "WhatsApp not connected. Please connect first."), s, []).
Proof.
  intros b s. unfold SendRoute.send_locally. rewrite try_catch_run.
  unfold bind at 1, access. cbv beta iota. unfold bind at 1.
  rewrite isConnected_run.
  destruct (connected s) eqn:Hconn; cbn [negb].
  2: { rewrite (not_connected_synced s Hconn). reflexivity. }
  destruct (Js.truthy_opt (SendRoute.replyTo b)).
  - unfold bind, ret.
    destruct (replyToMessage _ _ (synced s)) as [[[ok|e] s1] t1];
      simpl; now rewrite ?app_nil_r.
  - destruct (Js.truthy_opt (SendRoute.contact b)).
    + unfold bind, ret.
      destruct (sendMessage _ _ (synced s)) as [[[ok|e] s1] t1];
        simpl; now rewrite ?app_nil_r.
    + reflexivity.
Qed.

(** [POST] of the send route always answers, and it asks for the
    message before anything else.  When the external service is
    configured and answers, or the call to it throws, the local service
    is left alone. *)
Lemma send_POST_answers :
  forall (body : Outcome SendRoute.SendBody)
         (external : ExternalService.External)
         (getWhatsAppService : Outcome unit) (s : Service),
    let run := SendRoute.POST body external getWhatsAppService s in
    (exists resp, result_of run = Ok resp)
    /\ (forall b,
          body = Ok b ->
          Js.truthy_opt (SendRoute.message b) = false ->
          run = (Ok (SendRoute.Failure 400 "Message is required"), s, []))
    /\ (forall b,
          body = Ok b ->
          Js.truthy_opt (SendRoute.message b) = true ->
          (forall data,
              external = ExternalService.Responds true (Ok data) ->
              run = (Ok (SendRoute.Forwarded data), s, []))
          /\ ((exists e, external = ExternalService.FetchThrows e)
              \/ (exists e,
                     external = ExternalService.Responds true (Throw e)) ->
              run = (Ok (SendRoute.Failure 503
                           "WhatsApp service unavailable"), s, []))).
Proof.
  intros body external gws s run. unfold run. clear run.
  split; [|split].
  - unfold SendRoute.POST. rewrite try_catch_run.
    match goal with
    | |- context [match ?m s with _ => _ end] =>
        destruct (m s) as [[[resp|e] s1] t1]
    end; eexists; reflexivity.
  - intros b -> Hm. unfold SendRoute.POST. rewrite try_catch_run.
    unfold bind, access. rewrite Hm. reflexivity.
  - intros b -> Hm. split.
    + intros data ->. unfold SendRoute.POST. rewrite try_catch_run.
      unfold bind, access. rewrite Hm. reflexivity.
    + intros [[e ->] | [e ->]]; unfold SendRoute.POST; rewrite try_catch_run;
        unfold bind, access; rewrite Hm; reflexivity.
Qed.

(** X26.  [POST] of the send route on the local service, which is used when
    no external service is configured or the external one answers with a
    failure.  Not connected: status 400, and nothing is called.  With a
    reply target the message is a reply, even when a contact is given
    too: nothing is sent to the contact.  With neither: status 400, and
    nothing is called. *)
Theorem send_POST_local :
  forall (b : SendRoute.SendBody) (external : ExternalService.External)
         (s : Service),
    Js.truthy_opt (SendRoute.message b) = true ->
    external = ExternalService.NoServiceUrl
    \/ (exists data, external = ExternalService.Responds false data) ->
    let run := SendRoute.POST (Ok b) external (Ok tt) s in
    (connected s = false ->
     run = (Ok (SendRoute.Failure 400
                  "WhatsApp not connected. Please connect first."), s, []))
    /\ (connected s = true ->
        Js.truthy_opt (SendRoute.replyTo b) = true ->
        trace_of run
        = trace_of (replyToMessage
                      (or_else (SendRoute.replyTo b) EmptyString)
                      (or_else (SendRoute.message b) EmptyString) s)
        /\ existsb is_send (trace_of run) = false)
    /\ (connected s = true ->
        Js.truthy_opt (SendRoute.replyTo b) = false ->
        Js.truthy_opt (SendRoute.contact b) = false ->
        run = (Ok (SendRoute.Failure 400
                     "Either contact or replyTo is required"),
               synced s, [])).
Proof.
  intros b external s Hm Hext run.
  assert (Hrun : run = SendRoute.send_locally (Ok tt) b s).
  { unfold run, SendRoute.POST. rewrite try_catch_run.
    unfold bind at 1, access. cbv beta iota. rewrite Hm. cbn [negb].
    destruct Hext as [-> | [data ->]];
      destruct (SendRoute.send_locally (Ok tt) b s) as [[[r|e] s1] t1] eqn:E;
      try reflexivity.
    - exfalso. revert E. rewrite send_locally_run.
      repeat match goal with
             | |- context [if ?x then _ else _] => destruct x
             | |- context [match ?x with _ => _ end] => destruct x
             end; discriminate.
    - exfalso. revert E. rewrite send_locally_run.
      repeat match goal with
             | |- context [if ?x then _ else _] => destruct x
             | |- context [match ?x with _ => _ end] => destruct x
             end; discriminate. }
  clearbody run. subst run. rewrite send_locally_run.
  split; [|split].
  - intros ->. reflexivity.
  - intros Hconn Hr. rewrite Hconn, Hr.
    set (i := or_else (SendRoute.replyTo b) EmptyString).
    set (text := or_else (SendRoute.message b) EmptyString).
    assert (Hsame : trace_of (replyToMessage i text (synced s))
                    = trace_of (replyToMessage i text s)).
    { destruct (connected_synced s Hconn) as [Hc1 Hc2].
      rewrite replyToMessage_guarded, !guarded_run.
      destruct (synced_keeps s) as [-> _].
      rewrite Hc1, Hc2, Hconn. destruct (client s); reflexivity. }
    pose proof (replyToMessage_never_sends (synced s) i text) as Hq.
    rewrite <- Hsame.
    destruct (replyToMessage i text (synced s)) as [[[ok|e] s1] t1];
      split; try reflexivity; exact Hq.
  - intros Hconn Hr Hc. rewrite Hconn, Hr, Hc. reflexivity.
Qed.

Lemma send_POST_local_witness :
  let run :=
    SendRoute.POST
      (Ok (SendRoute.mkSendBody (Some "bob") (Some "hi") (Some "m2")))
      ExternalService.NoServiceUrl (Ok tt) two_chat_service in
  trace_of run = trace_of (replyToMessage "m2" "hi" two_chat_service)
  /\ existsb is_send (trace_of run) = false.
Proof.
  refine (proj1 (proj2
            (send_POST_local
               (SendRoute.mkSendBody (Some "bob") (Some "hi") (Some "m2"))
               ExternalService.NoServiceUrl two_chat_service eq_refl
               (or_introl eq_refl))) eq_refl eq_refl).
Defined.


(** ** The status, messages, QR code and connect endpoints *)

(** X27.  [GET] of the status route never answers with status 500.  On the
    local service it reports the answer of [isConnected()] and the
    stored QR code, and calls nothing on the client. *)
Theorem status_GET_reports_flags :
  forall (production : bool) (external : ExternalService.External)
         (getWhatsAppService : Outcome unit) (s : Service),
    let run := StatusRoute.GET production external getWhatsAppService s in
    (exists resp,
        result_of run = Ok resp
        /\ forall error, resp <> StatusRoute.Failed error)
    /\ (external = ExternalService.NoServiceUrl
        \/ (exists data, external = ExternalService.Responds false data) ->
        getWhatsAppService = Ok tt ->
        run = (Ok (StatusRoute.Status (connected s)
                     (or_undefined (qrCode s))), synced s, [])).
Proof.
  intros production external gws s run.
  assert (Hlocal :
    forall ext,
      ext = ExternalService.NoServiceUrl
      \/ (exists data, ext = ExternalService.Responds false data) ->
      StatusRoute.GET production ext gws s
      = match gws with
        | Ok _ =>
            (Ok (StatusRoute.Status (connected s) (or_undefined (qrCode s))),
             synced s, [])
        | Throw e =>
            (Ok (StatusRoute.RequiresExternal
                   (if production then StatusRoute.cannot_run_on_vercel
                    else ExternalService.message_or e
                           "Local WhatsApp service unavailable")), s, [])
        end).
  { intros ext Hext. unfold StatusRoute.GET. cbv zeta.
    rewrite try_catch_run.
    assert (E : forall A (x y : A),
               match ext with
               | ExternalService.NoServiceUrl => x
               | ExternalService.FetchThrows _ => y
               | ExternalService.Responds true (Ok _) => y
               | ExternalService.Responds true (Throw _) => y
               | ExternalService.Responds false _ => x
               end = x).
    { intros A x y. destruct Hext as [-> | [data ->]]; reflexivity. }
    destruct gws as [[]|e].
    - destruct Hext as [-> | [data ->]];
        rewrite try_catch_run; unfold bind at 1, access; cbv beta iota;
        unfold bind at 1; rewrite try_catch_run;
        unfold bind at 1; rewrite isConnected_run;
        unfold getQRCode, bind, get, ret; simpl;
        destruct (synced_keeps s) as (_ & -> & _); reflexivity.
    - destruct Hext as [-> | [data ->]]; reflexivity. }
  split.
  - unfold run.
    destruct external as [|e|[|] [data|e]];
      try (rewrite Hlocal by (first [now left | right; eexists; reflexivity]);
           destruct gws as [[]|e']);
      eexists; (split; [reflexivity|intros error; discriminate]).
  - intros Hext ->. unfold run. now rewrite (Hlocal external Hext).
Qed.

Lemma messages_GET_local_run :
  forall (q : MessagesRoute.Query) (external : ExternalService.External)
         (s : Service),
    external = ExternalService.NoServiceUrl
    \/ (exists data, external = ExternalService.Responds false data) ->
    MessagesRoute.GET (Ok q) external (Ok tt) s
    = if connected s then
        match
          (if MessagesRoute.unreadOnly q then getUnreadMessages
           else if Js.truthy_opt (MessagesRoute.contactName q)
           then getMessagesFromContact
                  (or_else (MessagesRoute.contactName q) EmptyString)
                  (MessagesRoute.limit q)
           else getRecentMessages None (MessagesRoute.limit q)) (synced s)
        with
        | (Ok messages, s1, t1) =>
            (Ok (MessagesRoute.Messages messages (List.length messages)),
             s1, t1)
        | (Throw e, s1, t1) =>
            (Ok (MessagesRoute.Failure 500
                   (ExternalService.message_or e "Failed to get messages")),
             s1, t1)
        end
      else
        (Ok (MessagesRoute.Failure 400
               "WhatsApp not connected. Please connect first."), s, []).
Proof.
  intros q external s Hext.
  unfold MessagesRoute.GET. rewrite try_catch_run.
  unfold bind at 1, access. cbv beta iota zeta.
  match goal with
  | |- context [try_catch ?m ?h] =>
      assert (Hl : try_catch m h s
                   = if connected s then
                       match
                         (if MessagesRoute.unreadOnly q then getUnreadMessages
                          else if Js.truthy_opt (MessagesRoute.contactName q)
                          then getMessagesFromContact
                                 (or_else (MessagesRoute.contactName q)
                                    EmptyString)
                                 (MessagesRoute.limit q)
                          else getRecentMessages None (MessagesRoute.limit q))
                           (synced s)
                       with
                       | (Ok messages, s1, t1) =>
                           (Ok (MessagesRoute.Messages messages
                                  (List.length messages)), s1, t1)
                       | (Throw e, s1, t1) =>
                           (Ok (MessagesRoute.Failure 500
                                  (ExternalService.message_or e
                                     "Failed to get messages")), s1, t1)
                       end
                     else
                       (Ok (MessagesRoute.Failure 400
                              "WhatsApp not connected. Please connect first."),
                        s, []))
  end.
  { rewrite try_catch_run. unfold bind at 1, access. cbv beta iota.
    unfold bind at 1. rewrite isConnected_run.
    destruct (connected s) eqn:Hconn; cbn [negb].
    2: { rewrite (not_connected_synced s Hconn). reflexivity. }
    unfold bind, ret.
    match goal with
    | |- context [match ?m (synced s) with _ => _ end] =>
        destruct (m (synced s)) as [[[ms|e] s1] t1]
    end; simpl; now rewrite ?app_nil_r. }
  destruct Hext as [-> | [data ->]]; rewrite Hl;
    destruct (connected s); try reflexivity;
    match goal with
    | |- context [match ?m (synced s) with _ => _ end] =>
        destruct (m (synced s)) as [[[ms|e] s1] t1]
    end; simpl; now rewrite ?app_nil_r.
Qed.

(** X28.  [GET] of the messages route on the local service.
    - Asked for the recent messages while the session is authenticated
      but not ready, it passes its own connection check and then fails
      with status 500 and the not-connected error of
      [getRecentMessages]; nothing is called on the client.
    - Asked for the unread messages, it ignores the contact and the
      limit of the query; [count] is the number of the messages it
      returns, and they are sorted newest first when their dates are
      valid. *)
Theorem messages_GET_local :
  forall (q : MessagesRoute.Query) (external : ExternalService.External)
         (s : Service),
    external = ExternalService.NoServiceUrl
    \/ (exists data, external = ExternalService.Responds false data) ->
    let run := MessagesRoute.GET (Ok q) external (Ok tt) s in
    (connected s = true ->
     isReady s = false ->
     MessagesRoute.unreadOnly q = false ->
     Js.truthy_opt (MessagesRoute.contactName q) = false ->
     run = (Ok (MessagesRoute.Failure 500
                  "WhatsApp not connected. Please scan QR code first."),
            synced s, []))
    /\ (MessagesRoute.unreadOnly q = true ->
        run = MessagesRoute.GET (Ok (MessagesRoute.mkQuery None true 10))
                external (Ok tt) s
        /\ forall messages count,
             result_of run = Ok (MessagesRoute.Messages messages count) ->
             count = List.length messages
             /\ (valid_dates messages -> newest_first_order messages)).
Proof.
  intros q external s Hext run. unfold run. clear run.
  rewrite !(messages_GET_local_run _ external s Hext).
  split.
  - intros Hconn Hr Hu Hc. rewrite Hconn, Hu, Hc.
    rewrite getRecentMessages_not_ready; [reflexivity|].
    destruct (synced_keeps s) as (_ & _ & -> & _). exact Hr.
  - intros Hu. rewrite Hu. cbn [MessagesRoute.unreadOnly].
    split; [reflexivity|].
    intros messages count.
    destruct (connected s); [|discriminate].
    destruct (getUnreadMessages (synced s)) as [[[ms|e] s1] t1] eqn:E;
      unfold result_of; simpl; [|discriminate].
    intros [= <- <-]. split; [reflexivity|].
    exact (getUnreadMessages_sorted _ _ _ _ E).
Qed.

Lemma messages_GET_local_witness :
  MessagesRoute.GET (Ok (MessagesRoute.mkQuery None false 10))
    ExternalService.NoServiceUrl (Ok tt) authenticated_service
  = (Ok (MessagesRoute.Failure 500
           "WhatsApp not connected. Please scan QR code first."),
     authenticated_service, []).
Proof.
  exact (proj1
           (messages_GET_local (MessagesRoute.mkQuery None false 10)
              ExternalService.NoServiceUrl authenticated_service
              (or_introl eq_refl))
           eq_refl eq_refl eq_refl eq_refl).
Defined.


Lemma initialize_sleeps :
  forall (during : nat -> Service -> Service) (newClient : Client)
         (s : Service),
    count_sleeps (trace_of (initialize during newClient s)) <= 20.
Proof.
  intros during newClient s.
  destruct (initialize_shape during newClient s)
    as (pre & k & Hk & Ht & Hpre & _).
  rewrite Ht, count_sleeps_app, count_sleeps_repeat.
  assert (H0 : count_sleeps pre = 0).
  { clear Ht. induction Hpre as [|e l He Hl IH]; [reflexivity|].
    destruct He as [-> | [-> | ->]]; exact IH. }
  lia.
Qed.

(** X29.  [GET] of the QR code route always answers, and never with status
    500.  It waits for at most twenty seconds; a QR code it returns is
    not empty and is the one the service holds when the route returns;
    and a stored QR code is returned at once, without a call on the
    client. *)
Theorem qr_GET_answers :
  forall (during : nat -> Service -> Service) (newClient : Client)
         (external : ExternalService.External)
         (getWhatsAppService : Outcome unit) (s : Service),
    let run := QrRoute.GET during newClient external getWhatsAppService s in
    (exists resp,
        result_of run = Ok resp
        /\ forall error, resp <> QrRoute.Failure 500 error)
    /\ count_sleeps (trace_of run) <= 20
    /\ (forall q,
          result_of run = Ok (QrRoute.Qr q) ->
          q <> EmptyString /\ qrCode (state_of run) = Some q)
    /\ (forall q,
          external = ExternalService.NoServiceUrl ->
          getWhatsAppService = Ok tt ->
          qrCode s = Some q ->
          q <> EmptyString ->
          run = (Ok (QrRoute.Qr q), s, [])).
Proof.
  intros during newClient external gws s run.
  assert (Htruthy : forall o : option string,
             Js.truthy_opt o = true ->
             exists q, o = Some q /\ q <> EmptyString
                       /\ or_else o EmptyString = q).
  { intros [[|a q]|] H; try discriminate.
    exists (String a q). repeat split. discriminate. }
  set (locally :=
         match gws with
         | Throw _ =>
             (Ok (QrRoute.Failure 503 QrRoute.separate_server),
              s, [])
         | Ok _ =>
             if Js.truthy_opt (qrCode s)
             then (Ok (QrRoute.Qr (or_else (qrCode s) EmptyString)), s, [])
             else
               match initialize during newClient s with
               | (Ok _, s1, t1) =>
                   if Js.truthy_opt (qrCode s1)
                   then (Ok (QrRoute.Qr (or_else (qrCode s1) EmptyString)),
                         s1, t1)
                   else (Ok (QrRoute.Failure 404 QrRoute.not_available),
                         s1, t1)
               | (Throw _, s1, t1) =>
                   (Ok (QrRoute.Failure 503 QrRoute.separate_server),
                    s1, t1)
               end
         end).
  assert (Hrun :
    run = match external with
          | ExternalService.NoServiceUrl => locally
          | ExternalService.FetchThrows _ =>
              (Ok (QrRoute.Failure 503 "WhatsApp service unavailable"), s, [])
          | ExternalService.Responds true (Ok data) =>
              (Ok (QrRoute.Forwarded data), s, [])
          | ExternalService.Responds true (Throw _) =>
              (Ok (QrRoute.Failure 503 "WhatsApp service unavailable"), s, [])
          | ExternalService.Responds false _ => locally
          end).
  { assert (Hl : forall h,
               try_catch
                 (try_catch
                    (access gws ;;;
                     qrCode_ <- getQRCode ;;
                     if negb (Js.truthy_opt qrCode_) then
                       initialize during newClient ;;;
                       newQrCode <- getQRCode ;;
                       if negb (Js.truthy_opt newQrCode)
                       then ret (QrRoute.Failure 404 QrRoute.not_available)
                       else ret (QrRoute.Qr (or_else newQrCode EmptyString))
                     else ret (QrRoute.Qr (or_else qrCode_ EmptyString)))%eff
                    (fun _ =>
                       ret (QrRoute.Failure 503 QrRoute.separate_server)))
                 h s = locally).
    { intros h. rewrite !try_catch_run. unfold locally.
      unfold bind at 1, access. destruct gws as [[]|e]; [|reflexivity].
      cbv beta iota. unfold bind at 1, getQRCode at 1, bind at 1, get, ret.
      cbv beta iota. cbn [app].
      destruct (Js.truthy_opt (qrCode s)); cbn [negb]; [reflexivity|].
      unfold bind at 1.
      destruct (initialize during newClient s) as [[[r|e] s1] t1];
        [|cbn [app]; now rewrite ?app_nil_r].
      unfold bind, getQRCode, get, ret. simpl.
      destruct (Js.truthy_opt (qrCode s1)); simpl;
        now rewrite ?app_nil_r. }
    unfold run, QrRoute.GET. cbv zeta.
    destruct external as [|e|[|] [data|e]]; try apply Hl; reflexivity. }
  clearbody run. subst run.
  assert (Hlocal :
    (exists resp, result_of locally = Ok resp
                  /\ forall error, resp <> QrRoute.Failure 500 error)
    /\ count_sleeps (trace_of locally) <= 20
    /\ (forall q, result_of locally = Ok (QrRoute.Qr q) ->
                  q <> EmptyString /\ qrCode (state_of locally) = Some q)).
  { unfold locally. destruct gws as [[]|e].
    2: { split; [eexists; split; [reflexivity|intros error; discriminate]|].
         split; [simpl; lia|]. discriminate. }
    destruct (Js.truthy_opt (qrCode s)) eqn:Hq.
    { split; [eexists; split; [reflexivity|intros error; discriminate]|].
      split; [simpl; lia|].
      intros q [= <-]. destruct (Htruthy _ Hq) as (q & Hs & Hne & ->).
      now split. }
    pose proof (initialize_sleeps during newClient s) as Hs.
    destruct (initialize during newClient s) as [[[r|e] s1] t1].
    - destruct (Js.truthy_opt (qrCode s1)) eqn:Hq1.
      + split; [eexists; split; [reflexivity|intros error; discriminate]|].
        split; [exact Hs|].
        intros q [= <-]. destruct (Htruthy _ Hq1) as (q & Hs1 & Hne & ->).
        now split.
      + split; [eexists; split; [reflexivity|intros error; discriminate]|].
        split; [exact Hs|]. discriminate.
    - split; [eexists; split; [reflexivity|intros error; discriminate]|].
      split; [exact Hs|]. discriminate. }
  split; [|split; [|split]].
  - destruct external as [|e|[|] [data|e]]; try apply Hlocal;
      eexists; (split; [reflexivity|intros error; discriminate]).
  - destruct external as [|e|[|] [data|e]]; try apply Hlocal; simpl; lia.
  - destruct external as [|e|[|] [data|e]]; try apply Hlocal; discriminate.
  - intros q -> -> Hq Hne. unfold locally. rewrite Hq.
    destruct q as [|a q]; [congruence|]. reflexivity.
Qed.

Lemma connect_POST_local_run :
  forall (production : bool) (during : nat -> Service -> Service)
         (later : Service -> Service) (newClient : Client) (s : Service),
    ConnectRoute.POST production during later newClient
      ExternalService.NoServiceUrl (Ok tt) s
    = match initialize during newClient (synced s) with
      | (Throw e, s1, t1) =>
          (Ok (ConnectRoute.RequiresExternal
                 (ConnectRoute.requires_server
                    (ExternalService.message_or e
                       "WhatsApp service initialization failed"))
                 (if production then ConnectRoute.production_details
                  else ExternalService.message_or e
                         "WhatsApp service initialization failed")),
           s1, t1)
      | (Ok result, s1, t1) =>
          if negb (Js.truthy_opt (r_qrCode result)) && negb (r_ready result)
          then
            if Js.truthy_opt (qrCode (later s1)) || connected (later s1)
            then
              (Ok (ConnectRoute.Connected (connected (later s1))
                     (or_undefined (qrCode (later s1)))
                     (if connected (later s1)
                      then ConnectRoute.already_connected
                      else ConnectRoute.scan_the_code)),
               synced (later s1), (t1 ++ [Sleep 2000])%list)
            else
              (Ok (ConnectRoute.Connected (r_ready result)
                     (or_undefined (r_qrCode result))
                     (if r_ready result then ConnectRoute.already_connected
                      else if Js.truthy_opt (r_qrCode result)
                      then ConnectRoute.scan_the_code
                      else ConnectRoute.please_wait)),
               synced (later s1), (t1 ++ [Sleep 2000])%list)
          else
            (Ok (ConnectRoute.Connected (r_ready result)
                   (or_undefined (r_qrCode result))
                   (if r_ready result then ConnectRoute.already_connected
                    else if Js.truthy_opt (r_qrCode result)
                    then ConnectRoute.scan_the_code
                    else ConnectRoute.please_wait)), s1, t1)
      end.
Proof.
  intros production during later newClient s.
  unfold ConnectRoute.POST. rewrite !try_catch_run.
  unfold bind at 1, access. cbv beta iota.
  unfold bind at 1. rewrite isConnected_run. cbv beta iota.
  unfold bind at 1.
  destruct (initialize during newClient (synced s)) as [[[result|e] s1] t1].
  2: { unfold ret. cbv beta iota. cbn [app]. now rewrite ?app_nil_r. }
  unfold bind at 1.
  destruct (negb (Js.truthy_opt (r_qrCode result)) && negb (r_ready result)).
  2: { unfold ret. cbv beta iota. cbn [app]. now rewrite ?app_nil_r. }
  unfold bind at 1. cbv beta iota.
  unfold bind at 1, getQRCode at 1, bind at 1, get, ret. cbv beta iota.
  unfold bind at 1. rewrite isConnected_run. cbv beta iota.
  destruct (Js.truthy_opt (qrCode (later s1)) || connected (later s1));
    cbv beta iota; cbn [app]; now rewrite ?app_nil_r.
Qed.

(** X30.  [POST] of the connect route always answers.  It waits for at most
    twenty seconds and, once, two more.  In an answer that reports
    success, the message says connected exactly when [ready] is set,
    asks to scan exactly when a QR code comes with it and [ready] is not
    set, and asks to wait otherwise.  On a ready service it answers at
    once, without a call on the client. *)
Theorem connect_POST_answers :
  forall (production : bool) (during : nat -> Service -> Service)
         (later : Service -> Service) (newClient : Client)
         (external : ExternalService.External)
         (getWhatsAppService : Outcome unit) (s : Service),
    let run :=
      ConnectRoute.POST production during later newClient external
        getWhatsAppService s in
    (exists resp, result_of run = Ok resp)
    /\ count_sleeps (trace_of run) <= 21
    /\ (forall ready qr text,
          result_of run = Ok (ConnectRoute.Connected ready qr text) ->
          text = (if ready then ConnectRoute.already_connected
                  else match qr with
                       | Some _ => ConnectRoute.scan_the_code
                       | None => ConnectRoute.please_wait
                       end))
    /\ (forall c,
          external = ExternalService.NoServiceUrl ->
          getWhatsAppService = Ok tt ->
          client s = Some c ->
          isReady s = true ->
          run = (Ok (ConnectRoute.Connected true None
                       ConnectRoute.already_connected), s, [])).
Proof.
  intros production during later newClient external gws s run.
  assert (Hother :
    external <> ExternalService.NoServiceUrl \/ (exists e, gws = Throw e) ->
    exists resp, run = (Ok resp, s, [])
                 /\ forall ready qr text,
                      resp <> ConnectRoute.Connected ready qr text).
  { intros H. unfold run.
    destruct external as [|e|[|] [data|e]];
      try (eexists; split; [reflexivity|intros; discriminate]).
    destruct H as [H|[e ->]]; [congruence|].
    eexists; split; [reflexivity|intros; discriminate]. }
  assert (Hcases :
    (external = ExternalService.NoServiceUrl /\ gws = Ok tt)
    \/ (external <> ExternalService.NoServiceUrl \/ exists e, gws = Throw e)).
  { destruct external; try (right; left; discriminate).
    destruct gws as [[]|e]; [now left|right; right; now exists e]. }
  destruct Hcases as [[-> ->]|Hc].
  2: { destruct (Hother Hc) as (resp & Hrun & Hno).
       clearbody run. subst run.
       split; [now exists resp|]. split; [simpl; lia|].
       split.
       - intros ready qr text [= ->]. now destruct (Hno ready qr text).
       - intros c -> ->. destruct Hc as [Hc|[e Hc]]; congruence. }
  clear Hother.
  assert (Hrun := connect_POST_local_run production during later newClient s).
  fold run in Hrun. clearbody run.
  pose proof (initialize_sleeps during newClient (synced s)) as Hsl.
  assert (Hor : forall q : option string,
             Js.truthy_opt q = false -> or_undefined q = None).
  { intros q H. unfold or_undefined. now rewrite H. }
  assert (Hor' : forall q : option string,
             Js.truthy_opt q = true -> exists x, or_undefined q = Some x).
  { intros q H. unfold or_undefined. rewrite H.
    destruct q; [eauto|discriminate]. }
  split; [|split; [|split]].
  - rewrite Hrun.
    destruct (initialize during newClient (synced s))
      as [[[result|e] s1] t1]; [|eexists; reflexivity].
    destruct (negb (Js.truthy_opt (r_qrCode result))
              && negb (r_ready result)); [|eexists; reflexivity].
    destruct (Js.truthy_opt (qrCode (later s1)) || connected (later s1));
      eexists; reflexivity.
  - rewrite Hrun.
    destruct (initialize during newClient (synced s))
      as [[[result|e] s1] t1]; unfold trace_of in *; simpl in Hsl;
      [|simpl; lia].
    destruct (negb (Js.truthy_opt (r_qrCode result))
              && negb (r_ready result)); [|simpl; lia].
    destruct (Js.truthy_opt (qrCode (later s1)) || connected (later s1));
      simpl; rewrite count_sleeps_app; simpl; lia.
  - intros ready qr text. rewrite Hrun.
    destruct (initialize during newClient (synced s))
      as [[[result|e] s1] t1]; [|discriminate].
    destruct (Js.truthy_opt (r_qrCode result)) eqn:Hq;
      destruct (r_ready result) eqn:Hr; cbn [negb andb].
    + intros [= <- <- <-]. reflexivity.
    + intros [= <- <- <-]. destruct (Hor' _ Hq) as [x ->]. reflexivity.
    + intros [= <- <- <-]. reflexivity.
    + destruct (Js.truthy_opt (qrCode (later s1))) eqn:Hq2;
        destruct (connected (later s1)) eqn:Hc2; cbn [orb];
        intros [= <- <- <-]; try reflexivity.
      * destruct (Hor' _ Hq2) as [x ->]. reflexivity.
      * rewrite (Hor _ Hq). reflexivity.
  - intros c _ _ Hc Hready. rewrite Hrun.
    assert (Hs : synced s = s).
    { unfold synced. now rewrite Hc, Hready. }
    rewrite Hs, (initialize_ready during newClient s c Hc Hready).
    reflexivity.
Qed.
